(** * NOIR consensus core and state store: a shallow embedding

    The development follows the sources of the repository:

    - [consensus_state.cpp], the round state machine of the consensus
      engine: module [Consensus] holds its member functions, written in a
      state-and-exception monad, and [ConsensusFacts] what is proved of
      them;
    - the state store [db_store]: modules [StateStore] and
      [StateStoreFacts];
    - the requesters and peers of the block pool of block sync: modules
      [BlockPool] and [BlockPoolFacts].

    Collaborators whose code is not among these sources (blocks, part sets,
    vote sets, validator sets, the codec) are interfaces: type classes
    whose operations the embedded functions call.  A theorem stated over the
    classes holds for every implementation of them.  Module [Sim] gives
    small executable implementations and concrete states, and [Examples]
    runs the functions on them. *)

From Stdlib Require Import ZArith List String Ascii Bool Lia.
From Stdlib Require Import Hexadecimal HexadecimalString HexadecimalN HexadecimalPos HexadecimalFacts.
From stdpp Require Import base gmap strings.
Import ListNotations.

Local Open Scope string_scope.
Local Open Scope Z_scope.

(** ** Data shared by both modules *)

(** [p2p::bytes] is a [std::vector<char>]; a string is a sequence of
    8-bit characters. *)
Definition bytes := string.

Definition bytes_empty (b : bytes) : bool :=
  match b with
  | EmptyString => true
  | String _ _ => false
  end.

Module Consensus.

(** ** Steps, timeouts, identifiers, messages *)

Inductive round_step_type :=
| NewHeight
| NewRound
| Propose
| Prevote
| PrevoteWait
| Precommit
| PrecommitWait
| Commit.

(** Modelled from the spec: the declaration of [round_step_type] is in a
    header that is not among the sources.  The spec lists the steps in this
    order.  They are numbered from 1: the constructor stores a
    value-initialised [timeout_info] (step 0) in [old_ti], and [tick] tests
    [old_ti->step > 0] to recognise it, so 0 names no step. *)
Definition step_code (s : round_step_type) : Z :=
  match s with
  | NewHeight => 1
  | NewRound => 2
  | Propose => 3
  | Prevote => 4
  | PrevoteWait => 5
  | Precommit => 6
  | PrecommitWait => 7
  | Commit => 8
  end.

Definition step_of_code (c : Z) : option round_step_type :=
  match c with
  | 1 => Some NewHeight
  | 2 => Some NewRound
  | 3 => Some Propose
  | 4 => Some Prevote
  | 5 => Some PrevoteWait
  | 6 => Some Precommit
  | 7 => Some PrecommitWait
  | 8 => Some Commit
  | _ => None
  end.

(** [a <= b] and [a < b] on steps, as the comparisons of the enumeration. *)
Definition step_le (a b : round_step_type) : bool := step_code a <=? step_code b.
Definition step_lt (a b : round_step_type) : bool := step_code a <? step_code b.
Definition step_eqb (a b : round_step_type) : bool := step_code a =? step_code b.

(** [timeout_info].  The step is kept as the underlying integer of the
    enumeration, because [timeout_info{}] holds 0 there. *)
Record timeout_info := {
  duration_ : Z;
  ti_height : Z;
  ti_round : Z;
  ti_step : Z
}.

Definition timeout_info_zero : timeout_info :=
  {| duration_ := 0; ti_height := 0; ti_round := 0; ti_step := 0 |}.

Record part_set_header := {
  psh_total : Z;
  psh_hash : bytes
}.

Record block_id := {
  hash : bytes;
  parts : part_set_header
}.

(** [p2p::part_set_header{}] and the nil block id. *)
Definition part_set_header_zero : part_set_header :=
  {| psh_total := 0; psh_hash := EmptyString |}.

Definition block_id_nil : block_id :=
  {| hash := EmptyString; parts := part_set_header_zero |}.

Inductive signed_msg_type :=
| MsgUnknown
| MsgPrevote
| MsgPrecommit
| MsgProposal.

Record vote := {
  v_type : signed_msg_type;
  v_height : Z;
  v_round : Z;
  v_block_id : block_id;
  v_timestamp : Z;
  v_validator_address : bytes;
  v_validator_index : Z
}.

Record proposal_message := {
  p_height : Z;
  p_round : Z;
  p_pol_round : Z;
  p_block_id : block_id;
  p_timestamp : Z
}.

(** What [internal_mq_channel.publish] is given. *)
Inductive internal_msg :=
| PublishedProposal (p : proposal_message)
| PublishedVote (v : vote).

(** The calls made on [timeout_ticker_timer]. *)
Inductive timer_op :=
| TimerCancel
| TimerExpiresFromNow (d : Z)
| TimerAsyncWait (ti : timeout_info).

(** [consensus_config]: the fields the state machine reads. *)
Record consensus_config := {
  timeout_propose : Z;
  timeout_propose_delta : Z;
  timeout_prevote : Z;
  timeout_prevote_delta : Z;
  timeout_precommit : Z;
  timeout_precommit_delta : Z;
  timeout_commit : Z;
  skip_timeout_commit : bool
}.

(** Modelled from the spec: [consensus_config::propose], [prevote] and
    [precommit] are declared in a header that is not among the sources; the
    spec says of each timeout that it increases by its delta per round. *)
Definition cfg_propose (c : consensus_config) (round : Z) : Z :=
  timeout_propose c + timeout_propose_delta c * round.
Definition cfg_prevote (c : consensus_config) (round : Z) : Z :=
  timeout_prevote c + timeout_prevote_delta c * round.
Definition cfg_precommit (c : consensus_config) (round : Z) : Z :=
  timeout_precommit c + timeout_precommit_delta c * round.

Record priv_validator := {
  get_pub_key : bytes
}.

(** ** Interfaces of the collaborators *)

(** Blocks and part sets ([block.h], not among the sources). *)
Class BlockOps := {
  block : Type;
  get_hash : block -> bytes;
  hashes_to : block -> bytes -> bool;
  header_time : block -> Z;
  part_set : Type;
  header : part_set -> part_set_header;
  has_header : part_set -> part_set_header -> bool;
  new_part_set_from_header : part_set_header -> part_set;
  total : part_set -> Z
}.

(** Validator sets and public keys ([validator.h], not among the
    sources).  [increment_proposer_priority] mutates the set in place;
    here it returns the new set. *)
Class ValidatorOps := {
  validator_set : Type;
  increment_proposer_priority : Z -> validator_set -> validator_set;
  has_address : validator_set -> bytes -> bool;
  get_proposer_address : validator_set -> bytes;
  get_index_by_address : validator_set -> bytes -> Z;
  address : bytes -> bytes
}.

(** Vote sets and the per-height collection of them ([vote.h] and
    [height_vote_set], not among the sources).  The operations that mutate
    ([add_vote], [set_round]) return the new set; [prevotes] and
    [precommits] give the vote set of a round, allocated if absent as the
    spec has it. *)
Class VoteOps `{ValidatorOps} := {
  vote_set : Type;
  vs_add_vote : vote -> vote_set -> bool * vote_set;
  two_thirds_majority : vote_set -> option block_id;
  has_two_thirds_majority : vote_set -> bool;
  has_two_thirds_any : vote_set -> bool;
  has_all : vote_set -> bool;
  height_vote_set : Type;
  new_height_vote_set : string -> Z -> validator_set -> height_vote_set;
  prevotes : height_vote_set -> Z -> vote_set;
  precommits : height_vote_set -> Z -> vote_set;
  set_round : Z -> height_vote_set -> height_vote_set;
  pol_info : height_vote_set -> Z;
  hvs_add_vote : vote -> string -> height_vote_set -> bool * height_vote_set
}.

Section Machine.

Context `{BO : BlockOps} `{VO : ValidatorOps} `{VT : !VoteOps}.

(** The chain [state]: the fields [consensus_state.cpp] reads. *)
Record state := {
  chain_id : string;
  initial_height : Z;
  last_block_height : Z;
  validators : validator_set;
  last_validators : validator_set
}.

(** [state::is_empty] is declared in [state.h], not among the sources. *)
Class StateOps := {
  is_empty : state -> bool
}.

Context `{SO : StateOps}.

Record round_state := {
  rs_height : Z;
  rs_round : Z;
  rs_step : round_step_type;
  rs_start_time : Z;
  rs_commit_time : Z;
  rs_validators : option validator_set;
  rs_proposal : option proposal_message;
  rs_proposal_block : option block;
  rs_proposal_block_parts : option part_set;
  rs_locked_round : Z;
  rs_locked_block : option block;
  rs_locked_block_parts : option part_set;
  rs_valid_round : Z;
  rs_valid_block : option block;
  rs_valid_block_parts : option part_set;
  rs_votes : option height_vote_set;
  rs_commit_round : Z;
  rs_last_commit : option vote_set;
  rs_last_validators : option validator_set;
  rs_triggered_timeout_precommit : bool
}.

(** [consensus_state]: the members the modelled functions touch.  [now] is
    what [get_time()] returns during the call; [timer] and [internal_mq]
    record, oldest first, the calls made on the timer and the messages
    published. *)
Record consensus_state := {
  cs_config : consensus_config;
  rs : round_state;
  local_state : state;
  local_priv_validator : option priv_validator;
  local_priv_validator_pub_key : bytes;
  old_ti : timeout_info;
  timer : list timer_op;
  internal_mq : list internal_msg;
  n_steps : nat;
  now : Z
}.

(** *** Field updates *)

Definition set_height (v : Z) (r : round_state) : round_state :=
  {| rs_height := v; rs_round := rs_round r; rs_step := rs_step r;
     rs_start_time := rs_start_time r; rs_commit_time := rs_commit_time r;
     rs_validators := rs_validators r; rs_proposal := rs_proposal r;
     rs_proposal_block := rs_proposal_block r;
     rs_proposal_block_parts := rs_proposal_block_parts r;
     rs_locked_round := rs_locked_round r; rs_locked_block := rs_locked_block r;
     rs_locked_block_parts := rs_locked_block_parts r;
     rs_valid_round := rs_valid_round r; rs_valid_block := rs_valid_block r;
     rs_valid_block_parts := rs_valid_block_parts r; rs_votes := rs_votes r;
     rs_commit_round := rs_commit_round r; rs_last_commit := rs_last_commit r;
     rs_last_validators := rs_last_validators r;
     rs_triggered_timeout_precommit := rs_triggered_timeout_precommit r |}.

Definition set_round_step (rd : Z) (st : round_step_type) (r : round_state) : round_state :=
  {| rs_height := rs_height r; rs_round := rd; rs_step := st;
     rs_start_time := rs_start_time r; rs_commit_time := rs_commit_time r;
     rs_validators := rs_validators r; rs_proposal := rs_proposal r;
     rs_proposal_block := rs_proposal_block r;
     rs_proposal_block_parts := rs_proposal_block_parts r;
     rs_locked_round := rs_locked_round r; rs_locked_block := rs_locked_block r;
     rs_locked_block_parts := rs_locked_block_parts r;
     rs_valid_round := rs_valid_round r; rs_valid_block := rs_valid_block r;
     rs_valid_block_parts := rs_valid_block_parts r; rs_votes := rs_votes r;
     rs_commit_round := rs_commit_round r; rs_last_commit := rs_last_commit r;
     rs_last_validators := rs_last_validators r;
     rs_triggered_timeout_precommit := rs_triggered_timeout_precommit r |}.

(** [rs.commit_round = cr; rs.commit_time = ct]. *)
Definition set_commit (cr ct : Z) (r : round_state) : round_state :=
  {| rs_height := rs_height r; rs_round := rs_round r; rs_step := rs_step r;
     rs_start_time := rs_start_time r; rs_commit_time := ct;
     rs_validators := rs_validators r; rs_proposal := rs_proposal r;
     rs_proposal_block := rs_proposal_block r;
     rs_proposal_block_parts := rs_proposal_block_parts r;
     rs_locked_round := rs_locked_round r; rs_locked_block := rs_locked_block r;
     rs_locked_block_parts := rs_locked_block_parts r;
     rs_valid_round := rs_valid_round r; rs_valid_block := rs_valid_block r;
     rs_valid_block_parts := rs_valid_block_parts r; rs_votes := rs_votes r;
     rs_commit_round := cr; rs_last_commit := rs_last_commit r;
     rs_last_validators := rs_last_validators r;
     rs_triggered_timeout_precommit := rs_triggered_timeout_precommit r |}.

Definition set_validators (v : option validator_set) (r : round_state) : round_state :=
  {| rs_height := rs_height r; rs_round := rs_round r; rs_step := rs_step r;
     rs_start_time := rs_start_time r; rs_commit_time := rs_commit_time r;
     rs_validators := v; rs_proposal := rs_proposal r;
     rs_proposal_block := rs_proposal_block r;
     rs_proposal_block_parts := rs_proposal_block_parts r;
     rs_locked_round := rs_locked_round r; rs_locked_block := rs_locked_block r;
     rs_locked_block_parts := rs_locked_block_parts r;
     rs_valid_round := rs_valid_round r; rs_valid_block := rs_valid_block r;
     rs_valid_block_parts := rs_valid_block_parts r; rs_votes := rs_votes r;
     rs_commit_round := rs_commit_round r; rs_last_commit := rs_last_commit r;
     rs_last_validators := rs_last_validators r;
     rs_triggered_timeout_precommit := rs_triggered_timeout_precommit r |}.

Definition set_proposal_field (v : option proposal_message) (r : round_state) : round_state :=
  {| rs_height := rs_height r; rs_round := rs_round r; rs_step := rs_step r;
     rs_start_time := rs_start_time r; rs_commit_time := rs_commit_time r;
     rs_validators := rs_validators r; rs_proposal := v;
     rs_proposal_block := rs_proposal_block r;
     rs_proposal_block_parts := rs_proposal_block_parts r;
     rs_locked_round := rs_locked_round r; rs_locked_block := rs_locked_block r;
     rs_locked_block_parts := rs_locked_block_parts r;
     rs_valid_round := rs_valid_round r; rs_valid_block := rs_valid_block r;
     rs_valid_block_parts := rs_valid_block_parts r; rs_votes := rs_votes r;
     rs_commit_round := rs_commit_round r; rs_last_commit := rs_last_commit r;
     rs_last_validators := rs_last_validators r;
     rs_triggered_timeout_precommit := rs_triggered_timeout_precommit r |}.

(** [rs.proposal_block = b; rs.proposal_block_parts = ps]. *)
Definition set_proposal_block (b : option block) (ps : option part_set) (r : round_state) : round_state :=
  {| rs_height := rs_height r; rs_round := rs_round r; rs_step := rs_step r;
     rs_start_time := rs_start_time r; rs_commit_time := rs_commit_time r;
     rs_validators := rs_validators r; rs_proposal := rs_proposal r;
     rs_proposal_block := b;
     rs_proposal_block_parts := ps;
     rs_locked_round := rs_locked_round r; rs_locked_block := rs_locked_block r;
     rs_locked_block_parts := rs_locked_block_parts r;
     rs_valid_round := rs_valid_round r; rs_valid_block := rs_valid_block r;
     rs_valid_block_parts := rs_valid_block_parts r; rs_votes := rs_votes r;
     rs_commit_round := rs_commit_round r; rs_last_commit := rs_last_commit r;
     rs_last_validators := rs_last_validators r;
     rs_triggered_timeout_precommit := rs_triggered_timeout_precommit r |}.

(** [rs.locked_round = lr; rs.locked_block = b; rs.locked_block_parts = ps]. *)
Definition set_locked (lr : Z) (b : option block) (ps : option part_set) (r : round_state) : round_state :=
  {| rs_height := rs_height r; rs_round := rs_round r; rs_step := rs_step r;
     rs_start_time := rs_start_time r; rs_commit_time := rs_commit_time r;
     rs_validators := rs_validators r; rs_proposal := rs_proposal r;
     rs_proposal_block := rs_proposal_block r;
     rs_proposal_block_parts := rs_proposal_block_parts r;
     rs_locked_round := lr; rs_locked_block := b;
     rs_locked_block_parts := ps;
     rs_valid_round := rs_valid_round r; rs_valid_block := rs_valid_block r;
     rs_valid_block_parts := rs_valid_block_parts r; rs_votes := rs_votes r;
     rs_commit_round := rs_commit_round r; rs_last_commit := rs_last_commit r;
     rs_last_validators := rs_last_validators r;
     rs_triggered_timeout_precommit := rs_triggered_timeout_precommit r |}.

(** [rs.valid_round = vr; rs.valid_block = b; rs.valid_block_parts = ps]. *)
Definition set_valid (vr : Z) (b : option block) (ps : option part_set) (r : round_state) : round_state :=
  {| rs_height := rs_height r; rs_round := rs_round r; rs_step := rs_step r;
     rs_start_time := rs_start_time r; rs_commit_time := rs_commit_time r;
     rs_validators := rs_validators r; rs_proposal := rs_proposal r;
     rs_proposal_block := rs_proposal_block r;
     rs_proposal_block_parts := rs_proposal_block_parts r;
     rs_locked_round := rs_locked_round r; rs_locked_block := rs_locked_block r;
     rs_locked_block_parts := rs_locked_block_parts r;
     rs_valid_round := vr; rs_valid_block := b;
     rs_valid_block_parts := ps; rs_votes := rs_votes r;
     rs_commit_round := rs_commit_round r; rs_last_commit := rs_last_commit r;
     rs_last_validators := rs_last_validators r;
     rs_triggered_timeout_precommit := rs_triggered_timeout_precommit r |}.

Definition set_votes (v : option height_vote_set) (r : round_state) : round_state :=
  {| rs_height := rs_height r; rs_round := rs_round r; rs_step := rs_step r;
     rs_start_time := rs_start_time r; rs_commit_time := rs_commit_time r;
     rs_validators := rs_validators r; rs_proposal := rs_proposal r;
     rs_proposal_block := rs_proposal_block r;
     rs_proposal_block_parts := rs_proposal_block_parts r;
     rs_locked_round := rs_locked_round r; rs_locked_block := rs_locked_block r;
     rs_locked_block_parts := rs_locked_block_parts r;
     rs_valid_round := rs_valid_round r; rs_valid_block := rs_valid_block r;
     rs_valid_block_parts := rs_valid_block_parts r; rs_votes := v;
     rs_commit_round := rs_commit_round r; rs_last_commit := rs_last_commit r;
     rs_last_validators := rs_last_validators r;
     rs_triggered_timeout_precommit := rs_triggered_timeout_precommit r |}.

Definition set_commit_round (v : Z) (r : round_state) : round_state :=
  set_commit v (rs_commit_time r) r.

Definition set_last_commit (v : option vote_set) (r : round_state) : round_state :=
  {| rs_height := rs_height r; rs_round := rs_round r; rs_step := rs_step r;
     rs_start_time := rs_start_time r; rs_commit_time := rs_commit_time r;
     rs_validators := rs_validators r; rs_proposal := rs_proposal r;
     rs_proposal_block := rs_proposal_block r;
     rs_proposal_block_parts := rs_proposal_block_parts r;
     rs_locked_round := rs_locked_round r; rs_locked_block := rs_locked_block r;
     rs_locked_block_parts := rs_locked_block_parts r;
     rs_valid_round := rs_valid_round r; rs_valid_block := rs_valid_block r;
     rs_valid_block_parts := rs_valid_block_parts r; rs_votes := rs_votes r;
     rs_commit_round := rs_commit_round r; rs_last_commit := v;
     rs_last_validators := rs_last_validators r;
     rs_triggered_timeout_precommit := rs_triggered_timeout_precommit r |}.

Definition set_last_validators (v : option validator_set) (r : round_state) : round_state :=
  {| rs_height := rs_height r; rs_round := rs_round r; rs_step := rs_step r;
     rs_start_time := rs_start_time r; rs_commit_time := rs_commit_time r;
     rs_validators := rs_validators r; rs_proposal := rs_proposal r;
     rs_proposal_block := rs_proposal_block r;
     rs_proposal_block_parts := rs_proposal_block_parts r;
     rs_locked_round := rs_locked_round r; rs_locked_block := rs_locked_block r;
     rs_locked_block_parts := rs_locked_block_parts r;
     rs_valid_round := rs_valid_round r; rs_valid_block := rs_valid_block r;
     rs_valid_block_parts := rs_valid_block_parts r; rs_votes := rs_votes r;
     rs_commit_round := rs_commit_round r; rs_last_commit := rs_last_commit r;
     rs_last_validators := v;
     rs_triggered_timeout_precommit := rs_triggered_timeout_precommit r |}.

Definition set_triggered_timeout_precommit (v : bool) (r : round_state) : round_state :=
  {| rs_height := rs_height r; rs_round := rs_round r; rs_step := rs_step r;
     rs_start_time := rs_start_time r; rs_commit_time := rs_commit_time r;
     rs_validators := rs_validators r; rs_proposal := rs_proposal r;
     rs_proposal_block := rs_proposal_block r;
     rs_proposal_block_parts := rs_proposal_block_parts r;
     rs_locked_round := rs_locked_round r; rs_locked_block := rs_locked_block r;
     rs_locked_block_parts := rs_locked_block_parts r;
     rs_valid_round := rs_valid_round r; rs_valid_block := rs_valid_block r;
     rs_valid_block_parts := rs_valid_block_parts r; rs_votes := rs_votes r;
     rs_commit_round := rs_commit_round r; rs_last_commit := rs_last_commit r;
     rs_last_validators := rs_last_validators r;
     rs_triggered_timeout_precommit := v |}.

Definition with_rs (r : round_state) (s : consensus_state) : consensus_state :=
  {| cs_config := cs_config s; rs := r; local_state := local_state s;
     local_priv_validator := local_priv_validator s;
     local_priv_validator_pub_key := local_priv_validator_pub_key s;
     old_ti := old_ti s; timer := timer s; internal_mq := internal_mq s;
     n_steps := n_steps s; now := now s |}.

Definition with_local_state (st : state) (s : consensus_state) : consensus_state :=
  {| cs_config := cs_config s; rs := rs s; local_state := st;
     local_priv_validator := local_priv_validator s;
     local_priv_validator_pub_key := local_priv_validator_pub_key s;
     old_ti := old_ti s; timer := timer s; internal_mq := internal_mq s;
     n_steps := n_steps s; now := now s |}.

Definition with_pub_key (k : bytes) (s : consensus_state) : consensus_state :=
  {| cs_config := cs_config s; rs := rs s; local_state := local_state s;
     local_priv_validator := local_priv_validator s;
     local_priv_validator_pub_key := k;
     old_ti := old_ti s; timer := timer s; internal_mq := internal_mq s;
     n_steps := n_steps s; now := now s |}.

(** [old_ti = ti] together with the calls on the timer that follow it. *)
Definition with_ticker (ti : timeout_info) (ops : list timer_op) (s : consensus_state) : consensus_state :=
  {| cs_config := cs_config s; rs := rs s; local_state := local_state s;
     local_priv_validator := local_priv_validator s;
     local_priv_validator_pub_key := local_priv_validator_pub_key s;
     old_ti := ti; timer := timer s ++ ops; internal_mq := internal_mq s;
     n_steps := n_steps s; now := now s |}.

Definition with_published (m : list internal_msg) (s : consensus_state) : consensus_state :=
  {| cs_config := cs_config s; rs := rs s; local_state := local_state s;
     local_priv_validator := local_priv_validator s;
     local_priv_validator_pub_key := local_priv_validator_pub_key s;
     old_ti := old_ti s; timer := timer s; internal_mq := internal_mq s ++ m;
     n_steps := n_steps s; now := now s |}.

Definition with_n_steps (n : nat) (s : consensus_state) : consensus_state :=
  {| cs_config := cs_config s; rs := rs s; local_state := local_state s;
     local_priv_validator := local_priv_validator s;
     local_priv_validator_pub_key := local_priv_validator_pub_key s;
     old_ti := old_ti s; timer := timer s; internal_mq := internal_mq s;
     n_steps := n; now := now s |}.

(** ** Outcomes and the monad of the member functions

    A member function ends by returning ([Ok]), by throwing
    [std::runtime_error] ([Throw], with the state at the point where the
    exception leaves the function), or by reading through an empty
    [std::optional] or a null [shared_ptr] ([EmptyAccess]), which the
    language leaves undefined and after which no state is described. *)
Inductive outcome (A : Type) :=
| Ok (a : A) (s : consensus_state)
| Throw (what : string) (s : consensus_state)
| EmptyAccess.

Arguments Ok {A} a s.
Arguments Throw {A} what s.
Arguments EmptyAccess {A}.

Definition M (A : Type) : Type := consensus_state -> outcome A.

#[global] Instance M_ret : MRet M := fun A a s => Ok a s.

#[global] Instance M_bind : MBind M := fun A B k m s =>
  match m s with
  | Ok a s' => k a s'
  | Throw w s' => Throw w s'
  | EmptyAccess => EmptyAccess
  end.

#[global] Instance M_throw : MThrow string M := fun A w s => Throw w s.

Definition get : M consensus_state := fun s => Ok s s.

Definition modify (f : consensus_state -> consensus_state) : M unit :=
  fun s => Ok tt (f s).

Definition modify_rs (f : round_state -> round_state) : M unit :=
  modify (fun s => with_rs (f (rs s)) s).

(** [*o] and [o->] on an optional or a pointer. *)
Definition access {A : Type} (o : option A) : M A :=
  match o with
  | Some a => mret a
  | None => fun _ => EmptyAccess
  end.

Definition has_value {A : Type} (o : option A) : bool :=
  match o with
  | Some _ => true
  | None => false
  end.

(** [auto defer = make_scoped_exit(d); body]: [d] runs when the scope is
    left, by return or by exception.  An exception that leaves [d] itself
    while another one is in flight ends the process; it is reported as the
    exception of [d]. *)
Definition scoped_exit (d body : M unit) : M unit := fun s =>
  match body s with
  | Ok _ s' => d s'
  | Throw w s' =>
      match d s' with
      | Ok _ s'' => Throw w s''
      | Throw w' s'' => Throw w' s''
      | EmptyAccess => EmptyAccess
      end
  | EmptyAccess => EmptyAccess
  end.

(** ** The member functions of [consensus_state] *)

Definition update_height (height : Z) : M unit :=
  modify_rs (set_height height).

Definition update_round_step (round : Z) (step : round_step_type) : M unit :=
  modify_rs (set_round_step round step).

Definition new_step : M unit :=
  modify (fun s => with_n_steps (S (n_steps s)) s).

Definition tick (ti : timeout_info) : M unit :=
  s ← get;
  let old := old_ti s in
  let arm :=
    modify (with_ticker ti
      [TimerCancel; TimerExpiresFromNow (duration_ ti); TimerAsyncWait ti]) in
  if ti_height ti <? ti_height old then mret tt
  else if ti_height ti =? ti_height old then
    if ti_round ti <? ti_round old then mret tt
    else if ti_round ti =? ti_round old then
      if (0 <? ti_step old) && (ti_step ti <=? ti_step old) then mret tt
      else arm
    else arm
  else arm.

Definition schedule_timeout (d height round : Z) (step : round_step_type) : M unit :=
  tick {| duration_ := d; ti_height := height; ti_round := round;
          ti_step := step_code step |}.

Definition schedule_round_0 (rs_ : round_state) : M unit :=
  s ← get;
  let sleep_duration := rs_start_time rs_ - now s in
  schedule_timeout sleep_duration (rs_height rs_) 0 NewHeight.

Definition update_priv_validator_pub_key : M unit :=
  s ← get;
  match local_priv_validator s with
  | None => mret tt
  | Some pv => modify (with_pub_key (get_pub_key pv))
  end.

(** The assignments that reset the fields of [rs] after
    [update_round_step(0, NewHeight)] are one update of the round state,
    written innermost first in the order of the source. *)
Definition update_to_state (state_ : state) : M unit :=
  s ← get;
  if (-1 <? rs_commit_round (rs s)) && (0 <? rs_height (rs s))
     && negb (rs_height (rs s) =? last_block_height state_)
  then mthrow "update_to_state() unexpected state height"
  else
  let ls := local_state s in
  if negb (is_empty ls) && (0 <? last_block_height ls)
     && negb (last_block_height ls + 1 =? rs_height (rs s))
  then mthrow "inconsistent local_state.last_block_height+1 vs rs.height"
  else
  if negb (is_empty ls) && (0 <? last_block_height ls)
     && (rs_height (rs s) =? initial_height ls)
  then mthrow "inconsistent local_state.last_block_height, expected 0 for initial height"
  else
  if negb (is_empty ls) && (last_block_height state_ <=? last_block_height ls)
  then new_step
  else
    modify_rs (set_validators (Some (validators state_)));;
    (if last_block_height state_ =? 0 then modify_rs (set_last_commit None)
     else if (-1 <? rs_commit_round (rs s)) && has_value (rs_votes (rs s)) then
       votes ← access (rs_votes (rs s));
       if negb (has_two_thirds_majority (precommits votes (rs_commit_round (rs s))))
       then mthrow "wanted to form a commit, but precommits didn't have 2/3+"
       else modify_rs (set_last_commit (Some (precommits votes (rs_commit_round (rs s)))))
     else if negb (has_value (rs_last_commit (rs s)))
       then mthrow "last commit cannot be empty after initial block"
       else mret tt);;
    let height :=
      if last_block_height state_ + 1 =? 1 then initial_height state_
      else last_block_height state_ + 1 in
    update_height height;;
    update_round_step 0 NewHeight;;
    modify_rs (fun r =>
      set_triggered_timeout_precommit false
        (set_last_validators (Some (last_validators state_))
          (set_commit_round (-1)
            (set_votes
               (Some (new_height_vote_set (chain_id state_) height (validators state_)))
              (set_valid (-1) None None
                (set_locked (-1) None None
                  (set_proposal_block None None
                    (set_proposal_field None r))))))));;
    modify (with_local_state state_);;
    new_step.

Definition vote_time : M Z :=
  s ← get;
  let min_vote_time :=
    match rs_locked_block (rs s) with
    | Some b => header_time b + 1
    | None =>
        match rs_proposal_block (rs s) with
        | Some b => header_time b + 1
        | None => now s
        end
    end in
  if min_vote_time <? now s then mret (now s) else mret min_vote_time.

Definition sign_vote (msg_type : signed_msg_type) (hash_ : bytes) (header_ : part_set_header)
  : M (option vote) :=
  s ← get;
  if bytes_empty (local_priv_validator_pub_key s) then mret None
  else
    let addr := address (local_priv_validator_pub_key s) in
    vals ← access (rs_validators (rs s));
    let val_idx := get_index_by_address vals addr in
    if val_idx <? 0 then mret None
    else
      t ← vote_time;
      mret (Some {| v_type := msg_type; v_height := rs_height (rs s);
                    v_round := rs_round (rs s);
                    v_block_id := {| hash := hash_; parts := header_ |};
                    v_timestamp := t; v_validator_address := addr;
                    v_validator_index := val_idx |}).

(** The vote that [sign_add_vote] returns is used by no caller. *)
Definition sign_add_vote (msg_type : signed_msg_type) (hash_ : bytes) (header_ : part_set_header)
  : M unit :=
  s ← get;
  match local_priv_validator s with
  | None => mret tt
  | Some _ =>
      if bytes_empty (local_priv_validator_pub_key s) then mret tt
      else
        vals ← access (rs_validators (rs s));
        if negb (has_address vals (address (local_priv_validator_pub_key s))) then mret tt
        else
          vote_ ← sign_vote msg_type hash_ header_;
          match vote_ with
          | Some v => modify (with_published [PublishedVote v])
          | None => mret tt
          end
  end.

Definition do_prevote (height round : Z) : M unit :=
  s ← get;
  match rs_locked_block (rs s) with
  | Some lb =>
      lbp ← access (rs_locked_block_parts (rs s));
      sign_add_vote MsgPrevote (get_hash lb) (header lbp)
  | None =>
      match rs_proposal_block (rs s) with
      | None => sign_add_vote MsgPrevote EmptyString part_set_header_zero
      | Some pb =>
          pbp ← access (rs_proposal_block_parts (rs s));
          sign_add_vote MsgPrevote (get_hash pb) (header pbp)
      end
  end.

Definition enter_prevote (height round : Z) : M unit :=
  s ← get;
  if negb (rs_height (rs s) =? height) || (round <? rs_round (rs s))
     || ((rs_round (rs s) =? round) && step_le Prevote (rs_step (rs s)))
  then mret tt
  else
    scoped_exit (update_round_step round Prevote;; new_step)
      (do_prevote height round).

Definition is_proposal_complete : M bool :=
  s ← get;
  match rs_proposal (rs s), rs_proposal_block (rs s) with
  | Some p, Some _ =>
      if p_pol_round p <? 0 then mret true
      else
        votes ← access (rs_votes (rs s));
        mret (has_two_thirds_majority (prevotes votes (p_pol_round p)))
  | _, _ => mret false
  end.

Definition is_proposal (address_ : bytes) : M bool :=
  s ← get;
  vals ← access (rs_validators (rs s));
  mret (String.eqb (get_proposer_address vals) address_).

(** When there is no valid block, the source builds no block (the call to
    the block executor is still to be written) and returns; the commit it
    prepares on the way is not used. *)
Definition decide_proposal (height round : Z) : M unit :=
  s ← get;
  match rs_valid_block (rs s) with
  | Some block_ =>
      block_parts_ ← access (rs_valid_block_parts (rs s));
      let prop_block_id := {| hash := get_hash block_; parts := header block_parts_ |} in
      let proposal_ :=
        {| p_height := height; p_round := round; p_pol_round := rs_valid_round (rs s);
           p_block_id := prop_block_id; p_timestamp := now s |} in
      modify (with_published [PublishedProposal proposal_]);;
      modify (with_published
        (repeat (PublishedProposal proposal_) (Z.to_nat (total block_parts_))))
  | None =>
      match local_priv_validator s with
      | None => mthrow "attempted to create proposal block with empty priv_validator"
      | Some _ =>
          if rs_height (rs s) =? initial_height (local_state s) then mret tt
          else
            lc ← access (rs_last_commit (rs s));
            if has_two_thirds_majority lc then mret tt else mret tt
      end
  end.

Definition enter_propose (height round : Z) : M unit :=
  s ← get;
  if negb (rs_height (rs s) =? height) || (round <? rs_round (rs s))
     || ((rs_round (rs s) =? round) && step_le Propose (rs_step (rs s)))
  then mret tt
  else
    scoped_exit
      (update_round_step round Propose;;
       new_step;;
       complete ← is_proposal_complete;
       if complete : bool then (s' ← get; enter_prevote height (rs_round (rs s')))
       else mret tt)
      (schedule_timeout (cfg_propose (cs_config s) round) height round Propose;;
       match local_priv_validator s with
       | None => mret tt
       | Some _ =>
           if bytes_empty (local_priv_validator_pub_key s) then mret tt
           else
             let address_ := address (local_priv_validator_pub_key s) in
             vals ← access (rs_validators (rs s));
             if negb (has_address vals address_) then mret tt
             else
               ours ← is_proposal address_;
               if ours : bool then decide_proposal height round else mret tt
       end).

Definition enter_new_round (height round : Z) : M unit :=
  s ← get;
  if negb (rs_height (rs s) =? height) || (round <? rs_round (rs s))
     || ((rs_round (rs s) =? round) && negb (step_eqb (rs_step (rs s)) NewHeight))
  then mret tt
  else
    (if rs_round (rs s) <? round then
       vals ← access (rs_validators (rs s));
       modify_rs (set_validators
         (Some (increment_proposer_priority (round - rs_round (rs s)) vals)))
     else mret tt);;
    update_round_step round NewRound;;
    (if round =? 0 then mret tt
     else
       modify_rs (set_proposal_field None);;
       modify_rs (set_proposal_block None None));;
    votes ← access (rs_votes (rs s));
    modify_rs (set_votes (Some (set_round (round + 1) votes)));;
    modify_rs (set_triggered_timeout_precommit false);;
    enter_propose height round.

Definition enter_prevote_wait (height round : Z) : M unit :=
  s ← get;
  if negb (rs_height (rs s) =? height) || (round <? rs_round (rs s))
     || ((rs_round (rs s) =? round) && step_le PrevoteWait (rs_step (rs s)))
  then mret tt
  else
    votes ← access (rs_votes (rs s));
    if has_two_thirds_any (prevotes votes round)
    then mthrow "entering prevote_wait step, but prevotes does not have any 2/3+ votes"
    else
      scoped_exit (update_round_step round PrevoteWait;; new_step)
        (schedule_timeout (cfg_prevote (cs_config s) round) height round PrevoteWait).

Definition enter_precommit (height round : Z) : M unit :=
  s ← get;
  if negb (rs_height (rs s) =? height) || (round <? rs_round (rs s))
     || ((rs_round (rs s) =? round) && step_le Precommit (rs_step (rs s)))
  then mret tt
  else
    scoped_exit (update_round_step round Precommit;; new_step)
      (votes ← access (rs_votes (rs s));
       match two_thirds_majority (prevotes votes round) with
       | None => sign_add_vote MsgPrecommit EmptyString part_set_header_zero
       | Some block_id_ =>
           if pol_info votes <? round
           then mthrow "pol_round should be the round of the polka"
           else if bytes_empty (hash block_id_) then
             (if negb (has_value (rs_locked_block (rs s))) then mret tt
              else modify_rs (set_locked (-1) None None));;
             sign_add_vote MsgPrecommit EmptyString part_set_header_zero
           else
             locked_block ← access (rs_locked_block (rs s));
             if hashes_to locked_block (hash block_id_) then
               modify_rs (set_locked round (rs_locked_block (rs s))
                            (rs_locked_block_parts (rs s)));;
               sign_add_vote MsgPrecommit (hash block_id_) (parts block_id_)
             else
               proposal_block ← access (rs_proposal_block (rs s));
               if hashes_to proposal_block (hash block_id_) then
                 modify_rs (set_locked round (rs_proposal_block (rs s))
                              (rs_proposal_block_parts (rs s)));;
                 sign_add_vote MsgPrecommit (hash block_id_) (parts block_id_)
               else
                 modify_rs (set_locked (-1) None None);;
                 pbp ← access (rs_proposal_block_parts (rs s));
                 (if negb (has_header pbp (parts block_id_)) then
                    modify_rs (set_proposal_block None
                      (Some (new_part_set_from_header (parts block_id_))))
                  else mret tt);;
                 sign_add_vote MsgPrecommit EmptyString part_set_header_zero
       end).

Definition enter_precommit_wait (height round : Z) : M unit :=
  s ← get;
  if negb (rs_height (rs s) =? height) || (round <? rs_round (rs s))
     || ((rs_round (rs s) =? round) && rs_triggered_timeout_precommit (rs s))
  then mret tt
  else
    votes ← access (rs_votes (rs s));
    if has_two_thirds_any (precommits votes round)
    then mthrow "entering precommit_wait step, but prevotes does not have any 2/3+ votes"
    else
      scoped_exit (modify_rs (set_triggered_timeout_precommit true);; new_step)
        (schedule_timeout (cfg_precommit (cs_config s) round) height round PrecommitWait).

Definition finalize_commit (height : Z) : M unit :=
  s ← get;
  if negb (rs_height (rs s) =? height) || negb (step_eqb (rs_step (rs s)) Commit)
  then mret tt
  else
    votes ← access (rs_votes (rs s));
    match two_thirds_majority (precommits votes (rs_commit_round (rs s))) with
    | None => mthrow "cannot finalize commit; commit does not have 2/3 majority"
    | Some block_id_ =>
        block_parts_ ← access (rs_proposal_block_parts (rs s));
        if negb (has_header block_parts_ (parts block_id_))
        then mthrow "expected ProposalBlockParts header to be commit header"
        else
          block_ ← access (rs_proposal_block (rs s));
          if negb (hashes_to block_ (hash block_id_))
          then mthrow "cannot finalize commit; proposal block does not hash to commit hash"
          else
            let state_copy := local_state s in
            update_to_state state_copy;;
            update_priv_validator_pub_key;;
            s' ← get;
            schedule_round_0 (rs s')
    end.

Definition try_finalize_commit (height : Z) : M unit :=
  s ← get;
  if negb (rs_height (rs s) =? height)
  then mthrow "try_finalize_commit: rs.height vs height"
  else
    votes ← access (rs_votes (rs s));
    match two_thirds_majority (precommits votes (rs_commit_round (rs s))) with
    | None => mret tt
    | Some block_id_ =>
        if bytes_empty (hash block_id_) then mret tt
        else
          proposal_block ← access (rs_proposal_block (rs s));
          if negb (hashes_to proposal_block (hash block_id_)) then mret tt
          else finalize_commit height
    end.

Definition enter_commit (height round : Z) : M unit :=
  s ← get;
  if negb (rs_height (rs s) =? height) || step_le Commit (rs_step (rs s))
  then mret tt
  else
    scoped_exit
      (update_round_step round Commit;;
       modify_rs (set_commit round (now s));;
       new_step;;
       try_finalize_commit height)
      (votes ← access (rs_votes (rs s));
       match two_thirds_majority (precommits votes round) with
       | None => mthrow "RunActionCommit() expects +2/3 precommits"
       | Some block_id_ =>
           locked_block ← access (rs_locked_block (rs s));
           (if hashes_to locked_block (hash block_id_) then
              modify_rs (set_proposal_block (rs_locked_block (rs s))
                           (rs_locked_block_parts (rs s)))
            else mret tt);;
           s1 ← get;
           proposal_block ← access (rs_proposal_block (rs s1));
           if negb (hashes_to proposal_block (hash block_id_)) then
             pbp ← access (rs_proposal_block_parts (rs s1));
             if negb (has_header pbp (parts block_id_)) then
               modify_rs (set_proposal_block None
                 (Some (new_part_set_from_header (parts block_id_))))
             else mret tt
           else mret tt
       end).

Definition set_proposal (msg : proposal_message) : M unit :=
  s ← get;
  if negb (has_value (rs_proposal (rs s))) then mret tt
  else if negb (p_height msg =? rs_height (rs s)) || negb (p_round msg =? rs_round (rs s))
  then mret tt
  else if (p_pol_round msg <? -1)
          || ((0 <=? p_pol_round msg) && (p_round msg <=? p_pol_round msg))
  then mret tt
  else
    modify_rs (set_proposal_field (Some msg));;
    if negb (has_value (rs_proposal_block_parts (rs s))) then
      modify_rs (set_proposal_block (rs_proposal_block (rs s))
        (Some (new_part_set_from_header (parts (p_block_id msg)))))
    else mret tt.

Definition is_precommit (t : signed_msg_type) : bool :=
  match t with
  | MsgPrecommit => true
  | _ => false
  end.

(** The [Prevote] case of the [switch] in [add_vote]. *)
Definition add_vote_prevote (vote_ : vote) (height : Z) : M unit :=
  s1 ← get;
  votes ← access (rs_votes (rs s1));
  let prevotes_ := prevotes votes (v_round vote_) in
  let block_id_ := two_thirds_majority prevotes_ in
  match block_id_ with
  | Some bid =>
      match rs_locked_block (rs s1) with
      | Some lb =>
          if (rs_locked_round (rs s1) <? v_round vote_)
             && (v_round vote_ <=? rs_round (rs s1))
             && negb (hashes_to lb (hash bid))
          then modify_rs (set_locked (-1) None None)
          else mret tt
      | None => mret tt
      end;;
      if negb (bytes_empty (hash bid)) && (rs_valid_round (rs s1) <? v_round vote_)
         && (v_round vote_ =? rs_round (rs s1))
      then
        pb ← access (rs_proposal_block (rs s1));
        (if hashes_to pb (hash bid) then
           modify_rs (set_valid (v_round vote_) (rs_proposal_block (rs s1))
                        (rs_proposal_block_parts (rs s1)))
         else
           modify_rs (set_proposal_block None (rs_proposal_block_parts (rs s1))));;
        pbp ← access (rs_proposal_block_parts (rs s1));
        if negb (has_header pbp (parts bid)) then
          modify_rs (fun r => set_proposal_block (rs_proposal_block r)
            (Some (new_part_set_from_header (parts bid))) r)
        else mret tt
      else mret tt
  | None => mret tt
  end;;
  s3 ← get;
  if (rs_round (rs s3) <? v_round vote_) && has_two_thirds_any prevotes_
  then enter_new_round height (v_round vote_)
  else if (rs_round (rs s3) =? v_round vote_) && step_le Prevote (rs_step (rs s3)) then
    go ← match block_id_ with
         | Some b_id =>
             complete ← is_proposal_complete;
             mret (complete || bytes_empty (hash b_id))
         | None => mret false
         end;
    if go : bool then enter_precommit height (v_round vote_)
    else if has_two_thirds_any prevotes_ then enter_prevote_wait height (v_round vote_)
    else mret tt
  else
    match rs_proposal (rs s3) with
    | Some p =>
        if (0 <=? p_pol_round p) && (p_pol_round p =? v_round vote_) then
          complete ← is_proposal_complete;
          if complete : bool then enter_prevote height (rs_round (rs s3)) else mret tt
        else mret tt
    | None => mret tt
    end.

(** The [Precommit] case of the [switch] in [add_vote]. *)
Definition add_vote_precommit (vote_ : vote) (height : Z) : M unit :=
  s1 ← get;
  votes ← access (rs_votes (rs s1));
  let precommits_ := precommits votes (v_round vote_) in
  match two_thirds_majority precommits_ with
  | Some bid =>
      enter_new_round height (v_round vote_);;
      enter_precommit height (v_round vote_);;
      if negb (bytes_empty (hash bid)) then
        enter_commit height (v_round vote_);;
        if skip_timeout_commit (cs_config s1) && has_all precommits_ then
          s2 ← get; enter_new_round (rs_height (rs s2)) 0
        else mret tt
      else enter_precommit_wait height (v_round vote_)
  | None =>
      if (rs_round (rs s1) <=? v_round vote_) && has_two_thirds_any precommits_ then
        enter_new_round height (v_round vote_);;
        enter_precommit_wait height (v_round vote_)
      else mret tt
  end.

Definition add_vote (vote_ : vote) (peer_id : string) : M bool :=
  s ← get;
  if (v_height vote_ + 1 =? rs_height (rs s)) && is_precommit (v_type vote_) then
    if negb (step_eqb (rs_step (rs s)) NewHeight) then mret false
    else
      last_commit ← access (rs_last_commit (rs s));
      let r := vs_add_vote vote_ last_commit in
      modify_rs (set_last_commit (Some (snd r)));;
      if negb (fst r) then mret false
      else
        (if skip_timeout_commit (cs_config s) && has_all (snd r) then
           s' ← get; enter_new_round (rs_height (rs s')) 0
         else mret tt);;
        mret false
  else if negb (v_height vote_ =? rs_height (rs s)) then mret false
  else
    let height := rs_height (rs s) in
    votes ← access (rs_votes (rs s));
    let r := hvs_add_vote vote_ peer_id votes in
    modify_rs (set_votes (Some (snd r)));;
    if negb (fst r) then mret false
    else
      match v_type vote_ with
      | MsgPrevote => add_vote_prevote vote_ height
      | MsgPrecommit => add_vote_precommit vote_ height
      | _ => mthrow "unexpected vote type"
      end;;
      mret (fst r).

Definition try_add_vote (msg : vote) (peer_id : string) : M bool :=
  add_vote msg peer_id.

(** The test that opens [handle_timeout]: the timeout is not for the
    current height, round and step. *)
Definition timeout_ignored (ti : timeout_info) (r : round_state) : bool :=
  negb (ti_height ti =? rs_height r) || (ti_round ti <? rs_round r)
  || ((ti_round ti =? rs_round r) && (ti_step ti <? step_code (rs_step r))).

(** The [switch] of [handle_timeout]. *)
Definition timeout_dispatch (ti : timeout_info) : M unit :=
  match step_of_code (ti_step ti) with
  | Some NewHeight => enter_new_round (ti_height ti) 0
  | Some NewRound => enter_propose (ti_height ti) 0
  | Some Propose => enter_prevote (ti_height ti) (ti_round ti)
  | Some PrevoteWait => enter_precommit (ti_height ti) (ti_round ti)
  | Some PrecommitWait =>
      enter_precommit (ti_height ti) (ti_round ti);;
      enter_new_round (ti_height ti) (ti_round ti + 1)
  | _ => mthrow "invalid timeout step"
  end.

Definition handle_timeout (ti : timeout_info) : M unit :=
  s ← get;
  if timeout_ignored ti (rs s) then mret tt
  else timeout_dispatch ti.

Definition tock (ti : timeout_info) : M unit :=
  handle_timeout ti.

(** ** Notions used in the statements *)

(** [a < b] in the lexicographic order on (height, round, step). *)
Definition ti_lt (a b : timeout_info) : Prop :=
  ti_height a < ti_height b
  \/ (ti_height a = ti_height b
      /\ (ti_round a < ti_round b
          \/ (ti_round a = ti_round b /\ ti_step a < ti_step b))).

(** [ti] is strictly behind the height, round and step of [r]. *)
Definition ti_behind (ti : timeout_info) (r : round_state) : Prop :=
  ti_height ti < rs_height r
  \/ (ti_height ti = rs_height r
      /\ (ti_round ti < rs_round r
          \/ (ti_round ti = rs_round r /\ ti_step ti < step_code (rs_step r)))).

(** The state after [update_round_step(round, step); new_step()]. *)
Definition stepped (round : Z) (step : round_step_type) (s : consensus_state)
  : consensus_state :=
  with_n_steps (S (n_steps s)) (with_rs (set_round_step round step (rs s)) s).

(** What [vote_time()] returns in state [s]. *)
Definition vote_time_of (s : consensus_state) : Z :=
  let min_vote_time :=
    match rs_locked_block (rs s) with
    | Some b => header_time b + 1
    | None =>
        match rs_proposal_block (rs s) with
        | Some b => header_time b + 1
        | None => now s
        end
    end in
  if min_vote_time <? now s then now s else min_vote_time.

(** What [sign_add_vote(msg_type, hash, header)] publishes in state [s]:
    one vote when the node has a private validator with a key whose address
    is in the validator set, nothing otherwise. *)
Definition signed_votes (msg_type : signed_msg_type) (hash_ : bytes)
  (header_ : part_set_header) (s : consensus_state) : list internal_msg :=
  match local_priv_validator s, rs_validators (rs s) with
  | Some _, Some vals =>
      let addr := address (local_priv_validator_pub_key s) in
      if negb (bytes_empty (local_priv_validator_pub_key s))
         && has_address vals addr && (0 <=? get_index_by_address vals addr)
      then [PublishedVote
              {| v_type := msg_type; v_height := rs_height (rs s);
                 v_round := rs_round (rs s);
                 v_block_id := {| hash := hash_; parts := header_ |};
                 v_timestamp := vote_time_of s; v_validator_address := addr;
                 v_validator_index := get_index_by_address vals addr |}]
      else []
  | _, _ => []
  end.

Definition voted (msg_type : signed_msg_type) (hash_ : bytes)
  (header_ : part_set_header) (s : consensus_state) : consensus_state :=
  with_published (signed_votes msg_type hash_ header_ s) s.

(** The state after the first statements of the scope exit of
    [enter_commit]: [update_round_step(round, Commit)],
    [rs.commit_round = round], [rs.commit_time = get_time()],
    [new_step()]. *)
Definition committed (round : Z) (s : consensus_state) : consensus_state :=
  with_n_steps (S (n_steps s))
    (with_rs (set_commit round (now s) (set_round_step round Commit (rs s))) s).

(** None of the three consistency checks of [update_to_state] throws and a
    last commit can be formed. *)
Definition update_to_state_checks (state_ : state) (s : consensus_state) : bool :=
  let r := rs s in
  let ls := local_state s in
  negb ((-1 <? rs_commit_round r) && (0 <? rs_height r)
        && negb (rs_height r =? last_block_height state_))
  && (is_empty ls
      || (negb ((0 <? last_block_height ls)
                && negb (last_block_height ls + 1 =? rs_height r))
          && negb ((0 <? last_block_height ls)
                   && (rs_height r =? initial_height ls))))
  && ((last_block_height state_ =? 0)
      || match rs_votes r with
         | Some votes =>
             if -1 <? rs_commit_round r
             then has_two_thirds_majority (precommits votes (rs_commit_round r))
             else has_value (rs_last_commit r)
         | None => has_value (rs_last_commit r)
         end).

(** The round state that [update_to_state] leaves when it resets. *)
Definition reset_for (state_ : state) (r : round_state) : Prop :=
  rs_height r = (if last_block_height state_ + 1 =? 1 then initial_height state_
                 else last_block_height state_ + 1)
  /\ rs_round r = 0 /\ rs_step r = NewHeight
  /\ rs_locked_round r = -1 /\ rs_valid_round r = -1 /\ rs_commit_round r = -1
  /\ rs_triggered_timeout_precommit r = false
  /\ rs_proposal r = None /\ rs_proposal_block r = None
  /\ rs_proposal_block_parts r = None
  /\ rs_locked_block r = None /\ rs_locked_block_parts r = None
  /\ rs_valid_block r = None /\ rs_valid_block_parts r = None.

(** The optionals and pointers that the step functions read through are
    set. *)
Definition pointers_set (r : round_state) : Prop :=
  rs_votes r <> None /\ rs_validators r <> None /\ rs_last_commit r <> None
  /\ (rs_locked_block r <> None -> rs_locked_block_parts r <> None)
  /\ (rs_proposal_block r <> None -> rs_proposal_block_parts r <> None)
  /\ (rs_valid_block r <> None -> rs_valid_block_parts r <> None).

(** The states the engine gets to from [s0] by the events it reacts to: a
    vote, a proposal, a timeout, each handled to its return. *)
Inductive reaches (s0 : consensus_state) : consensus_state -> Prop :=
| reaches_start : reaches s0 s0
| reaches_vote (s s' : consensus_state) (msg : vote) (peer_id : string) (added : bool) :
    reaches s0 s -> try_add_vote msg peer_id s = Ok added s' -> reaches s0 s'
| reaches_proposal (s s' : consensus_state) (msg : proposal_message) :
    reaches s0 s -> set_proposal msg s = Ok tt s' -> reaches s0 s'
| reaches_timeout (s s' : consensus_state) (ti : timeout_info) :
    reaches s0 s -> handle_timeout ti s = Ok tt s' -> reaches s0 s'.

(** ** Construction and the accessors *)

Definition with_config (c : consensus_config) (s : consensus_state) : consensus_state :=
  {| cs_config := c; rs := rs s; local_state := local_state s;
     local_priv_validator := local_priv_validator s;
     local_priv_validator_pub_key := local_priv_validator_pub_key s;
     old_ti := old_ti s; timer := timer s; internal_mq := internal_mq s;
     n_steps := n_steps s; now := now s |}.

Definition with_priv_validator (pv : option priv_validator) (s : consensus_state)
  : consensus_state :=
  {| cs_config := cs_config s; rs := rs s; local_state := local_state s;
     local_priv_validator := pv;
     local_priv_validator_pub_key := local_priv_validator_pub_key s;
     old_ti := old_ti s; timer := timer s; internal_mq := internal_mq s;
     n_steps := n_steps s; now := now s |}.

(** The body of [reconstruct_last_commit] is still to be written: it
    does nothing. *)
Definition reconstruct_last_commit (state_ : state) : M unit :=
  mret tt.

(** [new_state(cs_config_, state_)], as it acts on the object that
    [std::make_unique<consensus_state>()] has constructed. *)
Definition new_state (cs_config_ : consensus_config) (state_ : state) : M unit :=
  modify (with_config cs_config_);;
  (if 0 <? last_block_height state_ then reconstruct_last_commit state_ else mret tt);;
  update_to_state state_.

Definition get_state : M state :=
  s ← get; mret (local_state s).

Definition get_last_height : M Z :=
  s ← get; mret (rs_height (rs s) - 1).

Definition get_round_state : M round_state :=
  s ← get; mret (rs s).

(** [local_priv_validator_type] is assigned here and read only to choose
    a timeout that [update_priv_validator_pub_key] does not use. *)
Definition set_priv_validator (priv : priv_validator) : M unit :=
  modify (with_priv_validator (Some priv));;
  update_priv_validator_pub_key.

(** [r'] is at the height of [r] and not before it in the order on
    (round, step). *)
Definition rs_le (r r' : round_state) : Prop :=
  rs_height r' = rs_height r
  /\ (rs_round r < rs_round r'
      \/ (rs_round r = rs_round r'
          /\ step_code (rs_step r) <= step_code (rs_step r'))).

(** [s'] is at the height of [s], with the local state of [s]. *)
Definition keeps_height (s s' : consensus_state) : Prop :=
  rs_height (rs s') = rs_height (rs s) /\ local_state s' = local_state s.

(** [a <= b] in the lexicographic order on (height, round, step). *)
Definition ti_le (a b : timeout_info) : Prop :=
  ti_height a < ti_height b
  \/ (ti_height a = ti_height b
      /\ (ti_round a < ti_round b
          \/ (ti_round a = ti_round b /\ ti_step a <= ti_step b))).

End Machine.

Arguments Ok {BO VO VT A} a s.
Arguments Throw {BO VO VT A} what s.
Arguments EmptyAccess {BO VO VT A}.

(** ** Block parts and the messages of the peers *)

(** [p2p::block_part_message]: the fields that are read. *)
Record block_part_message := {
  bp_height : Z;
  bp_round : Z;
  bp_index : Z;
  bp_bytes_ : bytes
}.

(** What a [msg_info] carries. *)
Inductive net_msg :=
| ProposalMessage (msg : proposal_message)
| BlockPartMessage (msg : block_part_message)
| VoteMessage (msg : vote).

(** The operations on part sets and block ids that
    [add_proposal_block_part] calls ([block.h] and the [p2p] types, not
    among the sources).  [add_part] mutates the part set; here it returns
    the new one. *)
Class PartOps `{BlockOps} := {
  add_part : Z -> bytes -> part_set -> bool * part_set;
  byte_size : part_set -> Z;
  is_complete : part_set -> bool;
  is_zero : block_id -> bool
}.

Section Parts.

Context `{BO : BlockOps} `{VO : ValidatorOps} `{VT : !VoteOps} `{SO : !StateOps}.
Context `{PO : !PartOps}.

(** [state_.consensus_params.block.max_bytes]. *)
Class ParamOps := {
  max_bytes : state -> Z
}.

Context `{PA : ParamOps}.

Definition set_proposal_block_parts (ps : option part_set) (r : round_state) : round_state :=
  set_proposal_block (rs_proposal_block r) ps r.

(** The block is not yet derived from the complete part set (the
    assignment to [rs.proposal_block] is still to be written).  The log
    line that follows it formats [rs.proposal_block->header.height]; it is
    taken to evaluate its argument, which reads through the optional. *)
Definition add_proposal_block_part (msg : block_part_message) (peer_id : string) : M bool :=
  s ← get;
  let height_ := bp_height msg in
  let round_ := bp_round msg in
  if negb (rs_height (rs s) =? height_) then mret false
  else
    match rs_proposal_block_parts (rs s) with
    | None => mret false
    | Some pbp =>
        let r := add_part (bp_index msg) (bp_bytes_ msg) pbp in
        let added := fst r in
        modify_rs (set_proposal_block_parts (Some (snd r)));;
        if max_bytes (local_state s) <? byte_size (snd r) then mret added
        else if added && is_complete (snd r) then
          _ ← access (rs_proposal_block (rs s));
          votes ← access (rs_votes (rs s));
          let prevotes_ := prevotes votes (rs_round (rs s)) in
          let block_id_ := two_thirds_majority prevotes_ in
          match block_id_ with
          | Some bid =>
              if negb (is_zero bid) && (rs_valid_round (rs s) <? rs_round (rs s)) then
                pb ← access (rs_proposal_block (rs s));
                if hashes_to pb (hash bid) then
                  modify_rs (set_valid (rs_round (rs s)) (rs_proposal_block (rs s))
                               (Some (snd r)))
                else mret tt
              else mret tt
          | None => mret tt
          end;;
          (if step_le (rs_step (rs s)) Propose then
             complete ← is_proposal_complete;
             if complete : bool then
               enter_prevote height_ (rs_round (rs s));;
               if has_value block_id_ then
                 (s' ← get; enter_precommit height_ (rs_round (rs s')))
               else mret tt
             else mret tt
           else if step_eqb (rs_step (rs s)) Commit then try_finalize_commit height_
           else mret tt);;
          mret added
        else mret added
    end.

(** [receive_routine(mi)]: the visit of [message_handler] over the
    message. *)
Definition receive_routine (mi : net_msg) : M unit :=
  match mi with
  | ProposalMessage msg => set_proposal msg
  | BlockPartMessage msg =>
      _ ← add_proposal_block_part msg EmptyString; mret tt
  | VoteMessage msg =>
      _ ← try_add_vote msg EmptyString; mret tt
  end.

End Parts.

End Consensus.

(** * The state store [db_store] *)

Module StateStore.
Import Consensus.

(** ** Keys *)

(** [enum class prefix : char]. *)
Inductive prefix :=
| prefix_validators
| prefix_consensus_params
| prefix_abci_response
| prefix_state.

Definition prefix_char (p : prefix) : ascii :=
  match p with
  | prefix_validators => ascii_of_nat 5
  | prefix_consensus_params => ascii_of_nat 6
  | prefix_abci_response => ascii_of_nat 7
  | prefix_state => ascii_of_nat 8
  end.

Definition val_set_checkpoint_interval : Z := 100000.

Definition hex_digit (d : N) : ascii :=
  match d with
  | 0 => "0" | 1 => "1" | 2 => "2" | 3 => "3"
  | 4 => "4" | 5 => "5" | 6 => "6" | 7 => "7"
  | 8 => "8" | 9 => "9" | 10 => "a" | 11 => "b"
  | 12 => "c" | 13 => "d" | 14 => "e" | _ => "f"
  end%N%char.

(** The digits of [n] in base 16, most significant first, at least one;
    [fuel] bounds the number of digits. *)
Fixpoint hex_of_N_fuel (fuel : nat) (n : N) : string :=
  match fuel with
  | O => EmptyString
  | S f =>
      if (n <? 16)%N then String (hex_digit n) EmptyString
      else hex_of_N_fuel f (n / 16) ++ String (hex_digit (n mod 16)) EmptyString
  end.

Definition hex_of_N (n : N) : string :=
  hex_of_N_fuel (S (N.to_nat (N.log2 n))) n.

Fixpoint zeros (k : nat) : string :=
  match k with
  | O => EmptyString
  | S k' => String "0" (zeros k')
  end.

(** [s], filled on the left with ["0"] up to [width] characters. *)
Definition zero_pad (width : nat) (s : string) : string :=
  zeros (width - String.length s) ++ s.

(** [fmt::format("{:08x}", height)] for a signed integer: lower-case
    hexadecimal digits of the magnitude, a minus sign for a negative value,
    zeros between the sign and the digits up to a width of 8. *)
Definition fmt_08x (height : Z) : string :=
  if height <? 0 then String "-" (zero_pad 7 (hex_of_N (Z.abs_N height)))
  else zero_pad 8 (hex_of_N (Z.to_N height)).

Definition encode_key (key_prefix : prefix) (height : Z) : bytes :=
  String (prefix_char key_prefix) (fmt_08x height).

(** Reading hexadecimal digits back, most significant first. *)
Definition hex_digit_value (c : ascii) : N :=
  match c with
  | "0" => 0 | "1" => 1 | "2" => 2 | "3" => 3
  | "4" => 4 | "5" => 5 | "6" => 6 | "7" => 7
  | "8" => 8 | "9" => 9 | "a" => 10 | "b" => 11
  | "c" => 12 | "d" => 13 | "e" => 14 | "f" => 15
  | _ => 0
  end%char%N.

Fixpoint hex_value_from (acc : N) (s : string) : N :=
  match s with
  | EmptyString => acc
  | String c s' => hex_value_from (16 * acc + hex_digit_value c) s'
  end.

Definition hex_value (s : string) : N := hex_value_from 0 s.

(** [static_cast<int32_t>] of a 64-bit value. *)
Definition to_int32 (z : Z) : Z :=
  (z + 2 ^ 31) mod 2 ^ 32 - 2 ^ 31.

Section Store.

Context `{VO : ValidatorOps}.

Record validators_info := {
  last_height_changed : Z;
  v_set : option validator_set
}.

(** [noir::codec::scale] is not among the sources.  A written record is
    read back as it was written, and its encoding is not the empty
    buffer (the store reads an empty buffer as a missing record). *)
Class Codec := {
  buffer : Type;
  buffer_empty : buffer -> bool;
  encode : validators_info -> buffer;
  decode : buffer -> validators_info;
  decode_encode : forall v, decode (encode v) = v;
  encode_not_empty : forall v, buffer_empty (encode v) = false
}.

Context `{CD : Codec}.

(** Modelled from the spec: [simple_db] and its batches ([db.h]) are not
    among the sources; the spec treats the store as a key-value
    collaborator.  [get] finds what was last set under the key, a batch
    collects its [set] calls in order, each accepted, and [write_sync]
    applies them. *)
Definition batch : Type := list (bytes * buffer).

Definition batch_set (k : bytes) (v : buffer) (b : batch) : bool * batch :=
  (true, (b ++ [(k, v)])%list).

Definition write_sync (b : batch) (db_ : gmap bytes buffer) : bool * gmap bytes buffer :=
  (true, fold_left (fun m kv => <[fst kv := snd kv]> m) b db_).

Definition save_validators_info (height last_height_changed_ : Z) (v_set_ : validator_set)
  (b : batch) : bool * batch :=
  if height <? last_height_changed_ then (false, b)
  else
    let v_info :=
      {| last_height_changed := last_height_changed_;
         v_set := if (height =? last_height_changed_)
                     || (Z.rem height val_set_checkpoint_interval =? 0)
                  then Some v_set_ else None |} in
    batch_set (encode_key prefix_validators height) (encode v_info) b.

Definition load_validators_info (height : Z) (db_ : gmap bytes buffer)
  : option validators_info :=
  match db_ !! encode_key prefix_validators height with
  | None => None
  | Some buf => if buffer_empty buf then None else Some (decode buf)
  end.

Definition last_stored_height_for (height last_height_changed_ : Z) : Z :=
  let checkpoint_height := height - Z.rem height val_set_checkpoint_interval in
  Z.max checkpoint_height last_height_changed_.

(** [None] is the [false] of the source; [Some] carries what it leaves
    in [v_set]. *)
Definition load_validators (height : Z) (db_ : gmap bytes buffer) : option validator_set :=
  match load_validators_info height db_ with
  | None => None
  | Some v_info =>
      match v_set v_info with
      | Some vs => Some vs
      | None =>
          let last_stored_height :=
            last_stored_height_for height (last_height_changed v_info) in
          match load_validators_info last_stored_height db_ with
          | None => None
          | Some v_info2 =>
              match v_set v_info2 with
              | None => None
              | Some vs =>
                  Some (increment_proposer_priority
                          (to_int32 (height - last_height_changed v_info2)) vs)
              end
          end
      end
  end.

(** The loop of [save_validator_sets], [n] heights from [height] on. *)
Fixpoint save_validator_sets_loop (n : nat) (height lower_height : Z)
  (v_set_ : validator_set) (b : batch) : bool * batch :=
  match n with
  | O => (true, b)
  | S n' =>
      let r := save_validators_info height lower_height v_set_ b in
      if fst r then save_validator_sets_loop n' (height + 1) lower_height v_set_ (snd r)
      else (false, snd r)
  end.

Definition save_validator_sets (lower_height upper_height : Z) (v_set_ : validator_set)
  (db_ : gmap bytes buffer) : bool * gmap bytes buffer :=
  let r := save_validator_sets_loop (Z.to_nat (upper_height - lower_height + 1))
             lower_height lower_height v_set_ [] in
  if fst r then write_sync (snd r) db_ else (false, db_).

(** ** Notions used in the statements *)



End Store.

(** ** Consensus parameters and the chain state *)

Section Chain.

Context `{VO : ValidatorOps} `{CD : !Codec}.

(** [consensus_params] ([params.h]) is not among the sources. *)
Context {consensus_params : Type}.

Record consensus_params_info := {
  cp_last_height_changed : Z;
  cs_param : option consensus_params
}.

(** The chain [state] ([state.h]): the fields the store reads.  The name
    [state] is taken by the record of the consensus module. *)
Record stored_state := {
  st_initial_height : Z;
  st_last_block_height : Z;
  st_next_validators : validator_set;
  st_validators : validator_set;
  st_last_validators : validator_set;
  st_last_height_validators_changed : Z;
  st_consensus_params : consensus_params;
  st_last_height_consensus_params_changed : Z
}.

(** The codec on the two other records that the store writes, with the
    same laws as [Codec].  [encode_state] and [decode_state] write and read
    the same fields in the same order through the data stream of the codec;
    [decode_state] gives the fields it reads.  [validators_empty] is
    [validators.empty()] on the list of a validator set. *)
Class ChainOps := {
  encode_params : consensus_params_info -> buffer;
  decode_params : buffer -> consensus_params_info;
  decode_encode_params : forall v, decode_params (encode_params v) = v;
  encode_params_not_empty : forall v, buffer_empty (encode_params v) = false;
  encode_state : stored_state -> buffer;
  decode_state : buffer -> stored_state;
  decode_encode_state : forall st, decode_state (encode_state st) = st;
  encode_state_not_empty : forall st, buffer_empty (encode_state st) = false;
  validators_empty : validator_set -> bool
}.

Context `{CO : ChainOps}.

(** [state_key_], the member of [db_store] under which the state is
    kept: the constructor sets it to the codec's encoding of the prefix
    character of the state. *)
Variable state_key_ : bytes.

Definition save_consensus_params_info (next_height change_height : Z)
  (cs_params : consensus_params) (b : batch) : bool * batch :=
  let cs_param_info :=
    {| cp_last_height_changed := change_height;
       cs_param := if change_height =? next_height then Some cs_params else None |} in
  batch_set (encode_key prefix_consensus_params next_height) (encode_params cs_param_info) b.

Definition load_consensus_params_info (height : Z) (db_ : gmap bytes buffer)
  : option consensus_params_info :=
  match db_ !! encode_key prefix_consensus_params height with
  | None => None
  | Some buf => if buffer_empty buf then None else Some (decode_params buf)
  end.

Definition load_consensus_params (height : Z) (db_ : gmap bytes buffer)
  : option consensus_params :=
  match load_consensus_params_info height db_ with
  | None => None
  | Some cs_param_info =>
      match cs_param cs_param_info with
      | Some p => Some p
      | None =>
          match load_consensus_params_info (cp_last_height_changed cs_param_info) db_ with
          | None => None
          | Some cs_param_info2 => cs_param cs_param_info2
          end
      end
  end.

(** A batch that is not written is closed and leaves the store as it
    was. *)
Definition save_internal (st : stored_state) (db_ : gmap bytes buffer)
  : bool * gmap bytes buffer :=
  let first := st_last_block_height st + 1 =? 1 in
  let next_height :=
    if first then st_initial_height st else st_last_block_height st + 1 in
  let r1 :=
    if first then save_validators_info next_height next_height (st_validators st) []
    else (true, []) in
  if negb (fst r1) then (false, db_)
  else
    let r2 := save_validators_info (next_height + 1)
                (st_last_height_validators_changed st) (st_next_validators st) (snd r1) in
    if negb (fst r2) then (false, db_)
    else
      let r3 := save_consensus_params_info next_height
                  (st_last_height_consensus_params_changed st)
                  (st_consensus_params st) (snd r2) in
      if negb (fst r3) then (false, db_)
      else
        let r4 := batch_set state_key_ (encode_state st) (snd r3) in
        if negb (fst r4) then (false, db_)
        else write_sync (snd r4) db_.

Definition save (st : stored_state) (db_ : gmap bytes buffer) : bool * gmap bytes buffer :=
  save_internal st db_.

Definition bootstrap_internal (st : stored_state) (db_ : gmap bytes buffer)
  : bool * gmap bytes buffer :=
  let first := st_last_block_height st + 1 =? 1 in
  let height :=
    if first then st_initial_height st else st_last_block_height st + 1 in
  let r1 :=
    if first then (true, [])
    else if negb (validators_empty (st_last_validators st))
      then save_validators_info height height (st_validators st) []
      else (true, []) in
  if negb (fst r1) then (false, db_)
  else
    let r2 := save_validators_info (height + 1) (height + 1) (st_validators st) (snd r1) in
    if negb (fst r2) then (false, db_)
    else
      let r3 := save_consensus_params_info height
                  (st_last_height_consensus_params_changed st)
                  (st_consensus_params st) (snd r2) in
      if negb (fst r3) then (false, db_)
      else
        let r4 := batch_set state_key_ (encode_state st) (snd r3) in
        if negb (fst r4) then (false, db_)
        else write_sync (snd r4) db_.

Definition bootstrap (st : stored_state) (db_ : gmap bytes buffer)
  : bool * gmap bytes buffer :=
  bootstrap_internal st db_.

(** [None] is the [false] of the source, which then leaves [st] as it
    was. *)
Definition load_internal (db_ : gmap bytes buffer) : option stored_state :=
  match db_ !! state_key_ with
  | None => None
  | Some buf => if buffer_empty buf then None else Some (decode_state buf)
  end.

Definition load (db_ : gmap bytes buffer) : option stored_state :=
  load_internal db_.

End Chain.

End StateStore.

(** * The block pool of block sync *)

Module BlockPool.
Import Consensus.

(** [int32_t] arithmetic. *)
Definition int32 (z : Z) : Z :=
  (z + 2 ^ 31) mod 2 ^ 32 - 2 ^ 31.

(** The calls made on the timer of a peer. *)
Inductive peer_timer_op :=
| PeerTimerCancel
| PeerTimerExpiresFromNow (d : Z).

Section Pool.

(** [consensus::block] ([block.h]) is not among the sources. *)
Context {block : Type}.

(** The global [peer_timeout], which tests may change. *)
Variable peer_timeout : Z.

(** [bp_requester]; [block_] is a shared pointer, null when [None]. *)
Record bp_requester := {
  rq_height : Z;
  rq_redo_ch : string;
  rq_peer_id : string;
  rq_block_ : option block
}.

Definition get_peer_id (r : bp_requester) : string :=
  rq_peer_id r.

Definition set_block (blk_ : option block) (peer_id_ : string) (r : bp_requester)
  : bool * bp_requester :=
  if has_value blk_ || negb (String.eqb (rq_peer_id r) peer_id_) then (false, r)
  else (true, {| rq_height := rq_height r; rq_redo_ch := rq_redo_ch r;
                 rq_peer_id := rq_peer_id r; rq_block_ := blk_ |}).

(** [bp_peer].  [has_pool] says that the pointer [pool] is not null;
    [timeout] is the timer, [None] when the pointer is null, with the calls
    made on it, oldest first. *)
Record bp_peer := {
  did_timeout : bool;
  num_pending : Z;
  peer_height : Z;
  peer_base : Z;
  has_pool : bool;
  peer_id : string;
  timeout : option (list peer_timer_op)
}.

Definition with_did_timeout (b : bool) (p : bp_peer) : bp_peer :=
  {| did_timeout := b; num_pending := num_pending p; peer_height := peer_height p;
     peer_base := peer_base p; has_pool := has_pool p; peer_id := peer_id p;
     timeout := timeout p |}.

Definition with_num_pending (n : Z) (p : bp_peer) : bp_peer :=
  {| did_timeout := did_timeout p; num_pending := n; peer_height := peer_height p;
     peer_base := peer_base p; has_pool := has_pool p; peer_id := peer_id p;
     timeout := timeout p |}.

Definition with_timer_op (op : peer_timer_op) (p : bp_peer) : bp_peer :=
  {| did_timeout := did_timeout p; num_pending := num_pending p;
     peer_height := peer_height p; peer_base := peer_base p; has_pool := has_pool p;
     peer_id := peer_id p;
     timeout := match timeout p with
                | Some ops => Some (ops ++ [op])%list
                | None => None
                end |}.

(** [on_timeout] locks [pool->mtx] and calls [pool->send_error], whose
    body is empty; [None] is the read through a null [pool]. *)
Definition on_timeout (p : bp_peer) : option bp_peer :=
  if has_pool p then Some (with_did_timeout true p) else None.

Definition reset_timeout (p : bp_peer) : bp_peer :=
  with_timer_op (PeerTimerExpiresFromNow peer_timeout) p.

Definition incr_pending (p : bp_peer) : bp_peer :=
  let p1 := if num_pending p =? 0 then reset_timeout p else p in
  with_num_pending (int32 (num_pending p1 + 1)) p1.

Definition decr_pending (recv_size : Z) (p : bp_peer) : option bp_peer :=
  let p1 := with_num_pending (int32 (num_pending p - 1)) p in
  if num_pending p1 =? 0 then on_timeout (with_timer_op PeerTimerCancel p1)
  else Some (reset_timeout p1).

End Pool.

End BlockPool.

(** * Small executable collaborators

    Implementations of the interfaces, used to run the embedded functions
    on concrete states.  Four validators of power 1 are what the scenarios
    of the spec use; here every validator has power 1. *)

Module Sim.
Import Consensus StateStore.

Definition part_set_header_eqb (a b : part_set_header) : bool :=
  (psh_total a =? psh_total b) && String.eqb (psh_hash a) (psh_hash b).

Definition block_id_eqb (a b : block_id) : bool :=
  String.eqb (hash a) (hash b) && part_set_header_eqb (parts a) (parts b).

Definition msg_type_eqb (a b : signed_msg_type) : bool :=
  match a, b with
  | MsgUnknown, MsgUnknown => true
  | MsgPrevote, MsgPrevote => true
  | MsgPrecommit, MsgPrecommit => true
  | MsgProposal, MsgProposal => true
  | _, _ => false
  end.

Record sim_block := {
  sb_hash : bytes;
  sb_time : Z
}.

(** Modelled from the spec: a part set is its header [(total, hash)] and
    the parts received so far; [new_from_header] creates an empty set
    awaiting [total] parts. *)
Record sim_part_set := {
  sps_header : part_set_header;
  sps_parts : list bytes
}.

Definition sim_blocks : BlockOps :=
  {| block := sim_block;
     get_hash := sb_hash;
     hashes_to := fun b h => negb (bytes_empty h) && String.eqb (sb_hash b) h;
     header_time := sb_time;
     part_set := sim_part_set;
     header := sps_header;
     has_header := fun ps h => part_set_header_eqb (sps_header ps) h;
     new_part_set_from_header := fun h => {| sps_header := h; sps_parts := [] |};
     total := fun ps => psh_total (sps_header ps) |}.

(** A validator set is the addresses of its members, each of power 1,
    together with the increments of proposer priority applied to it, most
    recent first. *)
Record sim_validator_set := {
  members : list bytes;
  shifts : list Z
}.

Fixpoint index_of (a : bytes) (l : list bytes) (i : Z) : Z :=
  match l with
  | [] => -1
  | x :: l' => if String.eqb x a then i else index_of a l' (i + 1)
  end.

Definition sim_validators : ValidatorOps :=
  {| validator_set := sim_validator_set;
     increment_proposer_priority := fun n vs =>
       {| members := members vs; shifts := n :: shifts vs |};
     has_address := fun vs a => existsb (String.eqb a) (members vs);
     get_proposer_address := fun vs =>
       nth (Z.to_nat (fold_right Z.add 0 (shifts vs)
                        mod Z.of_nat (List.length (members vs))))
           (members vs) EmptyString;
     get_index_by_address := fun vs a => index_of a (members vs) 0;
     address := fun k => k |}.

(** Modelled from the spec: a vote set is indexed by (height, round,
    type), holds at most one vote per validator, and has a two-thirds
    majority for a block id when the validators that voted for it hold more
    than 2/3 of the total power. *)
Record sim_vote_set := {
  svs_height : Z;
  svs_round : Z;
  svs_type : signed_msg_type;
  svs_size : Z;
  svs_votes : list vote
}.

Definition sim_vs_add_vote (v : vote) (vs : sim_vote_set) : bool * sim_vote_set :=
  if (v_height v =? svs_height vs) && (v_round v =? svs_round vs)
     && msg_type_eqb (v_type v) (svs_type vs)
     && (0 <=? v_validator_index v) && (v_validator_index v <? svs_size vs)
     && negb (existsb (fun w => v_validator_index w =? v_validator_index v) (svs_votes vs))
  then (true, {| svs_height := svs_height vs; svs_round := svs_round vs;
                 svs_type := svs_type vs; svs_size := svs_size vs;
                 svs_votes := svs_votes vs ++ [v] |})
  else (false, vs).

Definition sim_count (bid : block_id) (vs : sim_vote_set) : Z :=
  Z.of_nat (List.length (filter (fun w => block_id_eqb (v_block_id w) bid) (svs_votes vs))).

Definition sim_two_thirds_majority (vs : sim_vote_set) : option block_id :=
  find (fun bid => 2 * svs_size vs <? 3 * sim_count bid vs) (map v_block_id (svs_votes vs)).

Definition sim_has_two_thirds_any (vs : sim_vote_set) : bool :=
  2 * svs_size vs <? 3 * Z.of_nat (List.length (svs_votes vs)).

Definition sim_has_all (vs : sim_vote_set) : bool :=
  Z.of_nat (List.length (svs_votes vs)) =? svs_size vs.

(** Modelled from the spec: the height vote set owns the prevotes and the
    precommits of every round of its height; [pol_info] is the highest
    round, up to the one given to [set_round], at which the prevotes have a
    two-thirds majority for a non-nil block id, and -1 without one. *)
Record sim_height_vote_set := {
  shvs_height : Z;
  shvs_size : Z;
  shvs_round : Z;
  shvs_votes : list vote
}.

Definition sim_round_votes (t : signed_msg_type) (h : sim_height_vote_set) (r : Z)
  : sim_vote_set :=
  {| svs_height := shvs_height h; svs_round := r; svs_type := t;
     svs_size := shvs_size h;
     svs_votes := filter (fun w => (v_round w =? r) && msg_type_eqb (v_type w) t)
                    (shvs_votes h) |}.

Definition sim_hvs_add_vote (v : vote) (peer_id : string) (h : sim_height_vote_set)
  : bool * sim_height_vote_set :=
  match v_type v with
  | MsgPrevote | MsgPrecommit =>
      if fst (sim_vs_add_vote v (sim_round_votes (v_type v) h (v_round v)))
      then (true, {| shvs_height := shvs_height h; shvs_size := shvs_size h;
                     shvs_round := shvs_round h;
                     shvs_votes := shvs_votes h ++ [v] |})
      else (false, h)
  | _ => (false, h)
  end.

Definition sim_is_polka (h : sim_height_vote_set) (r : Z) : bool :=
  match sim_two_thirds_majority (sim_round_votes MsgPrevote h r) with
  | Some bid => negb (bytes_empty (hash bid))
  | None => false
  end.

Definition sim_pol_info (h : sim_height_vote_set) : Z :=
  match find (sim_is_polka h)
             (rev (map Z.of_nat (seq 0 (S (Z.to_nat (shvs_round h)))))) with
  | Some r => r
  | None => -1
  end.

Definition sim_new_height_vote_set (chain : string) (height : Z) (vals : sim_validator_set)
  : sim_height_vote_set :=
  {| shvs_height := height;
     shvs_size := Z.of_nat (List.length (members vals));
     shvs_round := 0; shvs_votes := [] |}.

Definition sim_set_round (r : Z) (h : sim_height_vote_set) : sim_height_vote_set :=
  {| shvs_height := shvs_height h; shvs_size := shvs_size h;
     shvs_round := r; shvs_votes := shvs_votes h |}.

Definition sim_votes : @VoteOps sim_validators :=
  @Build_VoteOps sim_validators
    sim_vote_set
    sim_vs_add_vote
    sim_two_thirds_majority
    (fun vs => has_value (sim_two_thirds_majority vs))
    sim_has_two_thirds_any
    sim_has_all
    sim_height_vote_set
    sim_new_height_vote_set
    (sim_round_votes MsgPrevote)
    (sim_round_votes MsgPrecommit)
    sim_set_round
    sim_pol_info
    sim_hvs_add_vote.

(** A state is empty when it has no validators. *)
Definition sim_is_empty (st : @state sim_validators) : bool :=
  match members (validators st : sim_validator_set) with
  | [] => true
  | _ :: _ => false
  end.

Definition sim_states : @StateOps sim_validators :=
  @Build_StateOps sim_validators sim_is_empty.

(** The encoded record is a buffer of one element. *)
Definition sim_codec_decode (b : list (@validators_info sim_validators))
  : @validators_info sim_validators :=
  match b with
  | v :: _ => v
  | [] => {| last_height_changed := 0; v_set := None |}
  end.

Definition sim_codec_empty (b : list (@validators_info sim_validators)) : bool :=
  match b with
  | [] => true
  | _ :: _ => false
  end.

Definition sim_codec : @Codec sim_validators :=
  {| buffer := list (@validators_info sim_validators);
     buffer_empty := sim_codec_empty;
     encode := fun v => [v];
     decode := sim_codec_decode;
     decode_encode := fun v => eq_refl;
     encode_not_empty := fun v => eq_refl |}.

(** ** Concrete states *)

#[local] Existing Instances sim_blocks sim_validators sim_votes sim_states sim_codec.

Definition four_validators : sim_validator_set :=
  {| members := ["A"; "B"; "C"; "D"]; shifts := [] |}.

Definition no_validators : sim_validator_set :=
  {| members := []; shifts := [] |}.

Definition genesis : state :=
  {| chain_id := "noir"; initial_height := 1; last_block_height := 0;
     validators := four_validators; last_validators := no_validators |}.

Definition empty_state : state :=
  {| chain_id := EmptyString; initial_height := 0; last_block_height := 0;
     validators := no_validators; last_validators := no_validators |}.

Definition config0 : consensus_config :=
  {| timeout_propose := 3000; timeout_propose_delta := 500;
     timeout_prevote := 1000; timeout_prevote_delta := 500;
     timeout_precommit := 1000; timeout_precommit_delta := 500;
     timeout_commit := 1000; skip_timeout_commit := false |}.

Definition blank_round_state : round_state :=
  {| rs_height := 0; rs_round := 0; rs_step := NewHeight;
     rs_start_time := 0; rs_commit_time := 0;
     rs_validators := None; rs_proposal := None;
     rs_proposal_block := None; rs_proposal_block_parts := None;
     rs_locked_round := -1; rs_locked_block := None; rs_locked_block_parts := None;
     rs_valid_round := -1; rs_valid_block := None; rs_valid_block_parts := None;
     rs_votes := None; rs_commit_round := -1; rs_last_commit := None;
     rs_last_validators := None; rs_triggered_timeout_precommit := false |}.

(** The engine of validator "A" as the constructor and
    [set_priv_validator] leave it. *)
Definition constructed : consensus_state :=
  {| cs_config := config0; rs := blank_round_state; local_state := empty_state;
     local_priv_validator := Some {| get_pub_key := "A" |};
     local_priv_validator_pub_key := "A";
     old_ti := timeout_info_zero; timer := []; internal_mq := [];
     n_steps := 0; now := 1000 |}.

(** The state in which [m] leaves [s]. *)
Definition after {A : Type} (m : M A) (s : consensus_state) : consensus_state :=
  match m s with
  | Ok _ s' => s'
  | Throw _ s' => s'
  | EmptyAccess => s
  end.

(** [new_state]: height 1, round 0, step NewHeight. *)
Definition at_genesis : consensus_state := after (update_to_state genesis) constructed.

Definition id_B : block_id :=
  {| hash := "B"; parts := {| psh_total := 1; psh_hash := "PB" |} |}.
Definition id_L : block_id :=
  {| hash := "L"; parts := {| psh_total := 1; psh_hash := "PL" |} |}.
Definition id_P : block_id :=
  {| hash := "P"; parts := {| psh_total := 2; psh_hash := "PP" |} |}.
Definition id_X : block_id :=
  {| hash := "X"; parts := {| psh_total := 3; psh_hash := "PX" |} |}.

Definition block_L : sim_block := {| sb_hash := "L"; sb_time := 900 |}.
Definition block_P : sim_block := {| sb_hash := "P"; sb_time := 950 |}.

Definition parts_L : sim_part_set :=
  {| sps_header := parts id_L; sps_parts := ["l0"] |}.
Definition parts_P : sim_part_set :=
  {| sps_header := parts id_P; sps_parts := ["p0"; "p1"] |}.
(** The part set of X with one of its three parts received. *)
Definition parts_X : sim_part_set :=
  {| sps_header := parts id_X; sps_parts := ["x0"] |}.

(** The vote of validator number [idx]. *)
Definition vote_of (t : signed_msg_type) (height round : Z) (idx : nat) (bid : block_id)
  : vote :=
  {| v_type := t; v_height := height; v_round := round; v_block_id := bid;
     v_timestamp := 1000; v_validator_address := nth idx (members four_validators) EmptyString;
     v_validator_index := Z.of_nat idx |}.

Definition three (t : signed_msg_type) (round : Z) (bid : block_id) : list vote :=
  [vote_of t 1 round 0 bid; vote_of t 1 round 1 bid; vote_of t 1 round 2 bid].

(** The votes of height 1 after [l] has been added and [set_round(round)]
    called. *)
Definition votes_with (round : Z) (l : list vote) : sim_height_vote_set :=
  sim_set_round round
    (fold_left (fun h v => snd (sim_hvs_add_vote v EmptyString h)) l
       (sim_new_height_vote_set "noir" 1 four_validators)).

Definition ti_of (h r : Z) (st : round_step_type) : timeout_info :=
  {| duration_ := 0; ti_height := h; ti_round := r; ti_step := step_code st |}.

(** Round 1, step Prevote, locked on L since round 0, with the proposal
    block P and the part set [pbp], and the votes [hv]. *)
Definition locked_round_state (hv : sim_height_vote_set) (pbp : sim_part_set)
  : round_state :=
  set_locked 0 (Some block_L) (Some parts_L)
    (set_proposal_block (Some block_P) (Some pbp)
       (set_votes (Some hv) (set_round_step 1 Prevote (rs at_genesis)))).

Definition polka_for_proposal : consensus_state :=
  with_rs (locked_round_state (votes_with 2 (three MsgPrevote 1 id_P)) parts_P) at_genesis.

Definition polka_for_unknown : consensus_state :=
  with_rs (locked_round_state (votes_with 2 (three MsgPrevote 1 id_X)) parts_X) at_genesis.

(** Step Precommit with three precommits for nil. *)
Definition nil_precommits : consensus_state :=
  with_rs (set_round_step 1 Precommit
             (locked_round_state (votes_with 2 (three MsgPrecommit 1 block_id_nil)) parts_P))
    at_genesis.

(** Step Commit of round 1 with three precommits for P. *)
Definition committing : consensus_state :=
  with_rs (set_commit 1 1000
             (set_round_step 1 Commit
                (locked_round_state (votes_with 2 (three MsgPrecommit 1 id_P)) parts_P)))
    at_genesis.

Definition state_1 : state :=
  {| chain_id := "noir"; initial_height := 1; last_block_height := 1;
     validators := four_validators; last_validators := four_validators |}.

Definition at_height_2 : consensus_state := after (update_to_state state_1) committing.

(** From the start of height 1: the timeouts NewHeight and Propose. *)
Definition proposing : consensus_state :=
  after (handle_timeout (ti_of 1 0 NewHeight)) at_genesis.
Definition prevoting : consensus_state :=
  after (handle_timeout (ti_of 1 0 Propose)) proposing.

(** Then two prevotes, or two precommits, for nil. *)
Definition two_prevotes : consensus_state :=
  after (try_add_vote (vote_of MsgPrevote 1 0 1 block_id_nil) EmptyString)
    (after (try_add_vote (vote_of MsgPrevote 1 0 0 block_id_nil) EmptyString) prevoting).
Definition two_precommits : consensus_state :=
  after (try_add_vote (vote_of MsgPrecommit 1 0 1 block_id_nil) EmptyString)
    (after (try_add_vote (vote_of MsgPrecommit 1 0 0 block_id_nil) EmptyString) prevoting).

(** The state in which [add_vote] calls [enter_prevote_wait] or
    [enter_precommit_wait] for a third vote [v]: the vote is in [rs.votes]. *)
Definition with_vote (v : vote) (s : consensus_state) : consensus_state :=
  match rs_votes (rs s) with
  | Some votes => with_rs (set_votes (Some (snd (hvs_add_vote v EmptyString votes))) (rs s)) s
  | None => s
  end.

(** From the start of height 1: three prevotes for B in round 1, which
    take the engine to round 1, then two precommits for B in round 1. *)
Definition round_one : consensus_state :=
  after (try_add_vote (vote_of MsgPrevote 1 1 2 id_B) EmptyString)
    (after (try_add_vote (vote_of MsgPrevote 1 1 1 id_B) EmptyString)
       (after (try_add_vote (vote_of MsgPrevote 1 1 0 id_B) EmptyString) at_genesis)).
Definition round_one_precommits : consensus_state :=
  after (try_add_vote (vote_of MsgPrecommit 1 1 1 id_B) EmptyString)
    (after (try_add_vote (vote_of MsgPrecommit 1 1 0 id_B) EmptyString) round_one).

(** From the start of height 1: two precommits for B in round 0; and the
    state in which [add_vote] calls [enter_commit] for the third. *)
Definition round_zero_precommits : consensus_state :=
  after (try_add_vote (vote_of MsgPrecommit 1 0 1 id_B) EmptyString)
    (after (try_add_vote (vote_of MsgPrecommit 1 0 0 id_B) EmptyString) at_genesis).
Definition before_commit : consensus_state :=
  after (enter_precommit 1 0)
    (after (enter_new_round 1 0)
       (with_vote (vote_of MsgPrecommit 1 0 2 id_B) round_zero_precommits)).

(** A proposal for height 1, round 0. *)
Definition first_proposal : proposal_message :=
  {| p_height := 1; p_round := 0; p_pol_round := -1; p_block_id := id_B;
     p_timestamp := 1000 |}.
Definition other_proposal : proposal_message :=
  {| p_height := 1; p_round := 0; p_pol_round := -1; p_block_id := id_P;
     p_timestamp := 990 |}.
Definition with_other_proposal : consensus_state :=
  with_rs (set_proposal_field (Some other_proposal) (rs at_genesis)) at_genesis.


Import BlockPool.

(** ** The store with its three kinds of record *)

(** A buffer holds one record; the consensus parameters are a number. *)
Inductive sim_buffer :=
| BufEmpty
| BufValidators (v : @validators_info sim_validators)
| BufParams (p : @consensus_params_info Z)
| BufState (st : @stored_state sim_validators Z).

Definition sim_buffer_empty (b : sim_buffer) : bool :=
  match b with
  | BufEmpty => true
  | _ => false
  end.

Definition sim_decode_validators (b : sim_buffer) : @validators_info sim_validators :=
  match b with
  | BufValidators v => v
  | _ => {| last_height_changed := 0; v_set := None |}
  end.

Definition sim_store_codec : @Codec sim_validators :=
  {| buffer := sim_buffer;
     buffer_empty := sim_buffer_empty;
     encode := BufValidators;
     decode := sim_decode_validators;
     decode_encode := fun v => eq_refl;
     encode_not_empty := fun v => eq_refl |}.

Definition sim_decode_params (b : sim_buffer) : @consensus_params_info Z :=
  match b with
  | BufParams p => p
  | _ => {| cp_last_height_changed := 0; cs_param := None |}
  end.

Definition stored_genesis : @stored_state sim_validators Z :=
  {| st_initial_height := 1; st_last_block_height := 0;
     st_next_validators := four_validators; st_validators := four_validators;
     st_last_validators := no_validators;
     st_last_height_validators_changed := 1;
     st_consensus_params := 22020096;
     st_last_height_consensus_params_changed := 1 |}.

Definition sim_decode_state (b : sim_buffer) : @stored_state sim_validators Z :=
  match b with
  | BufState st => st
  | _ => stored_genesis
  end.

Definition sim_validators_empty (vs : sim_validator_set) : bool :=
  match members vs with
  | [] => true
  | _ :: _ => false
  end.

Definition sim_chain : @ChainOps sim_validators sim_store_codec Z :=
  @Build_ChainOps sim_validators sim_store_codec Z
    BufParams sim_decode_params (fun v => eq_refl) (fun v => eq_refl)
    BufState sim_decode_state (fun st => eq_refl) (fun st => eq_refl)
    sim_validators_empty.

(** The key of the state: the one byte of the prefix. *)
Definition sim_state_key : bytes :=
  String (prefix_char prefix_state) EmptyString.

(** The state after the first block, with the validators unchanged since
    the start. *)
Definition stored_state_1 : @stored_state sim_validators Z :=
  {| st_initial_height := 1; st_last_block_height := 1;
     st_next_validators := four_validators; st_validators := four_validators;
     st_last_validators := four_validators;
     st_last_height_validators_changed := 1;
     st_consensus_params := 22020096;
     st_last_height_consensus_params_changed := 1 |}.

(** Step Precommit of round 1 with three precommits for nil, and the commit
    round set to 1. *)
Definition nil_commit_round : consensus_state :=
  with_rs (set_commit_round 1 (rs nil_precommits)) nil_precommits.

(** A peer of the block pool with nothing pending and its timer idle. *)
Definition idle_peer : bp_peer :=
  {| did_timeout := false; num_pending := 0; peer_height := 10; peer_base := 1;
     has_pool := true; peer_id := "peer0"; timeout := Some [] |}.

(** A part set is complete when it holds as many parts as its header
    announces; a part is added when its index is the next one. *)
Definition sim_add_part (index : Z) (bytes_ : bytes) (ps : sim_part_set)
  : bool * sim_part_set :=
  if (index =? Z.of_nat (List.length (sps_parts ps))) && (index <? psh_total (sps_header ps))
  then (true, {| sps_header := sps_header ps; sps_parts := sps_parts ps ++ [bytes_] |})
  else (false, ps).

Definition sim_parts : @PartOps sim_blocks :=
  {| add_part := sim_add_part;
     byte_size := fun ps =>
       fold_right Z.add 0 (map (fun b => Z.of_nat (String.length b)) (sps_parts ps));
     is_complete := fun ps => Z.of_nat (List.length (sps_parts ps)) =? psh_total (sps_header ps);
     is_zero := fun bid => bytes_empty (hash bid) && (psh_total (parts bid) =? 0)
                           && bytes_empty (psh_hash (parts bid)) |}.

Definition sim_params : @ParamOps sim_validators :=
  {| max_bytes := fun _ => 22020096 |}.

End Sim.

Module ConsensusFacts.
Import Consensus.

Section Facts.

Context `{BO : BlockOps} `{VO : ValidatorOps} `{VT : !VoteOps} `{SO : !StateOps}.

Lemma step_code_pos (st : round_step_type) : 0 < step_code st.
Proof. destruct st; reflexivity. Qed.

Ltac b2p :=
  repeat match goal with
  | H : (_ && _) = true |- _ => apply andb_true_iff in H; destruct H
  | H : (_ && _) = false |- _ => apply andb_false_iff in H; destruct H
  | H : (_ || _) = true |- _ => apply orb_true_iff in H; destruct H
  | H : (_ || _) = false |- _ => apply orb_false_iff in H; destruct H
  | H : negb _ = true |- _ => apply negb_true_iff in H
  | H : negb _ = false |- _ => apply negb_false_iff in H
  | H : (_ <? _) = true |- _ => apply Z.ltb_lt in H
  | H : (_ <? _) = false |- _ => apply Z.ltb_ge in H
  | H : (_ <=? _) = true |- _ => apply Z.leb_le in H
  | H : (_ <=? _) = false |- _ => apply Z.leb_gt in H
  | H : (_ =? _) = true |- _ => apply Z.eqb_eq in H
  | H : (_ =? _) = false |- _ => apply Z.eqb_neq in H
  end.

(** Unfolds the monad down to functions on states. *)
Ltac munfold :=
  cbv beta iota delta
    [mbind M_bind mret M_ret mthrow M_throw get modify modify_rs access
     scoped_exit update_round_step update_height new_step] in *.

(** Reduces, and rewrites with the tests already decided. *)
Ltac mauto :=
  repeat (cbn;
          try match goal with
              | H : ?x = true |- context [?x] => rewrite H
              | H : ?x = false |- context [?x] => rewrite H
              | H : ?x = Some _ |- context [?x] => rewrite H
              | H : ?x = None |- context [?x] => rewrite H
              end).

(** Collapses nested updates of the state. *)
Ltac mstate :=
  cbn [rs with_rs with_local_state with_pub_key with_ticker with_published
       with_n_steps cs_config local_state local_priv_validator
       local_priv_validator_pub_key old_ti timer internal_mq n_steps now] in *.

Lemma tick_cases (ti : timeout_info) (s : consensus_state) :
  tick ti s = Ok tt s
  \/ tick ti s = Ok tt (with_ticker ti
       [TimerCancel; TimerExpiresFromNow (duration_ ti); TimerAsyncWait ti] s).
Proof.
  unfold tick. munfold.
  repeat match goal with |- context [if ?b then _ else _] => destruct b end; auto.
Qed.

(** C5.  After [schedule(ti_new)], a [schedule(ti_old)] with [ti_old]
    lexicographically smaller than [ti_new] by (height, round, step) changes
    nothing: the state of the ticker is the one the first call left, so
    [old_ti] keeps the value [ti_new] that the first call stored and no call
    is made on the timer. *)
Theorem tick_older_after_newer_is_noop
  (s s1 : consensus_state) (d1 h1 r1 : Z) (st1 : round_step_type)
  (d2 h2 r2 : Z) (st2 : round_step_type) :
  let ti_new := {| duration_ := d1; ti_height := h1; ti_round := r1;
                   ti_step := step_code st1 |} in
  let ti_old := {| duration_ := d2; ti_height := h2; ti_round := r2;
                   ti_step := step_code st2 |} in
  ti_lt ti_old ti_new ->
  schedule_timeout d1 h1 r1 st1 s = Ok tt s1 ->
  schedule_timeout d2 h2 r2 st2 s1 = Ok tt s1
  /\ (old_ti s1 = ti_new ->
      forall s2, schedule_timeout d2 h2 r2 st2 s1 = Ok tt s2 ->
                 old_ti s2 = ti_new /\ timer s2 = timer s1).
Proof.
  intros ti_new ti_old Hlt H1.
  assert (Hnoop : schedule_timeout d2 h2 r2 st2 s1 = Ok tt s1).
  { pose proof (step_code_pos st1) as Hp1.
    pose proof (step_code_pos st2) as Hp2.
    unfold ti_lt in Hlt; subst ti_new ti_old; simpl in Hlt.
    unfold schedule_timeout, tick in *. munfold. simpl in *.
    repeat match type of H1 with
           | context [if ?b then _ else _] => destruct b eqn:?
           end;
      inversion H1; subst; clear H1; simpl; b2p;
      repeat match goal with
             | |- context [if ?b then _ else _] => destruct b eqn:?
             end; b2p; try reflexivity; exfalso; lia. }
  split; [exact Hnoop|].
  intros Hst s2 H2. rewrite Hnoop in H2. inversion H2; subst. auto.
Qed.

(** ** Timeouts *)

Lemma handle_timeout_ignored (ti : timeout_info) (s : consensus_state) :
  timeout_ignored ti (rs s) = true -> handle_timeout ti s = Ok tt s.
Proof. intros H. unfold handle_timeout. munfold. rewrite H. reflexivity. Qed.

Lemma handle_timeout_not_ignored (ti : timeout_info) (s : consensus_state) :
  timeout_ignored ti (rs s) = false -> handle_timeout ti s = timeout_dispatch ti s.
Proof. intros H. unfold handle_timeout. munfold. rewrite H. reflexivity. Qed.

Lemma timeout_ignored_iff (ti : timeout_info) (r : round_state) :
  timeout_ignored ti r = true <-> ti_behind ti r \/ rs_height r < ti_height ti.
Proof.
  unfold timeout_ignored, ti_behind. split.
  - intros H. b2p; lia.
  - intros H.
    destruct (ti_height ti =? rs_height r) eqn:Hh; [|reflexivity].
    destruct (ti_round ti <? rs_round r) eqn:Hr; [reflexivity|].
    destruct (ti_round ti =? rs_round r) eqn:Hr'; b2p; simpl.
    + apply Z.ltb_lt. lia.
    + exfalso. lia.
Qed.

(** C4 (amended).  [handle_timeout(ti)] drops [ti], leaving the state as it
    is, when [ti] is strictly behind (rs.height, rs.round, rs.step) and also
    when it is for a later height.  In every other case it dispatches on
    [ti.step]: NewHeight to [enter_new_round(ti.height, 0)], NewRound to
    [enter_propose(ti.height, 0)], Propose to
    [enter_prevote(ti.height, ti.round)], PrevoteWait to
    [enter_precommit(ti.height, ti.round)], PrecommitWait to
    [enter_precommit(ti.height, ti.round)] followed by
    [enter_new_round(ti.height, ti.round + 1)], and any other step
    throws. *)
Theorem handle_timeout_dispatch (ti : timeout_info) (s : consensus_state) :
  (ti_behind ti (rs s) \/ rs_height (rs s) < ti_height ti ->
   timeout_ignored ti (rs s) = true /\ handle_timeout ti s = Ok tt s)
  /\ (~ (ti_behind ti (rs s) \/ rs_height (rs s) < ti_height ti) ->
      timeout_ignored ti (rs s) = false
      /\ (ti_step ti = step_code NewHeight ->
          handle_timeout ti s = enter_new_round (ti_height ti) 0 s)
      /\ (ti_step ti = step_code NewRound ->
          handle_timeout ti s = enter_propose (ti_height ti) 0 s)
      /\ (ti_step ti = step_code Propose ->
          handle_timeout ti s = enter_prevote (ti_height ti) (ti_round ti) s)
      /\ (ti_step ti = step_code PrevoteWait ->
          handle_timeout ti s = enter_precommit (ti_height ti) (ti_round ti) s)
      /\ (ti_step ti = step_code PrecommitWait ->
          handle_timeout ti s =
          (enter_precommit (ti_height ti) (ti_round ti);;
           enter_new_round (ti_height ti) (ti_round ti + 1)) s)
      /\ (ti_step ti <> step_code NewHeight ->
          ti_step ti <> step_code NewRound ->
          ti_step ti <> step_code Propose ->
          ti_step ti <> step_code PrevoteWait ->
          ti_step ti <> step_code PrecommitWait ->
          handle_timeout ti s = Throw "invalid timeout step" s)).
Proof.
  split.
  { intros H. apply timeout_ignored_iff in H.
    split; [exact H|apply handle_timeout_ignored; exact H]. }
  intros Hn.
  assert (Hf : timeout_ignored ti (rs s) = false).
  { destruct (timeout_ignored ti (rs s)) eqn:E; [|reflexivity].
    exfalso. apply Hn. apply timeout_ignored_iff. exact E. }
  split; [exact Hf|].
  rewrite (handle_timeout_not_ignored _ _ Hf).
  unfold timeout_dispatch.
  repeat split; try (intros ->; reflexivity).
  intros H1 H2 H3 H5 H7. simpl in *.
  destruct (ti_step ti) as [|q|q]; try reflexivity.
  do 4 (try destruct q as [q|q|]); try reflexivity; congruence.
Qed.

(** ** [set_proposal] *)

Lemma set_proposal_without_proposal (msg : proposal_message) (s : consensus_state) :
  rs_proposal (rs s) = None -> set_proposal msg s = Ok tt s.
Proof. intros H. unfold set_proposal. munfold. rewrite H. reflexivity. Qed.

Lemma set_proposal_over_proposal (msg p0 : proposal_message) (s : consensus_state) :
  rs_proposal (rs s) = Some p0 ->
  p_height msg = rs_height (rs s) ->
  p_round msg = rs_round (rs s) ->
  p_pol_round msg = -1 \/ 0 <= p_pol_round msg < p_round msg ->
  exists s', set_proposal msg s = Ok tt s' /\ rs_proposal (rs s') = Some msg.
Proof.
  intros H Hh Hr Hp. unfold set_proposal. munfold. rewrite H. simpl.
  rewrite Hh, Hr, !Z.eqb_refl. simpl.
  replace ((p_pol_round msg <? -1)
           || (0 <=? p_pol_round msg) && (rs_round (rs s) <=? p_pol_round msg))
    with false.
  - destruct (has_value (rs_proposal_block_parts (rs s))); simpl;
      eexists; split; reflexivity.
  - symmetry. apply orb_false_iff. split.
    + apply Z.ltb_ge. lia.
    + apply andb_false_iff.
      destruct Hp as [Hp|Hp]; [left; apply Z.leb_gt; lia|right; apply Z.leb_gt; lia].
Qed.

(** ** [enter_prevote_wait] and [enter_precommit_wait] *)

Lemma enter_prevote_wait_with_two_thirds_any
  (s : consensus_state) (round : Z) (v : height_vote_set) :
  rs_round (rs s) <= round ->
  (rs_round (rs s) = round -> step_lt (rs_step (rs s)) PrevoteWait = true) ->
  rs_votes (rs s) = Some v ->
  has_two_thirds_any (prevotes v round) = true ->
  enter_prevote_wait (rs_height (rs s)) round s
  = Throw "entering prevote_wait step, but prevotes does not have any 2/3+ votes" s.
Proof.
  intros Hr Hs Hv Hany. unfold enter_prevote_wait. munfold.
  rewrite Z.eqb_refl. simpl.
  destruct (round <? rs_round (rs s)) eqn:E1; b2p; [lia|]. simpl.
  destruct (rs_round (rs s) =? round) eqn:E2; b2p; simpl.
  - specialize (Hs E2). unfold step_lt, step_le in *. b2p.
    destruct (step_code PrevoteWait <=? step_code (rs_step (rs s))) eqn:E3; b2p; [lia|].
    rewrite Hv, Hany. reflexivity.
  - rewrite Hv, Hany. reflexivity.
Qed.

Lemma enter_precommit_wait_with_two_thirds_any
  (s : consensus_state) (round : Z) (v : height_vote_set) :
  rs_round (rs s) <= round ->
  (rs_round (rs s) = round -> rs_triggered_timeout_precommit (rs s) = false) ->
  rs_votes (rs s) = Some v ->
  has_two_thirds_any (precommits v round) = true ->
  enter_precommit_wait (rs_height (rs s)) round s
  = Throw "entering precommit_wait step, but prevotes does not have any 2/3+ votes" s.
Proof.
  intros Hr Hs Hv Hany. unfold enter_precommit_wait. munfold.
  rewrite Z.eqb_refl. simpl.
  destruct (round <? rs_round (rs s)) eqn:E1; b2p; [lia|]. simpl.
  destruct (rs_round (rs s) =? round) eqn:E2; b2p; simpl.
  - rewrite (Hs E2). rewrite Hv, Hany. reflexivity.
  - rewrite Hv, Hany. reflexivity.
Qed.

(** ** Signing *)

Lemma with_rs_same (s : consensus_state) : with_rs (rs s) s = s.
Proof. destruct s; reflexivity. Qed.

Lemma with_published_nil (s : consensus_state) : with_published [] s = s.
Proof. destruct s; unfold with_published; simpl. rewrite app_nil_r. reflexivity. Qed.

Lemma sign_add_vote_returns (t : signed_msg_type) (hash_ : bytes)
  (header_ : part_set_header) (s : consensus_state) :
  local_priv_validator s = None \/ rs_validators (rs s) <> None ->
  sign_add_vote t hash_ header_ s = Ok tt (voted t hash_ header_ s).
Proof.
  intros H. unfold sign_add_vote, sign_vote, vote_time, voted, signed_votes, vote_time_of.
  munfold.
  destruct (local_priv_validator s) as [pv|] eqn:Epv;
    [|rewrite with_published_nil; reflexivity].
  destruct (rs_validators (rs s)) as [vals|] eqn:Evals.
  2:{ destruct H as [H|H]; congruence. }
  destruct (bytes_empty (local_priv_validator_pub_key s)) eqn:Ek; mauto;
    [rewrite with_published_nil; reflexivity|].
  destruct (has_address vals (address (local_priv_validator_pub_key s))) eqn:Ea; mauto;
    [|rewrite with_published_nil; reflexivity].
  destruct (get_index_by_address vals (address (local_priv_validator_pub_key s)) <? 0)
    eqn:E; mauto.
  - rewrite (proj2 (Z.leb_gt _ _)) by (b2p; lia).
    rewrite with_published_nil; reflexivity.
  - rewrite (proj2 (Z.leb_le _ _)) by (b2p; lia).
    repeat match goal with
           | |- context [if ?b then _ else _] => destruct b
           end; reflexivity.
Qed.

(** ** [enter_precommit] *)

Lemma step_guard_passes (s : consensus_state) (round : Z) (st : round_step_type) :
  rs_round (rs s) <= round ->
  (rs_round (rs s) = round -> step_lt (rs_step (rs s)) st = true) ->
  negb (rs_height (rs s) =? rs_height (rs s)) || (round <? rs_round (rs s))
  || ((rs_round (rs s) =? round) && step_le st (rs_step (rs s))) = false.
Proof.
  intros Hr Hs. rewrite Z.eqb_refl. simpl.
  rewrite (proj2 (Z.ltb_ge _ _)) by lia. simpl.
  destruct (rs_round (rs s) =? round) eqn:E; [|reflexivity]. b2p.
  specialize (Hs E). unfold step_lt, step_le in *. b2p. simpl.
  apply Z.leb_gt. lia.
Qed.

(** C3 (amended).  With [h == rs.height] and [r] passing the step guard,
    [rs.votes] and [rs.validators] set, [enter_precommit(h, r)] ends in step
    Precommit of round [r] and
    - with no 2/3 prevote majority, precommits nil and leaves the lock as it is;
    - with a majority and [pol_info() < r], throws;
    - with a majority for nil, clears the lock if a block is locked
      ([locked_round = -1], locked block and parts cleared) and precommits nil;
    - with a majority for the id of the locked block, sets [locked_round = r]
      and precommits that id;
    - with a block locked and a majority for the id of the proposal block,
      locks it ([locked_round = r], [locked_block = proposal_block],
      [locked_block_parts = proposal_block_parts]) and precommits that id;
    - with a block locked, a proposal block and [proposal_block_parts]
      present and a majority for another block, clears the lock, precommits
      nil and, unless [proposal_block_parts] already has the part-set header
      of the majority, clears [proposal_block] and sets
      [proposal_block_parts] to an empty part set for that header. *)
Theorem enter_precommit_polka_cases
  (s : consensus_state) (round : Z) (v : height_vote_set) (vals : validator_set) :
  rs_round (rs s) <= round ->
  (rs_round (rs s) = round -> step_lt (rs_step (rs s)) Precommit = true) ->
  rs_votes (rs s) = Some v ->
  rs_validators (rs s) = Some vals ->
  let r := rs s in
  let precommit_nil r' :=
    Ok tt (stepped round Precommit
             (voted MsgPrecommit EmptyString part_set_header_zero (with_rs r' s))) in
  let precommit_id bid r' :=
    Ok tt (stepped round Precommit
             (voted MsgPrecommit (hash bid) (parts bid) (with_rs r' s))) in
  match two_thirds_majority (prevotes v round) with
  | None => enter_precommit (rs_height r) round s = precommit_nil r
  | Some bid =>
      if pol_info v <? round then
        enter_precommit (rs_height r) round s
        = Throw "pol_round should be the round of the polka" (stepped round Precommit s)
      else if bytes_empty (hash bid) then
        enter_precommit (rs_height r) round s
        = precommit_nil (if has_value (rs_locked_block r)
                         then set_locked (-1) None None r else r)
      else
        forall lb, rs_locked_block r = Some lb ->
        if hashes_to lb (hash bid) then
          enter_precommit (rs_height r) round s
          = precommit_id bid (set_locked round (Some lb) (rs_locked_block_parts r) r)
        else
          forall pb, rs_proposal_block r = Some pb ->
          if hashes_to pb (hash bid) then
            enter_precommit (rs_height r) round s
            = precommit_id bid
                (set_locked round (Some pb) (rs_proposal_block_parts r) r)
          else
            forall pbp, rs_proposal_block_parts r = Some pbp ->
            enter_precommit (rs_height r) round s
            = precommit_nil
                (if has_header pbp (parts bid)
                 then set_locked (-1) None None r
                 else set_proposal_block None
                        (Some (new_part_set_from_header (parts bid)))
                        (set_locked (-1) None None r))
  end.
Proof.
  intros Hr Hs Hv Hvals r precommit_nil precommit_id.
  subst r precommit_nil precommit_id. cbv beta.
  unfold enter_precommit. munfold.
  rewrite (step_guard_passes s round Precommit Hr Hs), Hv.
  cbv beta iota.
  destruct (two_thirds_majority (prevotes v round)) as [bid|].
  2:{ rewrite sign_add_vote_returns by (right; congruence).
      rewrite with_rs_same. reflexivity. }
  destruct (pol_info v <? round); [reflexivity|].
  destruct (bytes_empty (hash bid)).
  { destruct (rs_locked_block (rs s)); cbn [has_value negb].
    - rewrite sign_add_vote_returns by (right; cbn; congruence). reflexivity.
    - rewrite sign_add_vote_returns by (right; congruence).
      rewrite with_rs_same. reflexivity. }
  intros lb Hlb. rewrite Hlb.
  destruct (hashes_to lb (hash bid)).
  { rewrite sign_add_vote_returns by (right; cbn; congruence). reflexivity. }
  intros pb Hpb. rewrite Hpb.
  destruct (hashes_to pb (hash bid)).
  { rewrite sign_add_vote_returns by (right; cbn; congruence). reflexivity. }
  intros pbp Hpbp. rewrite Hpbp.
  destruct (has_header pbp (parts bid)); cbn [negb];
    rewrite sign_add_vote_returns by (right; cbn; congruence); reflexivity.
Qed.

(** ** [enter_commit] *)

Lemma committed_fields (round : Z) (s : consensus_state) :
  rs_commit_round (rs (committed round s)) = round
  /\ rs_commit_time (rs (committed round s)) = now s
  /\ rs_step (rs (committed round s)) = Commit
  /\ rs_round (rs (committed round s)) = round.
Proof. repeat split. Qed.

(** C6 (amended).  With [h == rs.height], the step before Commit and
    [rs.votes] set: if [precommits(r).two_thirds_majority()] is absent,
    [enter_commit(h, r)] throws; if it is some block id, nil or not, and
    [rs.locked_block] and the proposal block are present, it adopts the
    locked block as proposal block when that hashes to the id, sets the step
    to Commit, [rs.commit_round = r] and [rs.commit_time] to the current
    time, and then: when the proposal block hashes to the id it goes on with
    [try_finalize_commit(h)]; when it does not and [proposal_block_parts]
    has the header of the id it returns; when it has not and the id is nil
    it returns with [proposal_block] cleared and an empty part set for the
    header.  The fields are set in the throwing case as well, by the scope
    exit. *)
Theorem enter_commit_cases (s : consensus_state) (round : Z) (v : height_vote_set) :
  step_lt (rs_step (rs s)) Commit = true ->
  rs_votes (rs s) = Some v ->
  let r := rs s in
  match two_thirds_majority (precommits v round) with
  | None =>
      enter_commit (rs_height r) round s
      = Throw "RunActionCommit() expects +2/3 precommits" (committed round s)
  | Some bid =>
      forall lb, rs_locked_block r = Some lb ->
      let r1 := if hashes_to lb (hash bid)
                then set_proposal_block (Some lb) (rs_locked_block_parts r) r
                else r in
      forall pb, rs_proposal_block r1 = Some pb ->
      if hashes_to pb (hash bid) then
        enter_commit (rs_height r) round s
        = try_finalize_commit (rs_height r) (committed round (with_rs r1 s))
      else
        forall pbp, rs_proposal_block_parts r1 = Some pbp ->
        if has_header pbp (parts bid) then
          enter_commit (rs_height r) round s = Ok tt (committed round (with_rs r1 s))
        else
          bytes_empty (hash bid) = true ->
          enter_commit (rs_height r) round s
          = Ok tt (committed round
                     (with_rs (set_proposal_block None
                                 (Some (new_part_set_from_header (parts bid))) r1) s))
  end.
Proof.
  intros Hs Hv r. subst r. cbv beta.
  unfold enter_commit. munfold.
  rewrite Z.eqb_refl. cbn [negb orb].
  unfold step_lt, step_le in *. b2p.
  rewrite (proj2 (Z.leb_gt _ _)) by lia.
  rewrite Hv. cbv beta iota.
  destruct (two_thirds_majority (precommits v round)) as [bid|] eqn:Emaj.
  2:{ unfold try_finalize_commit. munfold. cbn.
      rewrite Z.eqb_refl, Hv. cbn. rewrite Emaj. reflexivity. }
  intros lb Hlb. rewrite Hlb. cbv beta iota.
  destruct (hashes_to lb (hash bid)) eqn:Elb; cbv beta iota zeta.
  - intros pb Hpb. cbn in Hpb. rewrite Hpb. cbn [rs with_rs rs_proposal_block set_proposal_block].
    inversion Hpb; subst pb. rewrite Elb. cbn [negb].
    reflexivity.
  - intros pb Hpb. rewrite Hpb.
    destruct (hashes_to pb (hash bid)) eqn:Epb; cbn [negb].
    + rewrite with_rs_same. reflexivity.
    + intros pbp Hpbp. rewrite Hpbp.
      destruct (has_header pbp (parts bid)) eqn:Ehd; cbn [negb].
      * rewrite with_rs_same.
        unfold try_finalize_commit. munfold. cbn.
        rewrite Z.eqb_refl, Hv. cbn. rewrite Emaj.
        destruct (bytes_empty (hash bid)); [reflexivity|].
        rewrite Hpb. cbn. rewrite Epb. reflexivity.
      * intros Hnil.
        unfold try_finalize_commit. munfold. cbn.
        rewrite Z.eqb_refl, Hv. cbn. rewrite Emaj, Hnil. reflexivity.
Qed.

(** ** [update_to_state] *)

Lemma update_to_state_ok_resets (state_ : state) (s s' : consensus_state) :
  last_block_height (local_state s) < last_block_height state_ ->
  update_to_state state_ s = Ok tt s' ->
  reset_for state_ (rs s') /\ local_state s' = state_.
Proof.
  intros Hout H. unfold reset_for. unfold update_to_state in H. munfold. mstate.
  assert (Hle : (last_block_height state_ <=? last_block_height (local_state s)) = false)
    by (apply Z.leb_gt; lia).
  rewrite Hle, andb_false_r in H.
  repeat match type of H with
         | context [if ?b then _ else _] => destruct b
         | context [match ?o with Some _ => _ | None => _ end] => destruct o
         end;
    try discriminate;
    inversion H; subst; clear H; repeat split.
Qed.

Lemma update_to_state_returns (state_ : state) (s : consensus_state) :
  last_block_height (local_state s) < last_block_height state_ ->
  update_to_state_checks state_ s = true ->
  exists s', update_to_state state_ s = Ok tt s'.
Proof.
  intros Hout H. unfold update_to_state_checks in H.
  apply andb_true_iff in H. destruct H as [H H3].
  apply andb_true_iff in H. destruct H as [H1 H2].
  apply negb_true_iff in H1.
  unfold update_to_state. munfold. rewrite H1.
  assert (Hle : (last_block_height state_ <=? last_block_height (local_state s)) = false)
    by (apply Z.leb_gt; lia).
  rewrite Hle, andb_false_r.
  destruct (is_empty (local_state s)) eqn:Ee; cbn [negb andb orb] in *.
  - destruct (last_block_height state_ =? 0); cbn [orb] in H3; [eexists; reflexivity|].
    destruct (rs_votes (rs s)) as [votes|]; cbn [has_value andb].
    + rewrite andb_true_r. destruct (-1 <? rs_commit_round (rs s)).
      * rewrite H3. eexists; reflexivity.
      * rewrite H3. eexists; reflexivity.
    + rewrite andb_false_r, H3. eexists; reflexivity.
  - apply andb_true_iff in H2. destruct H2 as [H2 H2'].
    apply negb_true_iff in H2, H2'. rewrite H2, H2'.
    destruct (last_block_height state_ =? 0); cbn [orb] in H3; [eexists; reflexivity|].
    destruct (rs_votes (rs s)) as [votes|]; cbn [has_value andb].
    + rewrite andb_true_r. destruct (-1 <? rs_commit_round (rs s)).
      * rewrite H3. eexists; reflexivity.
      * rewrite H3. eexists; reflexivity.
    + rewrite andb_false_r, H3. eexists; reflexivity.
Qed.

(** C7.  Whenever [update_to_state(s)] is applied with [s] strictly further
    out than the stored local state, afterwards [rs.height] is
    [s.last_block_height + 1] (or [s.initial_height] when that sum is 1),
    [rs.round == 0], [rs.step == NewHeight], [rs.locked_round],
    [rs.valid_round] and [rs.commit_round] are -1,
    [triggered_timeout_precommit] is false and the proposal, locked-block and
    valid-block fields are cleared.  The call returns when none of its
    consistency checks throws. *)
Theorem update_to_state_resets_round_state (state_ : state) (s : consensus_state) :
  last_block_height (local_state s) < last_block_height state_ ->
  (forall s', update_to_state state_ s = Ok tt s' -> reset_for state_ (rs s'))
  /\ (update_to_state_checks state_ s = true ->
      exists s', update_to_state state_ s = Ok tt s' /\ reset_for state_ (rs s')).
Proof.
  intros Hout. split.
  - intros s' H. apply (update_to_state_ok_resets _ _ _ Hout H).
  - intros Hc. destruct (update_to_state_returns _ _ Hout Hc) as [s' Hs'].
    exists s'. split; [exact Hs'|]. apply (update_to_state_ok_resets _ _ _ Hout Hs').
Qed.

(** ** The step functions return when the pointers are set *)

Lemma tick_returns (ti : timeout_info) (s : consensus_state) :
  exists s', tick ti s = Ok tt s' /\ rs s' = rs s
             /\ local_priv_validator s' = local_priv_validator s.
Proof.
  destruct (tick_cases ti s) as [H|H]; rewrite H; eexists; repeat split.
Qed.

(** Without two-thirds of any kind, the step is entered. *)
Lemma enter_prevote_wait_without_two_thirds_any
  (s : consensus_state) (round : Z) (v : height_vote_set) :
  rs_round (rs s) <= round ->
  (rs_round (rs s) = round -> step_lt (rs_step (rs s)) PrevoteWait = true) ->
  rs_votes (rs s) = Some v ->
  has_two_thirds_any (prevotes v round) = false ->
  exists s1,
    schedule_timeout (cfg_prevote (cs_config s) round) (rs_height (rs s)) round
      PrevoteWait s = Ok tt s1
    /\ enter_prevote_wait (rs_height (rs s)) round s
       = Ok tt (stepped round PrevoteWait s1).
Proof.
  intros Hr Hs Hv Hany. unfold enter_prevote_wait. munfold.
  rewrite (step_guard_passes s round PrevoteWait Hr Hs), Hv, Hany.
  unfold schedule_timeout.
  match goal with
  | |- context [tick ?ti] => destruct (tick_returns ti s) as (s1 & Ht & _)
  end.
  exists s1. rewrite Ht. split; reflexivity.
Qed.

Lemma voted_rs (t : signed_msg_type) (hash_ : bytes) (header_ : part_set_header)
  (s : consensus_state) :
  rs (voted t hash_ header_ s) = rs s.
Proof. reflexivity. Qed.

Lemma do_prevote_returns (height round : Z) (s : consensus_state) :
  pointers_set (rs s) ->
  exists s', do_prevote height round s = Ok tt s' /\ rs s' = rs s.
Proof.
  intros (Hv & Hvals & Hlc & Hl & Hp & Hvb).
  unfold do_prevote. munfold.
  destruct (rs_locked_block (rs s)) as [lb|].
  - destruct (rs_locked_block_parts (rs s)) as [lbp|]; [|exfalso; apply Hl; congruence].
    rewrite sign_add_vote_returns by (right; exact Hvals).
    eexists; split; reflexivity.
  - destruct (rs_proposal_block (rs s)) as [pb|].
    + destruct (rs_proposal_block_parts (rs s)) as [pbp|];
        [|exfalso; apply Hp; congruence].
      rewrite sign_add_vote_returns by (right; exact Hvals).
      eexists; split; reflexivity.
    + rewrite sign_add_vote_returns by (right; exact Hvals).
      eexists; split; reflexivity.
Qed.

Lemma enter_prevote_returns (height round : Z) (s : consensus_state) :
  pointers_set (rs s) ->
  exists s', enter_prevote height round s = Ok tt s' /\ pointers_set (rs s').
Proof.
  intros Hp. unfold enter_prevote. munfold.
  match goal with |- context [if ?b then _ else _] => destruct b end.
  - eexists; split; [reflexivity|exact Hp].
  - destruct (do_prevote_returns height round s Hp) as (s1 & H1 & Hrs).
    rewrite H1. eexists; split; [reflexivity|].
    mstate. rewrite Hrs. exact Hp.
Qed.

Lemma is_proposal_complete_returns (s : consensus_state) :
  pointers_set (rs s) -> exists b, is_proposal_complete s = Ok b s.
Proof.
  intros (Hv & _). unfold is_proposal_complete. munfold.
  destruct (rs_proposal (rs s)) as [p|]; [|eexists; reflexivity].
  destruct (rs_proposal_block (rs s)); [|eexists; reflexivity].
  destruct (p_pol_round p <? 0); [eexists; reflexivity|].
  destruct (rs_votes (rs s)); [eexists; reflexivity|congruence].
Qed.

Lemma decide_proposal_returns (height round : Z) (s : consensus_state) :
  pointers_set (rs s) ->
  local_priv_validator s <> None ->
  exists s', decide_proposal height round s = Ok tt s' /\ rs s' = rs s.
Proof.
  intros (Hv & Hvals & Hlc & Hl & Hp & Hvb) Hpv.
  unfold decide_proposal. munfold.
  destruct (rs_valid_block (rs s)) as [b|].
  - destruct (rs_valid_block_parts (rs s)) as [ps|]; [|exfalso; apply Hvb; congruence].
    eexists; split; reflexivity.
  - destruct (local_priv_validator s); [|congruence].
    destruct (rs_height (rs s) =? initial_height (local_state s));
      [eexists; split; reflexivity|].
    destruct (rs_last_commit (rs s)) as [lc|]; [|congruence].
    destruct (has_two_thirds_majority lc); eexists; split; reflexivity.
Qed.

Lemma enter_propose_returns (height round : Z) (s : consensus_state) :
  pointers_set (rs s) ->
  exists s', enter_propose height round s = Ok tt s' /\ pointers_set (rs s').
Proof.
  intros Hp. unfold enter_propose.
  cbv beta iota delta [mbind M_bind get].
  match goal with |- context [if ?b then _ else _] => destruct b end.
  { eexists; split; [reflexivity|exact Hp]. }
  (* the body of the function *)
  match goal with
  | |- exists s', scoped_exit ?d ?body s = _ /\ _ =>
      assert (Hbody : exists s1, body s = Ok tt s1 /\ rs s1 = rs s);
      [|destruct Hbody as (s1 & Hb & Hrs1);
        assert (Hexit : exists s2, d s1 = Ok tt s2 /\ pointers_set (rs s2));
        [|destruct Hexit as (s2 & Hd & Hp2);
          exists s2; split; [unfold scoped_exit; rewrite Hb; exact Hd|exact Hp2]]]
  end.
  - unfold schedule_timeout.
    match goal with
    | |- context [tick ?ti] =>
        destruct (tick_returns ti s) as (s0 & Ht & Hrs0 & Hpv0)
    end.
    rewrite Ht.
    destruct (local_priv_validator s) as [pv|] eqn:Epv;
      [|eexists; split; [reflexivity|exact Hrs0]].
    destruct (bytes_empty (local_priv_validator_pub_key s));
      [eexists; split; [reflexivity|exact Hrs0]|].
    pose proof Hp as (Hv & Hvals & Hrest).
    munfold.
    destruct (rs_validators (rs s)) as [vals|] eqn:Evals; [|congruence].
    destruct (has_address vals (address (local_priv_validator_pub_key s))); cbn [negb];
      [|eexists; split; [reflexivity|exact Hrs0]].
    unfold is_proposal. munfold. rewrite Hrs0, Evals.
    destruct (String.eqb (get_proposer_address vals)
                (address (local_priv_validator_pub_key s)));
      [|eexists; split; [reflexivity|exact Hrs0]].
    destruct (decide_proposal_returns height round s0) as (s1 & H1 & Hrs1).
    + rewrite Hrs0. exact Hp.
    + rewrite Hpv0. congruence.
    + rewrite H1. eexists; split; [reflexivity|congruence].
  - assert (Hp1 : pointers_set (rs (stepped round Propose s1))).
    { unfold stepped. mstate. rewrite Hrs1. exact Hp. }
    destruct (is_proposal_complete_returns _ Hp1) as (b & Hc).
    unfold stepped in Hc, Hp1. munfold. mstate. rewrite Hc.
    destruct b.
    + apply enter_prevote_returns. exact Hp1.
    + eexists; split; [reflexivity|exact Hp1].
Qed.

Lemma enter_new_round_returns (height round : Z) (s : consensus_state) :
  pointers_set (rs s) ->
  exists s', enter_new_round height round s = Ok tt s' /\ pointers_set (rs s').
Proof.
  intros Hp. unfold enter_new_round. munfold.
  match goal with |- context [if ?b then _ else _] => destruct b end.
  { eexists; split; [reflexivity|exact Hp]. }
  pose proof Hp as (Hv & Hvals & Hrest).
  destruct (rs_votes (rs s)) as [votes|] eqn:Evotes; [|congruence].
  destruct (rs_validators (rs s)) as [vals|] eqn:Evals; [|congruence].
  destruct (rs_round (rs s) <? round); destruct (round =? 0); mstate;
    apply enter_propose_returns; mstate;
    unfold pointers_set in *; cbn; rewrite ?Evotes, ?Evals;
    repeat split; try congruence; try apply Hrest; intros; congruence.
Qed.

(** ** [add_vote]: a precommit for the previous height *)

Lemma set_last_commit_pointers (r : round_state) (lc : vote_set) :
  pointers_set r -> pointers_set (set_last_commit (Some lc) r).
Proof.
  unfold pointers_set. cbn. intros (Hv & Hvals & _ & Hrest).
  repeat split; try assumption; try apply Hrest. congruence.
Qed.

(** Without a last commit the path reads [rs.last_commit->add_vote]
    through the empty optional. *)
Lemma add_vote_previous_height_absent_last_commit
  (vote_ : vote) (peer_id : string) (s : consensus_state) :
  v_height vote_ + 1 = rs_height (rs s) ->
  v_type vote_ = MsgPrecommit ->
  rs_step (rs s) = NewHeight ->
  rs_last_commit (rs s) = None ->
  add_vote vote_ peer_id s = EmptyAccess.
Proof.
  intros Hh Ht Hst Hlc. unfold add_vote. munfold.
  rewrite Hh, Z.eqb_refl, Ht, Hst, Hlc. reflexivity.
Qed.

(** With a last commit present: for a precommit [v] with
    [v.height + 1 == rs.height] that arrives while [rs.step == NewHeight],
    [add_vote(v, peer)] never returns true: what it returns is false, also
    when the vote was added to [rs.last_commit] and, with
    [skip_timeout_commit] and a last commit that then has all votes,
    [enter_new_round(rs.height, 0)] was run.  With the last commit and the
    other pointers of the round state set, it does return. *)
Lemma add_vote_previous_height_returns_false
  (vote_ : vote) (peer_id : string) (s : consensus_state) :
  v_height vote_ + 1 = rs_height (rs s) ->
  v_type vote_ = MsgPrecommit ->
  rs_step (rs s) = NewHeight ->
  (forall b s', add_vote vote_ peer_id s = Ok b s' -> b = false)
  /\ (forall lc, rs_last_commit (rs s) = Some lc ->
      let r := vs_add_vote vote_ lc in
      let s1 := with_rs (set_last_commit (Some (snd r)) (rs s)) s in
      add_vote vote_ peer_id s
      = if fst r && (skip_timeout_commit (cs_config s) && has_all (snd r))
        then (enter_new_round (rs_height (rs s)) 0;; mret false) s1
        else Ok false s1)
  /\ (pointers_set (rs s) -> exists s', add_vote vote_ peer_id s = Ok false s').
Proof.
  intros Hh Ht Hst.
  assert (Hpath : forall lc, rs_last_commit (rs s) = Some lc ->
      let r := vs_add_vote vote_ lc in
      let s1 := with_rs (set_last_commit (Some (snd r)) (rs s)) s in
      add_vote vote_ peer_id s
      = if fst r && (skip_timeout_commit (cs_config s) && has_all (snd r))
        then (enter_new_round (rs_height (rs s)) 0;; mret false) s1
        else Ok false s1).
  { intros lc Hlc. unfold add_vote. munfold.
    rewrite Hh, Z.eqb_refl, Ht, Hst, Hlc. cbn [is_precommit andb step_eqb negb].
    cbn [step_code Z.eqb Pos.eqb negb].
    cbv zeta. destruct (fst (vs_add_vote vote_ lc)); cbn [negb andb]; [|reflexivity].
    destruct (skip_timeout_commit (cs_config s) && has_all (snd (vs_add_vote vote_ lc)));
      [|reflexivity].
    mstate. cbn [rs_height set_last_commit]. reflexivity. }
  split; [|split; [exact Hpath|]].
  - intros b s' H.
    destruct (rs_last_commit (rs s)) as [lc|] eqn:Elc.
    + rewrite (Hpath lc eq_refl) in H. cbv zeta in H.
      destruct (fst (vs_add_vote vote_ lc)
                && (skip_timeout_commit (cs_config s)
                    && has_all (snd (vs_add_vote vote_ lc))));
        [|inversion H; reflexivity].
      munfold. destruct (enter_new_round _ _ _); inversion H; reflexivity.
    + unfold add_vote in H. munfold.
      rewrite Hh, Z.eqb_refl, Ht, Hst, Elc in H. discriminate H.
  - intros Hp. pose proof Hp as (_ & _ & Hlc & _).
    destruct (rs_last_commit (rs s)) as [lc|] eqn:Elc; [|congruence].
    rewrite (Hpath lc eq_refl). cbv zeta.
    destruct (fst (vs_add_vote vote_ lc)
              && (skip_timeout_commit (cs_config s)
                  && has_all (snd (vs_add_vote vote_ lc))));
      [|eexists; reflexivity].
    munfold.
    match goal with
    | |- context [enter_new_round ?h ?r ?s1] =>
        destruct (enter_new_round_returns h r s1) as (s2 & H2 & _)
    end.
    + mstate. apply set_last_commit_pointers. exact Hp.
    + rewrite H2. eexists; reflexivity.
Qed.

(** ** Reading through an absent locked block *)

Lemma enter_precommit_absent_locked_block
  (s : consensus_state) (round : Z) (v : height_vote_set) (bid : block_id) :
  rs_round (rs s) <= round ->
  (rs_round (rs s) = round -> step_lt (rs_step (rs s)) Precommit = true) ->
  rs_votes (rs s) = Some v ->
  two_thirds_majority (prevotes v round) = Some bid ->
  round <= pol_info v ->
  bytes_empty (hash bid) = false ->
  rs_locked_block (rs s) = None ->
  enter_precommit (rs_height (rs s)) round s = EmptyAccess.
Proof.
  intros Hr Hs Hv Hmaj Hpol Hne Hlb.
  unfold enter_precommit. munfold.
  rewrite (step_guard_passes s round Precommit Hr Hs), Hv. cbv beta iota.
  rewrite Hmaj, (proj2 (Z.ltb_ge _ _)) by lia. rewrite Hne, Hlb. reflexivity.
Qed.

Lemma enter_commit_absent_locked_block
  (s : consensus_state) (round : Z) (v : height_vote_set) (bid : block_id) :
  step_lt (rs_step (rs s)) Commit = true ->
  rs_votes (rs s) = Some v ->
  two_thirds_majority (precommits v round) = Some bid ->
  rs_locked_block (rs s) = None ->
  enter_commit (rs_height (rs s)) round s = EmptyAccess.
Proof.
  intros Hs Hv Hmaj Hlb.
  unfold enter_commit. munfold.
  rewrite Z.eqb_refl. cbn [negb orb].
  unfold step_lt, step_le in *. b2p.
  rewrite (proj2 (Z.leb_gt _ _)) by lia.
  rewrite Hv. cbv beta iota. rewrite Hmaj, Hlb. reflexivity.
Qed.

(** A commit for a block that is not known clears [rs.proposal_block],
    after which the scope exit reads through it in [try_finalize_commit]. *)
Lemma enter_commit_unknown_block_reads_cleared_proposal_block
  (s : consensus_state) (round : Z) (v : height_vote_set) (bid : block_id)
  (lb pb : block) (pbp : part_set) :
  step_lt (rs_step (rs s)) Commit = true ->
  rs_votes (rs s) = Some v ->
  two_thirds_majority (precommits v round) = Some bid ->
  bytes_empty (hash bid) = false ->
  rs_locked_block (rs s) = Some lb -> hashes_to lb (hash bid) = false ->
  rs_proposal_block (rs s) = Some pb -> hashes_to pb (hash bid) = false ->
  rs_proposal_block_parts (rs s) = Some pbp -> has_header pbp (parts bid) = false ->
  enter_commit (rs_height (rs s)) round s = EmptyAccess.
Proof.
  intros Hs Hv Hmaj Hne Hlb Hlbh Hpb Hpbh Hpbp Hhd.
  unfold enter_commit. munfold.
  rewrite Z.eqb_refl. cbn [negb orb].
  unfold step_lt, step_le in *. b2p.
  rewrite (proj2 (Z.leb_gt _ _)) by lia.
  rewrite Hv. cbv beta iota. rewrite Hmaj, Hlb. cbv beta iota.
  rewrite Hlbh, Hpb. cbv beta iota. rewrite Hpbh. cbn [negb].
  rewrite Hpbp. cbv beta iota. rewrite Hhd. cbn [negb].
  unfold try_finalize_commit. munfold. cbn.
  rewrite Z.eqb_refl, Hv. cbn. rewrite Hmaj, Hne. reflexivity.
Qed.

(** ** Votes of the node *)

(** X1.  [vote_time()] returns and changes nothing.  The time it gives is
    never before the current time; it is later than the time of the locked
    block when a block is locked, later than the time of the proposal block
    when none is locked and there is a proposal block, and the current time
    when there is neither. *)
Theorem vote_time_is_monotone (s : consensus_state) :
  exists t,
    vote_time s = Ok t s
    /\ now s <= t
    /\ (forall b, rs_locked_block (rs s) = Some b -> header_time b < t)
    /\ (forall b, rs_locked_block (rs s) = None ->
                  rs_proposal_block (rs s) = Some b -> header_time b < t)
    /\ (rs_locked_block (rs s) = None -> rs_proposal_block (rs s) = None -> t = now s).
Proof.
  unfold vote_time. munfold.
  destruct (rs_locked_block (rs s)) as [lb|];
    [|destruct (rs_proposal_block (rs s)) as [pb|]];
    match goal with |- context [if ?b then _ else _] => destruct b eqn:E end;
    b2p; eexists; (split; [reflexivity|]);
    repeat split; intros; try discriminate;
    repeat match goal with H : Some _ = Some _ |- _ => inversion H; subst; clear H end;
    lia.
Qed.

Lemma sign_add_vote_frame (t : signed_msg_type) (hash_ : bytes)
  (header_ : part_set_header) (s s' : consensus_state) :
  sign_add_vote t hash_ header_ s = Ok tt s' ->
  s' = voted t hash_ header_ s.
Proof.
  intros H.
  destruct (local_priv_validator s) as [pv|] eqn:Epv.
  - destruct (rs_validators (rs s)) as [vals|] eqn:Ev.
    + rewrite sign_add_vote_returns in H by (right; congruence). congruence.
    + unfold sign_add_vote, voted, signed_votes in *. munfold.
      rewrite Epv, Ev in *.
      destruct (bytes_empty (local_priv_validator_pub_key s)); [|discriminate].
      inversion H; subst. rewrite with_published_nil. reflexivity.
  - rewrite sign_add_vote_returns in H by (left; congruence). congruence.
Qed.

(** X2.  With the validator set present, [sign_add_vote(type, hash,
    header)] returns.  It publishes one vote on the internal queue exactly
    when the node has a private validator, its memoized public key is not
    empty, the address of the key is in the validator set and has an index
    there; that vote carries the type, [rs.height], [rs.round], the block id
    [(hash, header)], the time of [vote_time()], the address and the index.
    In every other case the state is left as it was. *)
Theorem sign_add_vote_publishes (t : signed_msg_type) (hash_ : bytes)
  (header_ : part_set_header) (s : consensus_state) (vals : validator_set) :
  rs_validators (rs s) = Some vals ->
  let key := local_priv_validator_pub_key s in
  let signs :=
    has_value (local_priv_validator s) && negb (bytes_empty key)
    && has_address vals (address key) && (0 <=? get_index_by_address vals (address key)) in
  exists s',
    sign_add_vote t hash_ header_ s = Ok tt s'
    /\ (signs = false -> s' = s)
    /\ (signs = true ->
        exists ts,
          vote_time s = Ok ts s
          /\ s' = with_published
                    [PublishedVote
                       {| v_type := t; v_height := rs_height (rs s);
                          v_round := rs_round (rs s);
                          v_block_id := {| hash := hash_; parts := header_ |};
                          v_timestamp := ts;
                          v_validator_address := address key;
                          v_validator_index := get_index_by_address vals (address key) |}]
                    s).
Proof.
  intros Hv key signs.
  rewrite sign_add_vote_returns by (right; congruence).
  eexists; split; [reflexivity|].
  unfold voted, signed_votes. rewrite Hv. subst signs key.
  destruct (local_priv_validator s) as [pv|]; cbn [has_value andb].
  - destruct (negb (bytes_empty (local_priv_validator_pub_key s))
              && has_address vals (address (local_priv_validator_pub_key s))
              && (0 <=? get_index_by_address vals (address (local_priv_validator_pub_key s)))).
    + split; [discriminate|]. intros _.
      exists (vote_time_of s). split; [|reflexivity].
      unfold vote_time, vote_time_of. munfold.
      match goal with |- context [if ?b then _ else _] => destruct b end; reflexivity.
    + split; [intros _; apply with_published_nil|discriminate].
  - split; [intros _; apply with_published_nil|discriminate].
Qed.

(** ** [enter_prevote] *)

(** X3.  When [enter_prevote(rs.height, round)] passes its guard it ends
    in step Prevote of [round], having signalled one new step, and its
    prevote is for the locked block (hash and header of the locked parts)
    when a block is locked, whatever the proposal block is; for nil when
    there is neither a locked nor a proposal block; and for the proposal
    block otherwise. *)
Theorem enter_prevote_cases (s : consensus_state) (round : Z) (vals : validator_set) :
  rs_round (rs s) <= round ->
  (rs_round (rs s) = round -> step_lt (rs_step (rs s)) Prevote = true) ->
  rs_validators (rs s) = Some vals ->
  let h := rs_height (rs s) in
  (forall lb lbp,
     rs_locked_block (rs s) = Some lb -> rs_locked_block_parts (rs s) = Some lbp ->
     enter_prevote h round s
     = Ok tt (stepped round Prevote (voted MsgPrevote (get_hash lb) (header lbp) s)))
  /\ (rs_locked_block (rs s) = None -> rs_proposal_block (rs s) = None ->
      enter_prevote h round s
      = Ok tt (stepped round Prevote
                 (voted MsgPrevote EmptyString part_set_header_zero s)))
  /\ (forall pb pbp,
        rs_locked_block (rs s) = None ->
        rs_proposal_block (rs s) = Some pb -> rs_proposal_block_parts (rs s) = Some pbp ->
        enter_prevote h round s
        = Ok tt (stepped round Prevote (voted MsgPrevote (get_hash pb) (header pbp) s))).
Proof.
  intros Hr Hs Hv h. subst h.
  assert (Hg := step_guard_passes s round Prevote Hr Hs).
  repeat split.
  - intros lb lbp Hl Hlp. unfold enter_prevote, do_prevote. munfold.
    rewrite Hg, Hl, Hlp.
    rewrite sign_add_vote_returns by (right; congruence). reflexivity.
  - intros Hl Hp. unfold enter_prevote, do_prevote. munfold.
    rewrite Hg, Hl, Hp.
    rewrite sign_add_vote_returns by (right; congruence). reflexivity.
  - intros pb pbp Hl Hp Hpp. unfold enter_prevote, do_prevote. munfold.
    rewrite Hg, Hl, Hp, Hpp.
    rewrite sign_add_vote_returns by (right; congruence). reflexivity.
Qed.

(** ** Calls for another height or an earlier round *)

(** X5.  A call of a step function for a height other than [rs.height], or
    for a round below [rs.round], changes nothing: [enter_new_round],
    [enter_propose], [enter_prevote], [enter_prevote_wait], [enter_precommit]
    and [enter_precommit_wait] return at once.  For another height
    [enter_commit] and [finalize_commit] return at once too, while
    [try_finalize_commit] throws. *)
Theorem step_functions_ignore_stale_calls (height round : Z) (s : consensus_state) :
  (rs_height (rs s) <> height \/ round < rs_round (rs s) ->
   enter_new_round height round s = Ok tt s
   /\ enter_propose height round s = Ok tt s
   /\ enter_prevote height round s = Ok tt s
   /\ enter_prevote_wait height round s = Ok tt s
   /\ enter_precommit height round s = Ok tt s
   /\ enter_precommit_wait height round s = Ok tt s)
  /\ (rs_height (rs s) <> height ->
      enter_commit height round s = Ok tt s
      /\ finalize_commit height s = Ok tt s
      /\ try_finalize_commit height s
         = Throw "try_finalize_commit: rs.height vs height" s).
Proof.
  split.
  - intros H.
    assert (Hg : forall b, negb (rs_height (rs s) =? height) || (round <? rs_round (rs s)) || b
                           = true).
    { intros b. destruct H as [H|H].
      - rewrite (proj2 (Z.eqb_neq _ _) H). reflexivity.
      - rewrite (proj2 (Z.ltb_lt _ _) H). rewrite orb_true_r. reflexivity. }
    unfold enter_new_round, enter_propose, enter_prevote, enter_prevote_wait,
      enter_precommit, enter_precommit_wait.
    cbv beta iota delta [mbind M_bind get mret M_ret].
    rewrite !Hg. repeat split.
  - intros H. apply Z.eqb_neq in H.
    unfold enter_commit, finalize_commit, try_finalize_commit.
    cbv beta iota delta [mbind M_bind get mret M_ret mthrow M_throw].
    rewrite H. repeat split.
Qed.

(** ** The ticker *)

(** X6.  [schedule_timeout] always returns.  It either leaves the ticker
    as it is or stores the new timeout in [old_ti] and cancels and re-arms
    the timer for it; [old_ti] never moves back in the order on (height,
    round, step), and a timeout that is strictly later than [old_ti] is
    always taken. *)
Theorem schedule_timeout_never_moves_back
  (d height round : Z) (step : round_step_type) (s : consensus_state) :
  let ti := {| duration_ := d; ti_height := height; ti_round := round;
               ti_step := step_code step |} in
  exists s',
    schedule_timeout d height round step s = Ok tt s'
    /\ (s' = s
        \/ s' = with_ticker ti
                  [TimerCancel; TimerExpiresFromNow d; TimerAsyncWait ti] s)
    /\ ti_le (old_ti s) (old_ti s')
    /\ (ti_lt (old_ti s) ti -> old_ti s' = ti).
Proof.
  intros ti. pose proof (step_code_pos step) as Hp.
  unfold schedule_timeout, tick, ti_le, ti_lt. munfold. fold ti.
  cbn [ti_height ti_round ti_step duration_ ti].
  repeat match goal with
         | |- context [if ?b then _ else _] => destruct b eqn:?
         end;
    b2p; eexists; (split; [reflexivity|]);
    (split; [first [left; reflexivity | right; reflexivity]|]);
    cbn [old_ti with_ticker ti_height ti_round ti_step ti]; split;
    try (intros; reflexivity); try lia;
    try (intros [H'|[H1 [H'|[H2 H']]]]; exfalso; lia).
Qed.

(** ** Proposing *)

Lemma with_published_app (m1 m2 : list internal_msg) (s : consensus_state) :
  with_published m2 (with_published m1 s) = with_published (m1 ++ m2) s.
Proof. unfold with_published. cbn. rewrite app_assoc. reflexivity. Qed.

(** X4.  With a valid block, [decide_proposal(height, round)] publishes
    the proposal for the valid block, with [pol_round = rs.valid_round],
    once and then once more for every part of the block: the loop over the
    parts publishes the proposal again, not the part.  Without a valid block
    it publishes nothing (no block is created yet), and throws when there is
    no private validator. *)
Theorem decide_proposal_publishes (height round : Z) (s : consensus_state) :
  (forall block_ block_parts_,
     rs_valid_block (rs s) = Some block_ ->
     rs_valid_block_parts (rs s) = Some block_parts_ ->
     exists proposal_,
       p_height proposal_ = height
       /\ p_round proposal_ = round
       /\ p_pol_round proposal_ = rs_valid_round (rs s)
       /\ p_block_id proposal_
          = {| hash := get_hash block_; parts := header block_parts_ |}
       /\ decide_proposal height round s
          = Ok tt (with_published
                     (repeat (PublishedProposal proposal_)
                        (S (Z.to_nat (total block_parts_))))
                     s))
  /\ (rs_valid_block (rs s) = None ->
      (local_priv_validator s = None ->
       decide_proposal height round s
       = Throw "attempted to create proposal block with empty priv_validator" s)
      /\ (local_priv_validator s <> None ->
          rs_height (rs s) = initial_height (local_state s)
          \/ rs_last_commit (rs s) <> None ->
          decide_proposal height round s = Ok tt s)).
Proof.
  split.
  - intros block_ block_parts_ Hb Hp. unfold decide_proposal. munfold.
    rewrite Hb, Hp.
    exists {| p_height := height; p_round := round; p_pol_round := rs_valid_round (rs s);
              p_block_id := {| hash := get_hash block_; parts := header block_parts_ |};
              p_timestamp := now s |}.
    cbn [p_height p_round p_pol_round p_block_id].
    rewrite with_published_app. repeat split.
  - intros Hb. unfold decide_proposal. munfold. rewrite Hb. split.
    + intros ->. reflexivity.
    + intros Hpv Hc. destruct (local_priv_validator s); [|congruence].
      destruct (rs_height (rs s) =? initial_height (local_state s)) eqn:E; [reflexivity|].
      destruct Hc as [Hc|Hc]; [apply Z.eqb_neq in E; contradiction|].
      destruct (rs_last_commit (rs s)); [|congruence].
      destruct (has_two_thirds_majority v); reflexivity.
Qed.

(** ** [update_to_state] on a state that is not further out *)

(** X9.  When the local state is not empty and [state_] is not further out
    than it, [update_to_state(state_)] resets nothing: it either throws on
    one of its consistency checks, leaving the state as it was, or only
    signals a new step.  It signals the step whenever the checks pass. *)
Theorem update_to_state_ignores_stale_state (state_ : state) (s : consensus_state) :
  is_empty (local_state s) = false ->
  last_block_height state_ <= last_block_height (local_state s) ->
  (update_to_state state_ s = Ok tt (with_n_steps (S (n_steps s)) s)
   \/ exists what, update_to_state state_ s = Throw what s)
  /\ (rs_commit_round (rs s) <= -1 ->
      (0 < last_block_height (local_state s) ->
       last_block_height (local_state s) + 1 = rs_height (rs s)
       /\ rs_height (rs s) <> initial_height (local_state s)) ->
      update_to_state state_ s = Ok tt (with_n_steps (S (n_steps s)) s)).
Proof.
  intros He Hle.
  assert (Hl : (last_block_height state_ <=? last_block_height (local_state s)) = true)
    by (apply Z.leb_le; exact Hle).
  unfold update_to_state. munfold. rewrite He, Hl. cbn [negb andb].
  split.
  - repeat match goal with
           | |- context [if ?b then _ else _] => destruct b
           end;
      first [left; reflexivity | right; eexists; reflexivity].
  - intros Hc Hok.
    rewrite (proj2 (Z.ltb_ge _ _)) by lia. cbn [andb].
    destruct (0 <? last_block_height (local_state s)) eqn:E; cbn [andb]; [|reflexivity].
    b2p. destruct (Hok E) as [H1 H2].
    rewrite (proj2 (Z.eqb_eq _ _) H1), (proj2 (Z.eqb_neq _ _) H2). reflexivity.
Qed.

(** ** [new_state] *)

(** X10.  [new_state(config, state_)] for a [state_] with no block yet, on
    a freshly constructed object: it returns with the configuration and
    [state_] stored, at height [state_.initial_height], round 0, step
    NewHeight, with the validators of [state_], a new vote set for that
    height, no last commit, the round fields reset, and one new step
    signalled. *)
Theorem new_state_at_genesis
  (cs_config_ : consensus_config) (state_ : state) (s0 : consensus_state) :
  is_empty (local_state s0) = true ->
  rs_height (rs s0) <= 0 \/ rs_commit_round (rs s0) <= -1 ->
  last_block_height state_ = 0 ->
  exists s',
    new_state cs_config_ state_ s0 = Ok tt s'
    /\ cs_config s' = cs_config_
    /\ local_state s' = state_
    /\ rs_height (rs s') = initial_height state_
    /\ rs_round (rs s') = 0 /\ rs_step (rs s') = NewHeight
    /\ rs_validators (rs s') = Some (validators state_)
    /\ rs_last_validators (rs s') = Some (last_validators state_)
    /\ rs_votes (rs s')
       = Some (new_height_vote_set (chain_id state_) (initial_height state_)
                 (validators state_))
    /\ rs_last_commit (rs s') = None
    /\ reset_for state_ (rs s')
    /\ n_steps s' = S (n_steps s0)
    /\ timer s' = timer s0 /\ internal_mq s' = internal_mq s0.
Proof.
  intros He Hf Hl. unfold new_state, reconstruct_last_commit, update_to_state, reset_for.
  munfold. rewrite Hl. cbn [Z.ltb Z.compare Z.eqb Z.add Pos.eqb].
  cbn [with_config rs local_state]. rewrite He. cbn [negb andb].
  assert (Hg : (-1 <? rs_commit_round (rs s0)) && (0 <? rs_height (rs s0))
               && negb (rs_height (rs s0) =? 0) = false).
  { destruct Hf as [Hf|Hf].
    - rewrite (proj2 (Z.ltb_ge 0 _)) by lia. rewrite andb_false_r. reflexivity.
    - rewrite (proj2 (Z.ltb_ge (-1) _)) by lia. reflexivity. }
  rewrite Hg. eexists. split; [reflexivity|]. cbn. repeat split.
Qed.

(** X11.  [new_state] for a [state_] that has blocks
    ([last_block_height] not 0) throws on a freshly constructed object:
    [reconstruct_last_commit] does nothing, so [update_to_state] finds no
    votes and no last commit. *)
Theorem new_state_after_genesis_throws
  (cs_config_ : consensus_config) (state_ : state) (s0 : consensus_state) :
  is_empty (local_state s0) = true ->
  rs_votes (rs s0) = None ->
  rs_last_commit (rs s0) = None ->
  last_block_height state_ <> 0 ->
  new_state cs_config_ state_ s0
  = Throw "update_to_state() unexpected state height" (with_config cs_config_ s0)
  \/ new_state cs_config_ state_ s0
     = Throw "last commit cannot be empty after initial block"
         (with_rs (set_validators (Some (validators state_)) (rs s0))
            (with_config cs_config_ s0)).
Proof.
  intros He Hv Hlc Hl. unfold new_state, reconstruct_last_commit, update_to_state.
  munfold.
  destruct (0 <? last_block_height state_);
  (cbn [with_config rs local_state]; rewrite He, Hv, Hlc; cbn [negb andb has_value];
   rewrite (proj2 (Z.eqb_neq _ _) Hl); rewrite andb_false_r;
   destruct ((-1 <? rs_commit_round (rs s0)) && (0 <? rs_height (rs s0))
             && negb (rs_height (rs s0) =? last_block_height state_));
   [left; reflexivity|right; reflexivity]).
Qed.

(** ** Finalizing a commit *)

Lemma update_to_state_own_state_throws (s : consensus_state) :
  -1 < rs_commit_round (rs s) -> 0 < rs_height (rs s) ->
  is_empty (local_state s) = false ->
  exists what, update_to_state (local_state s) s = Throw what s.
Proof.
  intros Hc Hh He. unfold update_to_state. munfold.
  rewrite He. cbn [negb andb].
  rewrite (proj2 (Z.ltb_lt _ _) Hc), (proj2 (Z.ltb_lt _ _) Hh). cbn [andb].
  destruct (rs_height (rs s) =? last_block_height (local_state s)) eqn:E; cbn [negb].
  - b2p. rewrite <- E. rewrite (proj2 (Z.ltb_lt _ _) Hh). cbn [andb].
    rewrite (proj2 (Z.eqb_neq _ _)) by lia. cbn [negb].
    eexists; reflexivity.
  - eexists; reflexivity.
Qed.

(** X12.  [finalize_commit] cannot complete.  In step Commit with a commit
    round, a 2/3 majority of precommits for the proposal block and the
    matching part set, it passes its checks and then calls [update_to_state]
    with a copy of the local state, to which no block has been applied; that
    call throws, and the state is left as it was. *)
Theorem finalize_commit_throws
  (s : consensus_state) (votes : height_vote_set) (block_id_ : block_id)
  (block_ : block) (block_parts_ : part_set) :
  rs_step (rs s) = Commit ->
  -1 < rs_commit_round (rs s) -> 0 < rs_height (rs s) ->
  is_empty (local_state s) = false ->
  rs_votes (rs s) = Some votes ->
  two_thirds_majority (precommits votes (rs_commit_round (rs s))) = Some block_id_ ->
  rs_proposal_block (rs s) = Some block_ ->
  rs_proposal_block_parts (rs s) = Some block_parts_ ->
  has_header block_parts_ (parts block_id_) = true ->
  hashes_to block_ (hash block_id_) = true ->
  exists what, finalize_commit (rs_height (rs s)) s = Throw what s.
Proof.
  intros Hst Hc Hh He Hv Hm Hb Hbp Hhd Hhs.
  destruct (update_to_state_own_state_throws s Hc Hh He) as [w Hw].
  exists w. unfold finalize_commit.
  cbv beta iota zeta delta [mbind M_bind get mret M_ret mthrow M_throw access].
  rewrite Z.eqb_refl, Hst. cbn [negb orb step_eqb step_code Z.eqb Pos.eqb].
  rewrite Hv, Hm, Hbp, Hhd, Hb, Hhs. cbn [negb]. rewrite Hw. reflexivity.
Qed.

(** X13.  With a commit round set, [rs.height] positive and a local state
    that is not empty, [try_finalize_commit] and [finalize_commit] never
    advance the engine: whenever one of them returns, the state is the one
    it was called in. *)
Theorem try_finalize_commit_never_advances (height : Z) (s s' : consensus_state) :
  -1 < rs_commit_round (rs s) -> 0 < rs_height (rs s) ->
  is_empty (local_state s) = false ->
  try_finalize_commit height s = Ok tt s' \/ finalize_commit height s = Ok tt s' ->
  s' = s.
Proof.
  intros Hc Hh He.
  destruct (update_to_state_own_state_throws s Hc Hh He) as [w Hw].
  assert (Hf : finalize_commit height s = Ok tt s' -> s' = s).
  { unfold finalize_commit.
    cbv beta iota zeta delta [mbind M_bind get mret M_ret mthrow M_throw access].
    repeat match goal with
           | |- context [if ?b then _ else _] => destruct b
           | |- context [match ?o with Some _ => _ | None => _ end] => destruct o
           end; rewrite ?Hw; intros H; inversion H; reflexivity. }
  intros [H|H]; [|exact (Hf H)].
  revert H. unfold try_finalize_commit.
  cbv beta iota zeta delta [mbind M_bind get mret M_ret mthrow M_throw access].
  repeat match goal with
         | |- context [if ?b then _ else _] => destruct b
         | |- context [match ?o with Some _ => _ | None => _ end] => destruct o
         end; try exact Hf; intros H; inversion H; reflexivity.
Qed.

(** ** Votes and proposals that do not apply *)

(** X14.  [add_vote] returns true only for a prevote or a precommit of
    the current height that the height vote set accepted; in particular a
    precommit for the previous height is never reported as added. *)
Theorem add_vote_true_only_if_recorded
  (vote_ : vote) (peer_id : string) (s s' : consensus_state) :
  add_vote vote_ peer_id s = Ok true s' ->
  v_height vote_ = rs_height (rs s)
  /\ (v_type vote_ = MsgPrevote \/ v_type vote_ = MsgPrecommit)
  /\ exists votes,
       rs_votes (rs s) = Some votes
       /\ fst (hvs_add_vote vote_ peer_id votes) = true.
Proof.
  unfold add_vote.
  cbv beta iota zeta delta [mbind M_bind mret M_ret mthrow M_throw get modify modify_rs access].
  destruct ((v_height vote_ + 1 =? rs_height (rs s)) && is_precommit (v_type vote_)).
  { repeat match goal with
           | |- context [if ?b then _ else _] => destruct b
           | |- context [match ?o with Some _ => _ | None => _ end] => destruct o
           | |- context [match ?o with Ok _ _ => _ | Throw _ _ => _ | EmptyAccess => _ end] =>
               destruct o
           end; intros H; inversion H. }
  destruct (v_height vote_ =? rs_height (rs s)) eqn:Eh; cbn [negb];
    [|intros H; inversion H].
  apply Z.eqb_eq in Eh.
  destruct (rs_votes (rs s)) as [votes|]; [|intros H; inversion H].
  destruct (fst (hvs_add_vote vote_ peer_id votes)) eqn:Ea; cbn [negb];
    [|intros H; inversion H].
  intros H. split; [exact Eh|]. split.
  - destruct (v_type vote_); auto; discriminate.
  - exists votes. split; [reflexivity|exact Ea].
Qed.

(** X15.  [set_proposal(msg)] always returns and causes no transition:
    height, round, step, votes, the proposal block and the signalled steps
    are unchanged, and a part set that is present is kept.  When it changes
    the state, [msg] is the stored proposal, it is for [rs.height] and
    [rs.round], and its [pol_round] is -1 or in [0, round). *)
Theorem set_proposal_stores_only_valid_proposals
  (msg : proposal_message) (s : consensus_state) :
  exists s',
    set_proposal msg s = Ok tt s'
    /\ (s' = s
        \/ (rs_proposal (rs s') = Some msg
            /\ p_height msg = rs_height (rs s)
            /\ p_round msg = rs_round (rs s)
            /\ -1 <= p_pol_round msg
            /\ (p_pol_round msg = -1 \/ p_pol_round msg < p_round msg)))
    /\ rs_height (rs s') = rs_height (rs s)
    /\ rs_round (rs s') = rs_round (rs s)
    /\ rs_step (rs s') = rs_step (rs s)
    /\ rs_votes (rs s') = rs_votes (rs s)
    /\ rs_proposal_block (rs s') = rs_proposal_block (rs s)
    /\ (forall ps, rs_proposal_block_parts (rs s) = Some ps ->
                   rs_proposal_block_parts (rs s') = Some ps)
    /\ n_steps s' = n_steps s /\ timer s' = timer s /\ internal_mq s' = internal_mq s.
Proof.
  unfold set_proposal. munfold.
  destruct (negb (has_value (rs_proposal (rs s))));
    [eexists; split; [reflexivity|]; repeat split; auto|].
  destruct (negb (p_height msg =? rs_height (rs s))
            || negb (p_round msg =? rs_round (rs s))) eqn:E1;
    [eexists; split; [reflexivity|]; repeat split; auto|].
  destruct ((p_pol_round msg <? -1)
            || (0 <=? p_pol_round msg) && (p_round msg <=? p_pol_round msg)) eqn:E2;
    [eexists; split; [reflexivity|]; repeat split; auto|].
  assert (Hvalid : p_height msg = rs_height (rs s) /\ p_round msg = rs_round (rs s)
                   /\ -1 <= p_pol_round msg
                   /\ (p_pol_round msg = -1 \/ p_pol_round msg < p_round msg)).
  { b2p; repeat split; try assumption; try lia. }
  destruct (rs_proposal_block_parts (rs s)) as [ps|] eqn:Eps; cbn [has_value negb];
    (eexists; split; [reflexivity|]); mstate;
    (split; [right; split; [reflexivity|exact Hvalid]|]);
    cbn; rewrite ?Eps; repeat split; auto; intros; congruence.
Qed.

(** ** The round state only moves forward on timeouts *)

Lemma rs_le_refl (r : round_state) : rs_le r r.
Proof. unfold rs_le. split; [reflexivity|right; split; [reflexivity|lia]]. Qed.

Lemma rs_le_trans (a b c : round_state) : rs_le a b -> rs_le b c -> rs_le a c.
Proof. unfold rs_le. intros [H1 H2] [H3 H4]. split; [congruence|lia]. Qed.

(** Entering [step] of [round] from a state that passes the guard. *)
Lemma rs_le_step (r : round_state) (round : Z) (step : round_step_type) (r' : round_state) :
  (round <? rs_round r) || ((rs_round r =? round) && step_le step (rs_step r)) = false ->
  rs_height r' = rs_height r -> rs_round r' = round -> rs_step r' = step ->
  rs_le r r'.
Proof.
  unfold rs_le, step_le. intros H Hh Hr Hs. rewrite Hh, Hr, Hs.
  split; [reflexivity|].
  apply orb_false_iff in H. destruct H as [H1 H2]. apply Z.ltb_ge in H1.
  destruct (rs_round r =? round) eqn:E.
  - apply Z.eqb_eq in E. cbn [andb] in H2. apply Z.leb_gt in H2. right. lia.
  - apply Z.eqb_neq in E. left. lia.
Qed.

Lemma sign_add_vote_rs (t : signed_msg_type) (hash_ : bytes)
  (header_ : part_set_header) (s s' : consensus_state) :
  sign_add_vote t hash_ header_ s = Ok tt s' -> rs s' = rs s.
Proof. intros H. apply sign_add_vote_frame in H. subst s'. reflexivity. Qed.

Lemma do_prevote_rs (height round : Z) (s s' : consensus_state) :
  do_prevote height round s = Ok tt s' -> rs s' = rs s.
Proof.
  unfold do_prevote. munfold.
  repeat match goal with
         | |- context [match ?o with Some _ => _ | None => _ end] => destruct o
         end; try discriminate; apply sign_add_vote_rs.
Qed.

Lemma enter_prevote_forward (height round : Z) (s s' : consensus_state) :
  enter_prevote height round s = Ok tt s' -> rs_le (rs s) (rs s').
Proof.
  unfold enter_prevote. munfold.
  destruct (negb (rs_height (rs s) =? height)) eqn:Eh; cbn [orb].
  { intros H; inversion H; apply rs_le_refl. }
  match goal with |- context [if ?b then _ else _] => destruct b eqn:Eg end.
  { intros H; inversion H; apply rs_le_refl. }
  destruct (do_prevote height round s) as [[] s1| |] eqn:Ed; try discriminate.
  intros H; inversion H; subst; clear H. apply do_prevote_rs in Ed.
  mstate. rewrite Ed. apply (rs_le_step _ round Prevote); [exact Eg|reflexivity..].
Qed.

Lemma is_proposal_complete_same (s s' : consensus_state) (b : bool) :
  is_proposal_complete s = Ok b s' -> s' = s.
Proof.
  unfold is_proposal_complete. munfold.
  repeat match goal with
         | |- context [match ?o with Some _ => _ | None => _ end] => destruct o
         | |- context [if ?b then _ else _] => destruct b
         end; intros H; inversion H; reflexivity.
Qed.

Lemma decide_proposal_rs (height round : Z) (s s' : consensus_state) :
  decide_proposal height round s = Ok tt s' -> rs s' = rs s.
Proof.
  unfold decide_proposal. munfold.
  repeat match goal with
         | |- context [match ?o with Some _ => _ | None => _ end] => destruct o
         | |- context [if ?b then _ else _] => destruct b
         end; intros H; inversion H; reflexivity.
Qed.

Lemma tick_rs (ti : timeout_info) (s s' : consensus_state) :
  tick ti s = Ok tt s' -> rs s' = rs s.
Proof.
  destruct (tick_cases ti s) as [H|H]; rewrite H; intros E; inversion E; reflexivity.
Qed.

Lemma scoped_exit_ok (d body : M unit) (s s' : consensus_state) :
  scoped_exit d body s = Ok tt s' ->
  exists s1, body s = Ok tt s1 /\ d s1 = Ok tt s'.
Proof.
  unfold scoped_exit. destruct (body s) as [[] s1| |].
  - intros H. exists s1. split; [reflexivity|exact H].
  - destruct (d s0); discriminate.
  - discriminate.
Qed.

Lemma enter_propose_forward (height round : Z) (s s' : consensus_state) :
  enter_propose height round s = Ok tt s' -> rs_le (rs s) (rs s').
Proof.
  unfold enter_propose.
  cbv beta iota delta [mbind M_bind get].
  destruct (negb (rs_height (rs s) =? height)) eqn:Eh; cbn [orb].
  { intros H; inversion H; apply rs_le_refl. }
  match goal with |- context [if ?b then _ else _] => destruct b eqn:Eg end.
  { intros H; inversion H; apply rs_le_refl. }
  intros H. apply scoped_exit_ok in H. destruct H as (s1 & Hb & Hd).
  assert (Hbody : rs s1 = rs s).
  { revert Hb. unfold schedule_timeout.
    cbv beta iota delta [mbind M_bind mret M_ret access].
    match goal with
    | |- context [tick ?ti s] => destruct (tick ti s) as [[] s0| |] eqn:Et
    end; try discriminate.
    apply tick_rs in Et.
    destruct (local_priv_validator s); [|intros H; inversion H; subst; exact Et].
    destruct (bytes_empty (local_priv_validator_pub_key s));
      [intros H; inversion H; subst; exact Et|].
    destruct (rs_validators (rs s)) as [vals|]; [|discriminate].
    destruct (negb (has_address vals (address (local_priv_validator_pub_key s))));
      [intros H; inversion H; subst; exact Et|].
    unfold is_proposal. cbv beta iota delta [mbind M_bind mret M_ret access get].
    destruct (rs_validators (rs s0)); [|discriminate].
    match goal with |- context [if ?b then _ else _] => destruct b end;
      [|intros H; inversion H; subst; exact Et].
    intros H. apply decide_proposal_rs in H. congruence. }
  clear Hb. revert Hd. munfold. mstate.
  match goal with
  | |- context [is_proposal_complete ?st] =>
      destruct (is_proposal_complete st) as [b s2| |] eqn:Ec; try discriminate;
      apply is_proposal_complete_same in Ec; subst s2
  end.
  assert (Hstep : rs_le (rs s) (set_round_step round Propose (rs s1))).
  { apply (rs_le_step _ round Propose); [exact Eg| |reflexivity..].
    cbn. rewrite Hbody. reflexivity. }
  destruct b.
  - mstate. intros H. apply enter_prevote_forward in H. mstate.
    exact (rs_le_trans _ _ _ Hstep H).
  - intros H; inversion H; subst. mstate. exact Hstep.
Qed.

Lemma enter_new_round_forward (height round : Z) (s s' : consensus_state) :
  enter_new_round height round s = Ok tt s' -> rs_le (rs s) (rs s').
Proof.
  unfold enter_new_round. munfold.
  destruct (negb (rs_height (rs s) =? height)) eqn:Eh; cbn [orb].
  { intros H; inversion H; apply rs_le_refl. }
  match goal with |- context [if ?b then _ else _] => destruct b eqn:Eg end.
  { intros H; inversion H; apply rs_le_refl. }
  assert (Hle : forall r', rs_height r' = rs_height (rs s) -> rs_round r' = round ->
                           rs_le (rs s) r').
  { intros r' Hh Hr. unfold rs_le. rewrite Hh, Hr. split; [reflexivity|].
    apply orb_false_iff in Eg. destruct Eg as [E1 E2]. apply Z.ltb_ge in E1.
    destruct (rs_round (rs s) =? round) eqn:E.
    - cbn [andb] in E2. apply negb_false_iff in E2. unfold step_eqb in E2.
      apply Z.eqb_eq in E2. apply Z.eqb_eq in E. right. split; [exact E|].
      rewrite E2. pose proof (step_code_pos (rs_step r')). simpl. lia.
    - apply Z.eqb_neq in E. left. lia. }
  destruct (rs_votes (rs s)) as [votes|]; [|
    repeat match goal with
           | |- context [if ?b then _ else _] => destruct b
           | |- context [match ?o with Some _ => _ | None => _ end] => destruct o
           end; discriminate].
  destruct (rs_round (rs s) <? round);
    [destruct (rs_validators (rs s)) as [vals|]; [|discriminate]|];
    destruct (round =? 0); mstate;
    intros H; apply enter_propose_forward in H;
    (eapply rs_le_trans; [|exact H]); apply Hle; reflexivity.
Qed.

Lemma enter_precommit_forward (height round : Z) (s s' : consensus_state) :
  enter_precommit height round s = Ok tt s' -> rs_le (rs s) (rs s').
Proof.
  unfold enter_precommit. munfold.
  destruct (negb (rs_height (rs s) =? height)) eqn:Eh; cbn [orb].
  { intros H; inversion H; apply rs_le_refl. }
  match goal with |- context [if ?b then _ else _] => destruct b eqn:Eg end.
  { intros H; inversion H; apply rs_le_refl. }
  intros H.
  repeat match type of H with
         | context [match ?o with Some _ => _ | None => _ end] => destruct o
         | context [if ?b then _ else _] => destruct b
         | context [sign_add_vote ?t ?h ?p ?st] =>
             let E := fresh "E" in
             destruct (sign_add_vote t h p st) as [[] ?s| |] eqn:E;
             [apply sign_add_vote_rs in E|..]
         end; try discriminate;
    inversion H; subst; clear H; mstate;
    apply (rs_le_step _ round Precommit); try exact Eg;
    cbn; repeat match goal with E : rs _ = _ |- _ => rewrite E; clear E end; reflexivity.
Qed.

(** X7.  A timeout never takes the round state back: whenever
    [handle_timeout(ti)] returns, [rs.height] is unchanged and (rs.round,
    rs.step) is at or after what it was. *)
Theorem handle_timeout_moves_forward (ti : timeout_info) (s s' : consensus_state) :
  handle_timeout ti s = Ok tt s' -> rs_le (rs s) (rs s').
Proof.
  unfold handle_timeout. munfold.
  destruct (timeout_ignored ti (rs s)).
  { intros H; inversion H; apply rs_le_refl. }
  unfold timeout_dispatch. munfold.
  destruct (step_of_code (ti_step ti)) as [[]|]; try discriminate.
  - apply enter_new_round_forward.
  - apply enter_propose_forward.
  - apply enter_prevote_forward.
  - apply enter_precommit_forward.
  - destruct (enter_precommit (ti_height ti) (ti_round ti) s) as [[] s1| |] eqn:E;
      try discriminate.
    intros H. apply enter_precommit_forward in E. apply enter_new_round_forward in H.
    exact (rs_le_trans _ _ _ E H).
Qed.

(** ** Skipping to a later round *)

Lemma enter_propose_incomplete (height round : Z) (s s' : consensus_state) :
  negb (rs_height (rs s) =? height) || (round <? rs_round (rs s))
  || ((rs_round (rs s) =? round) && step_le Propose (rs_step (rs s))) = false ->
  rs_proposal (rs s) = None \/ rs_proposal_block (rs s) = None ->
  enter_propose height round s = Ok tt s' ->
  rs s' = set_round_step round Propose (rs s).
Proof.
  intros Hg Hp. unfold enter_propose.
  cbv beta iota delta [mbind M_bind get]. rewrite Hg.
  intros H. apply scoped_exit_ok in H. destruct H as (s1 & Hb & Hd).
  assert (Hbody : rs s1 = rs s).
  { revert Hb. unfold schedule_timeout.
    cbv beta iota delta [mbind M_bind mret M_ret access].
    match goal with
    | |- context [tick ?ti s] => destruct (tick ti s) as [[] s0| |] eqn:Et
    end; try discriminate.
    apply tick_rs in Et.
    destruct (local_priv_validator s); [|intros H; inversion H; subst; exact Et].
    destruct (bytes_empty (local_priv_validator_pub_key s));
      [intros H; inversion H; subst; exact Et|].
    destruct (rs_validators (rs s)) as [vals|]; [|discriminate].
    destruct (negb (has_address vals (address (local_priv_validator_pub_key s))));
      [intros H; inversion H; subst; exact Et|].
    unfold is_proposal. cbv beta iota delta [mbind M_bind mret M_ret access get].
    destruct (rs_validators (rs s0)); [|discriminate].
    match goal with |- context [if ?b then _ else _] => destruct b end;
      [|intros H; inversion H; subst; exact Et].
    intros H. apply decide_proposal_rs in H. congruence. }
  clear Hb. revert Hd. unfold is_proposal_complete. munfold. mstate.
  rewrite Hbody. cbn [rs_proposal rs_proposal_block set_round_step].
  destruct Hp as [Hp|Hp]; rewrite Hp.
  - intros H; inversion H; subst. reflexivity.
  - destruct (rs_proposal (rs s)); intros H; inversion H; subst; reflexivity.
Qed.

(** X8.  [enter_new_round(rs.height, round)] for a round after the current
    one returns in step Propose of [round]: the proposer priority of the
    validators is incremented by [round - rs.round], the proposal, the
    proposal block and its parts are cleared, the votes are told the round
    [round + 1], [triggered_timeout_precommit] is false, and the lock, the
    valid block and the commit round are left as they were. *)
Theorem enter_new_round_skips_to_later_round
  (s : consensus_state) (round : Z) (votes : height_vote_set) (vals : validator_set) :
  0 <= rs_round (rs s) < round ->
  pointers_set (rs s) ->
  rs_votes (rs s) = Some votes ->
  rs_validators (rs s) = Some vals ->
  exists s',
    enter_new_round (rs_height (rs s)) round s = Ok tt s'
    /\ rs_height (rs s') = rs_height (rs s)
    /\ rs_round (rs s') = round
    /\ rs_step (rs s') = Propose
    /\ rs_validators (rs s')
       = Some (increment_proposer_priority (round - rs_round (rs s)) vals)
    /\ rs_proposal (rs s') = None
    /\ rs_proposal_block (rs s') = None
    /\ rs_proposal_block_parts (rs s') = None
    /\ rs_votes (rs s') = Some (set_round (round + 1) votes)
    /\ rs_triggered_timeout_precommit (rs s') = false
    /\ rs_locked_round (rs s') = rs_locked_round (rs s)
    /\ rs_locked_block (rs s') = rs_locked_block (rs s)
    /\ rs_valid_round (rs s') = rs_valid_round (rs s)
    /\ rs_valid_block (rs s') = rs_valid_block (rs s)
    /\ rs_commit_round (rs s') = rs_commit_round (rs s).
Proof.
  intros Hr Hp Hv Hvals.
  destruct (enter_new_round_returns (rs_height (rs s)) round s Hp) as (s' & Hok & _).
  exists s'. split; [exact Hok|].
  revert Hok. unfold enter_new_round. munfold.
  rewrite Z.eqb_refl. cbn [negb orb].
  rewrite (proj2 (Z.ltb_ge round _)) by lia.
  rewrite (proj2 (Z.eqb_neq (rs_round (rs s)) round)) by lia. cbn [andb orb].
  rewrite (proj2 (Z.ltb_lt _ _)) by lia.
  rewrite Hvals, Hv. rewrite (proj2 (Z.eqb_neq round 0)) by lia. mstate.
  intros H. apply enter_propose_incomplete in H.
  - rewrite H. cbn. repeat split.
  - cbn. rewrite !Z.eqb_refl. cbn. rewrite Z.ltb_irrefl. reflexivity.
  - left. reflexivity.
Qed.

(** ** The engine stays at its height *)

Lemma keeps_height_refl (s : consensus_state) : keeps_height s s.
Proof. split; reflexivity. Qed.

Lemma keeps_height_trans (a b c : consensus_state) :
  keeps_height a b -> keeps_height b c -> keeps_height a c.
Proof. unfold keeps_height. intros [H1 H2] [H3 H4]. split; congruence. Qed.

(** Reads the equations of [keeps_height] in the hypotheses down to the
    fields, and closes the goal with them. *)
Ltac keeps :=
  unfold keeps_height in *;
  cbn [rs with_rs with_local_state with_pub_key with_ticker with_published
       with_n_steps with_config local_state rs_height set_height set_round_step
       set_commit set_validators set_proposal_field set_proposal_block set_locked
       set_valid set_votes set_commit_round set_last_commit set_last_validators
       set_triggered_timeout_precommit voted stepped committed] in *;
  repeat match goal with H : _ /\ _ |- _ => destruct H end;
  first [ split; congruence | congruence ].

Lemma tick_keeps (ti : timeout_info) (s s' : consensus_state) :
  tick ti s = Ok tt s' -> keeps_height s s'.
Proof.
  destruct (tick_cases ti s) as [H|H]; rewrite H; intros E; inversion E; subst; keeps.
Qed.

Lemma sign_add_vote_keeps (t : signed_msg_type) (hash_ : bytes)
  (header_ : part_set_header) (s s' : consensus_state) :
  sign_add_vote t hash_ header_ s = Ok tt s' -> keeps_height s s'.
Proof. intros H. apply sign_add_vote_frame in H. subst s'. keeps. Qed.

(** Case analysis on a run [H : m s = Ok a s'], with the runs of the
    functions already treated named and turned into [keeps_height]. *)
Ltac run_cases H :=
  repeat match type of H with
         | context [sign_add_vote ?t ?h ?p ?st] =>
             let E := fresh "E" in
             destruct (sign_add_vote t h p st) as [[] ?s| |] eqn:E;
             [apply sign_add_vote_keeps in E|..]
         | context [tick ?ti ?st] =>
             let E := fresh "E" in
             destruct (tick ti st) as [[] ?s| |] eqn:E; [apply tick_keeps in E|..]
         | context [match ?o with Some _ => _ | None => _ end] => destruct o
         | context [if ?b then _ else _] => destruct b
         end; try discriminate.

Lemma do_prevote_keeps (height round : Z) (s s' : consensus_state) :
  do_prevote height round s = Ok tt s' -> keeps_height s s'.
Proof.
  unfold do_prevote. munfold. intros H. run_cases H;
    inversion H; subst; keeps.
Qed.

Lemma enter_prevote_keeps (height round : Z) (s s' : consensus_state) :
  enter_prevote height round s = Ok tt s' -> keeps_height s s'.
Proof.
  unfold enter_prevote. cbv beta iota delta [mbind M_bind get mret M_ret].
  match goal with |- context [if ?b then _ else _] => destruct b end.
  { intros H; inversion H; apply keeps_height_refl. }
  intros H. apply scoped_exit_ok in H. destruct H as (s1 & Hb & Hd).
  apply do_prevote_keeps in Hb. munfold. inversion Hd; subst. keeps.
Qed.

Lemma decide_proposal_keeps (height round : Z) (s s' : consensus_state) :
  decide_proposal height round s = Ok tt s' -> keeps_height s s'.
Proof.
  unfold decide_proposal. munfold. intros H. run_cases H; inversion H; subst; keeps.
Qed.

Lemma enter_propose_keeps (height round : Z) (s s' : consensus_state) :
  enter_propose height round s = Ok tt s' -> keeps_height s s'.
Proof.
  unfold enter_propose. cbv beta iota delta [mbind M_bind get mret M_ret].
  match goal with |- context [if ?b then _ else _] => destruct b end.
  { intros H; inversion H; apply keeps_height_refl. }
  intros H. apply scoped_exit_ok in H. destruct H as (s1 & Hb & Hd).
  assert (Hbody : keeps_height s s1).
  { revert Hb. unfold schedule_timeout, is_proposal.
    cbv beta iota delta [mbind M_bind mret M_ret access get]. intros Hb.
    run_cases Hb;
      try (inversion Hb; subst; keeps);
      try (apply decide_proposal_keeps in Hb; keeps). }
  clear Hb. revert Hd. munfold.
  match goal with
  | |- context [is_proposal_complete ?st] =>
      destruct (is_proposal_complete st) as [b s2| |] eqn:Ec; try discriminate;
      apply is_proposal_complete_same in Ec; subst s2
  end.
  destruct b.
  - intros H. apply enter_prevote_keeps in H. keeps.
  - intros H; inversion H; subst. keeps.
Qed.

Lemma enter_new_round_keeps (height round : Z) (s s' : consensus_state) :
  enter_new_round height round s = Ok tt s' -> keeps_height s s'.
Proof.
  unfold enter_new_round. munfold.
  match goal with |- context [if ?b then _ else _] => destruct b end.
  { intros H; inversion H; apply keeps_height_refl. }
  intros H.
  repeat match type of H with
         | context [match ?o with Some _ => _ | None => _ end] => destruct o
         | context [if ?b then _ else _] => destruct b
         end; try discriminate;
    apply enter_propose_keeps in H; keeps.
Qed.

Lemma enter_prevote_wait_keeps (height round : Z) (s s' : consensus_state) :
  enter_prevote_wait height round s = Ok tt s' -> keeps_height s s'.
Proof.
  unfold enter_prevote_wait, schedule_timeout. munfold. intros H.
  run_cases H; inversion H; subst; keeps.
Qed.

Lemma enter_precommit_wait_keeps (height round : Z) (s s' : consensus_state) :
  enter_precommit_wait height round s = Ok tt s' -> keeps_height s s'.
Proof.
  unfold enter_precommit_wait, schedule_timeout. munfold. intros H.
  run_cases H; inversion H; subst; keeps.
Qed.

Lemma enter_precommit_keeps (height round : Z) (s s' : consensus_state) :
  enter_precommit height round s = Ok tt s' -> keeps_height s s'.
Proof.
  unfold enter_precommit. munfold. intros H.
  run_cases H; inversion H; subst; keeps.
Qed.

Lemma update_to_state_own_state_keeps (s s' : consensus_state) :
  is_empty (local_state s) = false ->
  update_to_state (local_state s) s = Ok tt s' -> keeps_height s s'.
Proof.
  intros He. unfold update_to_state. munfold. rewrite He. cbn [negb andb].
  rewrite Z.leb_refl. intros H.
  repeat match type of H with
         | context [if ?b then _ else _] => destruct b
         end; try discriminate; inversion H; subst; keeps.
Qed.

Lemma finalize_commit_keeps (height : Z) (s s' : consensus_state) :
  is_empty (local_state s) = false ->
  finalize_commit height s = Ok tt s' -> keeps_height s s'.
Proof.
  intros He. unfold finalize_commit, update_priv_validator_pub_key, schedule_round_0,
    schedule_timeout.
  cbv beta iota zeta delta [mbind M_bind get mret M_ret mthrow M_throw access modify].
  intros H.
  repeat match type of H with
         | context [update_to_state ?st ?s0] =>
             let E := fresh "E" in
             destruct (update_to_state st s0) as [[] ?s| |] eqn:E;
             [apply (update_to_state_own_state_keeps _ _ He) in E|..]
         | context [tick ?ti ?st] =>
             let E := fresh "E" in
             destruct (tick ti st) as [[] ?s| |] eqn:E; [apply tick_keeps in E|..]
         | context [match ?o with Some _ => _ | None => _ end] => destruct o
         | context [if ?b then _ else _] => destruct b
         end; try discriminate; inversion H; subst; keeps.
Qed.

Lemma try_finalize_commit_keeps (height : Z) (s s' : consensus_state) :
  is_empty (local_state s) = false ->
  try_finalize_commit height s = Ok tt s' -> keeps_height s s'.
Proof.
  intros He. unfold try_finalize_commit.
  cbv beta iota zeta delta [mbind M_bind get mret M_ret mthrow M_throw access].
  intros H.
  repeat match type of H with
         | context [match ?o with Some _ => _ | None => _ end] => destruct o
         | context [if ?b then _ else _] => destruct b
         end; try discriminate;
    first [ apply (finalize_commit_keeps _ _ _ He) in H; exact H
          | inversion H; subst; apply keeps_height_refl ].
Qed.

Lemma enter_commit_keeps (height round : Z) (s s' : consensus_state) :
  is_empty (local_state s) = false ->
  enter_commit height round s = Ok tt s' -> keeps_height s s'.
Proof.
  intros He. unfold enter_commit. cbv beta iota delta [mbind M_bind get mret M_ret].
  match goal with |- context [if ?b then _ else _] => destruct b end.
  { intros H; inversion H; apply keeps_height_refl. }
  intros H. apply scoped_exit_ok in H. destruct H as (s1 & Hb & Hd).
  assert (Hbody : keeps_height s s1).
  { revert Hb. munfold. intros Hb.
    repeat match type of Hb with
           | context [match ?o with Some _ => _ | None => _ end] => destruct o
           | context [if ?b then _ else _] => destruct b
           end; try discriminate; inversion Hb; subst; keeps. }
  clear Hb. revert Hd. munfold. intros Hd.
  apply try_finalize_commit_keeps in Hd.
  - keeps.
  - mstate. destruct Hbody as [_ Hl]. rewrite Hl. exact He.
Qed.

Lemma set_proposal_keeps (msg : proposal_message) (s s' : consensus_state) :
  set_proposal msg s = Ok tt s' -> keeps_height s s'.
Proof.
  unfold set_proposal. munfold. intros H.
  repeat match type of H with
         | context [if ?b then _ else _] => destruct b
         end; inversion H; subst; keeps.
Qed.

Lemma is_empty_kept (s s1 : consensus_state) :
  is_empty (local_state s) = false -> keeps_height s s1 ->
  is_empty (local_state s1) = false.
Proof. intros He [_ Hl]. rewrite Hl. exact He. Qed.

Lemma add_vote_prevote_keeps (vote_ : vote) (height : Z) (s s' : consensus_state) :
  add_vote_prevote vote_ height s = Ok tt s' -> keeps_height s s'.
Proof.
  unfold add_vote_prevote.
  cbv beta iota zeta delta [mbind M_bind get mret M_ret mthrow M_throw access modify modify_rs].
  intros H.
  repeat match type of H with
         | context [is_proposal_complete ?st] =>
             let E := fresh "E" in
             destruct (is_proposal_complete st) as [? ?s| |] eqn:E;
             [apply is_proposal_complete_same in E; subst|..]
         | context [match ?o with Some _ => _ | None => _ end] => destruct o
         | context [if ?b then _ else _] => destruct b
         end; try discriminate;
    first [ apply enter_new_round_keeps in H
          | apply enter_precommit_keeps in H
          | apply enter_prevote_wait_keeps in H
          | apply enter_prevote_keeps in H
          | inversion H; subst ];
    keeps.
Qed.

Lemma add_vote_precommit_keeps (vote_ : vote) (height : Z) (s s' : consensus_state) :
  is_empty (local_state s) = false ->
  add_vote_precommit vote_ height s = Ok tt s' -> keeps_height s s'.
Proof.
  intros He. unfold add_vote_precommit.
  cbv beta iota zeta delta [mbind M_bind get mret M_ret mthrow M_throw access].
  destruct (rs_votes (rs s)) as [votes|]; [|discriminate].
  destruct (two_thirds_majority (precommits votes (v_round vote_))) as [bid|].
  - destruct (enter_new_round height (v_round vote_) s) as [[] s1| |] eqn:E1;
      try discriminate.
    apply enter_new_round_keeps in E1.
    destruct (enter_precommit height (v_round vote_) s1) as [[] s2| |] eqn:E2;
      try discriminate.
    apply enter_precommit_keeps in E2.
    pose proof (keeps_height_trans _ _ _ E1 E2) as K2.
    destruct (negb (bytes_empty (hash bid))).
    + destruct (enter_commit height (v_round vote_) s2) as [[] s3| |] eqn:E3;
        try discriminate.
      apply enter_commit_keeps in E3; [|exact (is_empty_kept _ _ He K2)].
      pose proof (keeps_height_trans _ _ _ K2 E3) as K3.
      destruct (skip_timeout_commit (cs_config s) && has_all (precommits votes (v_round vote_))).
      * intros H. apply enter_new_round_keeps in H.
        exact (keeps_height_trans _ _ _ K3 H).
      * intros H; inversion H; subst. exact K3.
    + intros H. apply enter_precommit_wait_keeps in H.
      exact (keeps_height_trans _ _ _ K2 H).
  - destruct ((rs_round (rs s) <=? v_round vote_)
              && has_two_thirds_any (precommits votes (v_round vote_))).
    + destruct (enter_new_round height (v_round vote_) s) as [[] s1| |] eqn:E1;
        try discriminate.
      apply enter_new_round_keeps in E1.
      intros H. apply enter_precommit_wait_keeps in H.
      exact (keeps_height_trans _ _ _ E1 H).
    + intros H; inversion H; subst. apply keeps_height_refl.
Qed.

Lemma add_vote_keeps (vote_ : vote) (peer_id : string) (added : bool)
  (s s' : consensus_state) :
  is_empty (local_state s) = false ->
  add_vote vote_ peer_id s = Ok added s' -> keeps_height s s'.
Proof.
  intros He. unfold add_vote.
  cbv beta iota zeta delta [mbind M_bind get mret M_ret mthrow M_throw access modify modify_rs].
  destruct ((v_height vote_ + 1 =? rs_height (rs s)) && is_precommit (v_type vote_)).
  { destruct (negb (step_eqb (rs_step (rs s)) NewHeight));
      [intros H; inversion H; subst; apply keeps_height_refl|].
    destruct (rs_last_commit (rs s)) as [lc|]; [|discriminate].
    destruct (negb (fst (vs_add_vote vote_ lc)));
      [intros H; inversion H; subst; keeps|].
    destruct (skip_timeout_commit (cs_config s) && has_all (snd (vs_add_vote vote_ lc))).
    - match goal with
      | |- context [enter_new_round ?h ?r ?st] =>
          destruct (enter_new_round h r st) as [[] s1| |] eqn:E1; try discriminate
      end.
      apply enter_new_round_keeps in E1.
      intros H; inversion H; subst. keeps.
    - intros H; inversion H; subst. keeps. }
  destruct (negb (v_height vote_ =? rs_height (rs s)));
    [intros H; inversion H; subst; apply keeps_height_refl|].
  destruct (rs_votes (rs s)) as [votes|]; [|discriminate].
  destruct (negb (fst (hvs_add_vote vote_ peer_id votes)));
    [intros H; inversion H; subst; keeps|].
  destruct (v_type vote_); try discriminate.
  - match goal with
    | |- context [add_vote_prevote ?v ?h ?st] =>
        destruct (add_vote_prevote v h st) as [[] s1| |] eqn:E1; try discriminate
    end.
    apply add_vote_prevote_keeps in E1.
    intros H; inversion H; subst. keeps.
  - match goal with
    | |- context [add_vote_precommit ?v ?h ?st] =>
        destruct (add_vote_precommit v h st) as [[] s1| |] eqn:E1; try discriminate
    end.
    apply add_vote_precommit_keeps in E1; [|exact He].
    intros H; inversion H; subst. keeps.
Qed.

Lemma handle_timeout_keeps (ti : timeout_info) (s s' : consensus_state) :
  handle_timeout ti s = Ok tt s' -> keeps_height s s'.
Proof.
  unfold handle_timeout. munfold.
  destruct (timeout_ignored ti (rs s)).
  { intros H; inversion H; apply keeps_height_refl. }
  unfold timeout_dispatch. munfold.
  destruct (step_of_code (ti_step ti)) as [[]|]; try discriminate.
  - apply enter_new_round_keeps.
  - apply enter_propose_keeps.
  - apply enter_prevote_keeps.
  - apply enter_precommit_keeps.
  - destruct (enter_precommit (ti_height ti) (ti_round ti) s) as [[] s1| |] eqn:E;
      try discriminate.
    intros H. apply enter_precommit_keeps in E. apply enter_new_round_keeps in H.
    exact (keeps_height_trans _ _ _ E H).
Qed.

(** X27.  The engine never leaves its height.  From a state whose local
    state is not empty, after any sequence of votes, proposals and timeouts,
    each handled to its return, [rs.height] and [local_state] are what they
    were: [finalize_commit] gives [update_to_state] a copy of the local
    state to which no block has been applied, so the reset for the next
    height is never made. *)
Theorem engine_never_leaves_its_height (s0 s : consensus_state) :
  is_empty (local_state s0) = false ->
  reaches s0 s ->
  rs_height (rs s) = rs_height (rs s0) /\ local_state s = local_state s0.
Proof.
  intros He Hr. change (keeps_height s0 s).
  induction Hr as [|s s' msg peer_id added Hr IH Hstep
                   |s s' msg Hr IH Hstep
                   |s s' ti Hr IH Hstep].
  - apply keeps_height_refl.
  - apply (keeps_height_trans _ _ _ IH). unfold try_add_vote in Hstep.
    apply (add_vote_keeps _ _ _ _ _ (is_empty_kept _ _ He IH) Hstep).
  - apply (keeps_height_trans _ _ _ IH). apply (set_proposal_keeps _ _ _ Hstep).
  - apply (keeps_height_trans _ _ _ IH). apply (handle_timeout_keeps _ _ _ Hstep).
Qed.

(** X28.  With the pointers of the round state set, [handle_timeout] for
    a timeout of step NewHeight, NewRound or Propose returns: it neither
    throws nor reads an empty optional, and it leaves the pointers set. *)
Theorem handle_timeout_returns_before_prevote (ti : timeout_info) (s : consensus_state) :
  pointers_set (rs s) ->
  ti_step ti = step_code NewHeight \/ ti_step ti = step_code NewRound
  \/ ti_step ti = step_code Propose ->
  exists s', handle_timeout ti s = Ok tt s' /\ pointers_set (rs s').
Proof.
  intros Hp Hst. unfold handle_timeout. munfold.
  destruct (timeout_ignored ti (rs s)).
  { exists s. split; [reflexivity|exact Hp]. }
  unfold timeout_dispatch.
  destruct Hst as [E|[E|E]]; rewrite E; cbn [step_of_code step_code].
  - apply enter_new_round_returns. exact Hp.
  - apply enter_propose_returns. exact Hp.
  - apply enter_prevote_returns. exact Hp.
Qed.

(** ** The wait steps *)

Lemma enter_precommit_wait_without_two_thirds_any
  (s : consensus_state) (round : Z) (v : height_vote_set) :
  rs_round (rs s) <= round ->
  (rs_round (rs s) = round -> rs_triggered_timeout_precommit (rs s) = false) ->
  rs_votes (rs s) = Some v ->
  has_two_thirds_any (precommits v round) = false ->
  exists s1,
    schedule_timeout (cfg_precommit (cs_config s) round) (rs_height (rs s)) round
      PrecommitWait s = Ok tt s1
    /\ enter_precommit_wait (rs_height (rs s)) round s
       = Ok tt (with_n_steps (S (n_steps s1))
                  (with_rs (set_triggered_timeout_precommit true (rs s1)) s1)).
Proof.
  intros Hr Hs Hv Hany. unfold enter_precommit_wait. munfold.
  rewrite Z.eqb_refl. cbn [negb orb].
  rewrite (proj2 (Z.ltb_ge round _)) by lia. cbn [orb].
  assert (Hg : (rs_round (rs s) =? round) && rs_triggered_timeout_precommit (rs s) = false).
  { destruct (rs_round (rs s) =? round) eqn:E; [|reflexivity].
    apply Z.eqb_eq in E. rewrite (Hs E). reflexivity. }
  rewrite Hg, Hv, Hany.
  unfold schedule_timeout.
  match goal with
  | |- context [tick ?ti] => destruct (tick_returns ti s) as (s1 & Ht & _)
  end.
  exists s1. rewrite Ht. split; reflexivity.
Qed.

(** X29.  Past their guards, the wait steps are entered exactly when the
    votes of the round do not have two thirds of any kind:
    [enter_prevote_wait] then schedules the prevote timeout and ends in step
    PrevoteWait, and [enter_precommit_wait] schedules the precommit timeout
    and sets [triggered_timeout_precommit], each signalling one new step;
    with two thirds of any kind both throw and change nothing. *)
Theorem wait_steps_enter_without_two_thirds_any
  (s : consensus_state) (round : Z) (v : height_vote_set) :
  rs_round (rs s) <= round ->
  rs_votes (rs s) = Some v ->
  let h := rs_height (rs s) in
  ((rs_round (rs s) = round -> step_lt (rs_step (rs s)) PrevoteWait = true) ->
   (has_two_thirds_any (prevotes v round) = true ->
    enter_prevote_wait h round s
    = Throw "entering prevote_wait step, but prevotes does not have any 2/3+ votes" s)
   /\ (has_two_thirds_any (prevotes v round) = false ->
       exists s1,
         schedule_timeout (cfg_prevote (cs_config s) round) h round PrevoteWait s
         = Ok tt s1
         /\ enter_prevote_wait h round s = Ok tt (stepped round PrevoteWait s1)))
  /\ ((rs_round (rs s) = round -> rs_triggered_timeout_precommit (rs s) = false) ->
      (has_two_thirds_any (precommits v round) = true ->
       enter_precommit_wait h round s
       = Throw "entering precommit_wait step, but prevotes does not have any 2/3+ votes" s)
      /\ (has_two_thirds_any (precommits v round) = false ->
          exists s1,
            schedule_timeout (cfg_precommit (cs_config s) round) h round PrecommitWait s
            = Ok tt s1
            /\ enter_precommit_wait h round s
               = Ok tt (with_n_steps (S (n_steps s1))
                          (with_rs (set_triggered_timeout_precommit true (rs s1)) s1)))).
Proof.
  intros Hr Hv h. subst h. split; intros Hs; split; intros Hany.
  - apply (enter_prevote_wait_with_two_thirds_any s round v Hr Hs Hv Hany).
  - apply (enter_prevote_wait_without_two_thirds_any s round v Hr Hs Hv Hany).
  - apply (enter_precommit_wait_with_two_thirds_any s round v Hr Hs Hv Hany).
  - apply (enter_precommit_wait_without_two_thirds_any s round v Hr Hs Hv Hany).
Qed.

(** ** The start of round 0 *)

(** X30.  The NewHeight timeout of the current height, arriving in round
    0 at step NewHeight while the proposal is not complete, starts round 0:
    [handle_timeout] returns in step Propose of round 0, the votes are told
    the round 1, [triggered_timeout_precommit] is false, and the validators,
    a proposal received meanwhile, the lock and the valid block are left as
    they were. *)
Theorem new_height_timeout_starts_round_0
  (d : Z) (s : consensus_state) (votes : height_vote_set) :
  rs_round (rs s) = 0 -> rs_step (rs s) = NewHeight ->
  pointers_set (rs s) ->
  rs_votes (rs s) = Some votes ->
  rs_proposal (rs s) = None \/ rs_proposal_block (rs s) = None ->
  exists s',
    handle_timeout {| duration_ := d; ti_height := rs_height (rs s); ti_round := 0;
                      ti_step := step_code NewHeight |} s = Ok tt s'
    /\ rs_height (rs s') = rs_height (rs s)
    /\ rs_round (rs s') = 0
    /\ rs_step (rs s') = Propose
    /\ rs_validators (rs s') = rs_validators (rs s)
    /\ rs_proposal (rs s') = rs_proposal (rs s)
    /\ rs_proposal_block (rs s') = rs_proposal_block (rs s)
    /\ rs_proposal_block_parts (rs s') = rs_proposal_block_parts (rs s)
    /\ rs_votes (rs s') = Some (set_round 1 votes)
    /\ rs_triggered_timeout_precommit (rs s') = false
    /\ rs_locked_block (rs s') = rs_locked_block (rs s)
    /\ rs_valid_block (rs s') = rs_valid_block (rs s).
Proof.
  intros Hr Hst Hp Hv Hprop.
  set (ti := {| duration_ := d; ti_height := rs_height (rs s); ti_round := 0;
                ti_step := step_code NewHeight |}).
  assert (Hret : exists s', handle_timeout ti s = Ok tt s' /\ pointers_set (rs s')).
  { unfold handle_timeout. munfold.
    destruct (timeout_ignored ti (rs s)); [exists s; split; [reflexivity|exact Hp]|].
    unfold timeout_dispatch. cbn [ti ti_step step_of_code step_code ti_height].
    apply enter_new_round_returns. exact Hp. }
  destruct Hret as (s' & Hok & _).
  exists s'. split; [exact Hok|].
  revert Hok. unfold handle_timeout, timeout_ignored, timeout_dispatch. munfold.
  cbn [ti ti_step ti_height ti_round step_of_code step_code].
  rewrite Z.eqb_refl, Hr, Hst. cbn [step_code]. rewrite !Z.ltb_irrefl.
  cbn [negb orb andb Z.eqb].
  unfold enter_new_round. munfold.
  rewrite Z.eqb_refl, Hr, Hst, Hv. unfold step_eqb. cbn [step_code].
  rewrite !Z.ltb_irrefl. cbn [negb orb andb Z.eqb Pos.eqb].
  mstate. intros H. apply enter_propose_incomplete in H.
  - rewrite H. cbn. rewrite ?Hr. repeat split.
  - cbn. rewrite !Z.eqb_refl. reflexivity.
  - cbn. exact Hprop.
Qed.

(** ** Messages of the peers *)

Lemma add_vote_other_height (vote_ : vote) (peer_id : string) (s : consensus_state) :
  v_height vote_ <> rs_height (rs s) ->
  (v_height vote_ + 1 = rs_height (rs s) -> v_type vote_ = MsgPrecommit ->
   rs_step (rs s) <> NewHeight) ->
  add_vote vote_ peer_id s = Ok false s.
Proof.
  intros Hh Hprev. unfold add_vote. munfold.
  rewrite (proj2 (Z.eqb_neq _ _) Hh). cbn [negb].
  destruct ((v_height vote_ + 1 =? rs_height (rs s)) && is_precommit (v_type vote_)) eqn:E;
    [|reflexivity].
  b2p.
  assert (Ht : v_type vote_ = MsgPrecommit)
    by (destruct (v_type vote_); try discriminate; reflexivity).
  specialize (Hprev H Ht).
  destruct (rs_step (rs s)); try reflexivity. congruence.
Qed.

Section PartFacts.

Context `{PO : !PartOps} `{PA : !ParamOps}.

(** X16.  [add_proposal_block_part(msg)] returns false and changes nothing
    when [msg] is for another height or no part set is expected.  Otherwise
    what it returns, when it returns, is what [add_part] returned; and when
    the part was not added, or the part set is not complete after it, or
    exceeds [consensus_params.block.max_bytes], nothing but the part set is
    updated. *)
Theorem add_proposal_block_part_result
  (msg : block_part_message) (peer_id : string) (s : consensus_state) :
  (rs_height (rs s) <> bp_height msg \/ rs_proposal_block_parts (rs s) = None ->
   add_proposal_block_part msg peer_id s = Ok false s)
  /\ (forall pbp,
        rs_height (rs s) = bp_height msg ->
        rs_proposal_block_parts (rs s) = Some pbp ->
        let r := add_part (bp_index msg) (bp_bytes_ msg) pbp in
        let s1 := with_rs (set_proposal_block_parts (Some (snd r)) (rs s)) s in
        (forall b s', add_proposal_block_part msg peer_id s = Ok b s' -> b = fst r)
        /\ (fst r && is_complete (snd r) = false
            \/ max_bytes (local_state s) < byte_size (snd r) ->
            add_proposal_block_part msg peer_id s = Ok (fst r) s1)).
Proof.
  split.
  - intros H. unfold add_proposal_block_part. munfold.
    destruct H as [H|H].
    + rewrite (proj2 (Z.eqb_neq _ _) H). reflexivity.
    + rewrite H. destruct (negb _); reflexivity.
  - intros pbp Hh Hp r s1. subst r s1.
    unfold add_proposal_block_part.
    cbv beta iota zeta delta [mbind M_bind mret M_ret get modify modify_rs].
    rewrite (proj2 (Z.eqb_eq _ _) Hh), Hp. cbn [negb].
    set (r := add_part (bp_index msg) (bp_bytes_ msg) pbp).
    repeat split.
    + intros b s'.
      destruct (max_bytes (local_state s) <? byte_size (snd r));
        [intros H; inversion H; reflexivity|].
      destruct (fst r && is_complete (snd r));
        [|intros H; inversion H; reflexivity].
      repeat match goal with
             | |- context [match ?x with Ok _ _ => _ | Throw _ _ => _ | EmptyAccess => _ end] =>
                 destruct x
             end; intros H; inversion H; reflexivity.
    + intros [H|H].
      * rewrite H. destruct (_ <? _); reflexivity.
      * rewrite (proj2 (Z.ltb_lt _ _) H). reflexivity.
Qed.

(** X17.  [receive_routine] drops what is not for the current height: a
    proposal or a block part for another height, and a vote for another
    height unless it is a precommit for the previous height that arrives in
    step NewHeight, leave the state as it was. *)
Theorem receive_routine_ignores_other_heights (s : consensus_state) :
  (forall msg : proposal_message,
     p_height msg <> rs_height (rs s) ->
     receive_routine (ProposalMessage msg) s = Ok tt s)
  /\ (forall msg : block_part_message,
        bp_height msg <> rs_height (rs s) ->
        receive_routine (BlockPartMessage msg) s = Ok tt s)
  /\ (forall msg : vote,
        v_height msg <> rs_height (rs s) ->
        (v_height msg + 1 = rs_height (rs s) -> v_type msg = MsgPrecommit ->
         rs_step (rs s) <> NewHeight) ->
        receive_routine (VoteMessage msg) s = Ok tt s).
Proof.
  repeat split.
  - intros msg H. unfold receive_routine, set_proposal. munfold.
    rewrite (proj2 (Z.eqb_neq _ _) H). cbn [negb orb].
    destruct (negb _); reflexivity.
  - intros msg H. unfold receive_routine, add_proposal_block_part. munfold.
    rewrite (proj2 (Z.eqb_neq _ _)) by congruence. reflexivity.
  - intros msg H Hp. unfold receive_routine, try_add_vote.
    cbv beta iota delta [mbind M_bind mret M_ret].
    rewrite (add_vote_other_height msg EmptyString s H Hp). reflexivity.
Qed.

End PartFacts.

End Facts.

End ConsensusFacts.

Module StateStoreFacts.
Import Consensus StateStore.

(** ** Keys *)

Lemma hex_digit_value_digit (d : N) : (d < 16)%N -> hex_digit_value (hex_digit d) = d.
Proof.
  intros H. destruct d as [|p]; [reflexivity|].
  do 4 (try destruct p as [p|p|]); try reflexivity; lia.
Qed.

Lemma hex_value_from_app (s1 s2 : string) (acc : N) :
  hex_value_from acc (s1 ++ s2) = hex_value_from (hex_value_from acc s1) s2.
Proof.
  revert acc. induction s1 as [|c s1 IH]; intros acc; simpl; [reflexivity|apply IH].
Qed.

Lemma hex_of_N_fuel_value (fuel : nat) (n : N) :
  (n < 2 ^ N.of_nat fuel)%N -> hex_value (hex_of_N_fuel fuel n) = n.
Proof.
  unfold hex_value. revert n. induction fuel as [|f IH]; intros n H.
  - simpl in *. lia.
  - cbn [hex_of_N_fuel]. destruct (n <? 16)%N eqn:E.
    + apply N.ltb_lt in E. cbn [hex_value_from].
      rewrite hex_digit_value_digit by exact E. lia.
    + rewrite hex_value_from_app. rewrite IH.
      * cbn [hex_value_from].
        rewrite hex_digit_value_digit by (apply N.mod_lt; lia).
        rewrite (N.div_mod n 16) at 3 by lia. lia.
      * rewrite Nat2N.inj_succ, N.pow_succ_r' in H.
        apply N.Div0.div_lt_upper_bound; lia.
Qed.

Lemma hex_of_N_value (n : N) : hex_value (hex_of_N n) = n.
Proof.
  unfold hex_of_N. apply hex_of_N_fuel_value.
  rewrite Nat2N.inj_succ, N2Nat.id.
  destruct n as [|p]; [reflexivity|].
  apply N.log2_spec. lia.
Qed.

Lemma hex_value_from_zeros (k : nat) (s : string) :
  hex_value_from 0 (zeros k ++ s) = hex_value_from 0 s.
Proof. induction k as [|k IH]; simpl; [reflexivity|exact IH]. Qed.

Lemma zero_pad_value (w : nat) (s : string) : hex_value (zero_pad w s) = hex_value s.
Proof. unfold hex_value, zero_pad. apply hex_value_from_zeros. Qed.

Lemma fmt_08x_value (h : Z) : 0 <= h -> hex_value (fmt_08x h) = Z.to_N h.
Proof.
  intros H. unfold fmt_08x. rewrite (proj2 (Z.ltb_ge _ _)) by lia.
  rewrite zero_pad_value. apply hex_of_N_value.
Qed.


Lemma string_length_app (s1 s2 : string) :
  String.length (s1 ++ s2) = (String.length s1 + String.length s2)%nat.
Proof. induction s1 as [|c s1 IH]; simpl; [reflexivity|rewrite IH; reflexivity]. Qed.

Lemma hex_of_N_fuel_length (fuel : nat) (n : N) (k : nat) :
  (n < 16 ^ N.of_nat (S k))%N -> (String.length (hex_of_N_fuel fuel n) <= S k)%nat.
Proof.
  revert n k. induction fuel as [|f IH]; intros n k H; cbn [hex_of_N_fuel].
  - simpl. lia.
  - destruct (n <? 16)%N eqn:E; [simpl; lia|].
    apply N.ltb_ge in E. rewrite string_length_app. simpl.
    destruct k as [|k].
    + simpl in H. lia.
    + specialize (IH (n / 16)%N k).
      assert (n / 16 < 16 ^ N.of_nat (S k))%N.
      { apply N.Div0.div_lt_upper_bound.
        rewrite (Nat2N.inj_succ (S k)), N.pow_succ_r' in H. exact H. }
      specialize (IH H0). lia.
Qed.

Lemma zeros_length (k : nat) : String.length (zeros k) = k.
Proof. induction k; simpl; congruence. Qed.

Lemma fmt_08x_length (h : Z) : 0 <= h < 2 ^ 32 -> String.length (fmt_08x h) = 8%nat.
Proof.
  intros H. unfold fmt_08x. rewrite (proj2 (Z.ltb_ge _ _)) by lia.
  unfold zero_pad. rewrite string_length_app, zeros_length.
  assert (String.length (hex_of_N (Z.to_N h)) <= 8)%nat.
  { unfold hex_of_N. apply hex_of_N_fuel_length.
    change (16 ^ N.of_nat 8)%N with 4294967296%N. lia. }
  lia.
Qed.


(** ** Keys of all heights and prefixes *)

Lemma hex_digit_not_minus (d : N) : hex_digit d <> "-"%char.
Proof.
  destruct d as [|p]; [discriminate|].
  do 4 (try destruct p as [p|p|]); discriminate.
Qed.

Lemma hex_of_N_fuel_starts (fuel : nat) (n : N) :
  exists c r, hex_of_N_fuel (S fuel) n = String c r /\ c <> "-"%char.
Proof.
  revert n. induction fuel as [|f IH]; intros n.
  - cbn [hex_of_N_fuel]. destruct (n <? 16)%N; simpl;
      do 2 eexists; (split; [reflexivity|apply hex_digit_not_minus]).
  - change (hex_of_N_fuel (S (S f)) n)
      with (if (n <? 16)%N then String (hex_digit n) EmptyString
            else hex_of_N_fuel (S f) (n / 16) ++ String (hex_digit (n mod 16)) EmptyString).
    destruct (n <? 16)%N;
      [do 2 eexists; (split; [reflexivity|apply hex_digit_not_minus])|].
    destruct (IH (n / 16)%N) as (c & r & E & Hc). rewrite E. simpl.
    do 2 eexists; (split; [reflexivity|exact Hc]).
Qed.

Lemma fmt_08x_nonneg_starts (h : Z) :
  0 <= h -> exists c r, fmt_08x h = String c r /\ c <> "-"%char.
Proof.
  intros H. unfold fmt_08x. rewrite (proj2 (Z.ltb_ge _ _)) by lia.
  unfold zero_pad. destruct (8 - String.length (hex_of_N (Z.to_N h)))%nat.
  - simpl. apply hex_of_N_fuel_starts.
  - simpl. do 2 eexists; (split; [reflexivity|discriminate]).
Qed.

Lemma fmt_08x_negative_value (h : Z) :
  h < 0 -> exists s, fmt_08x h = String "-" s /\ hex_value s = Z.abs_N h.
Proof.
  intros H. unfold fmt_08x. rewrite (proj2 (Z.ltb_lt _ _)) by lia.
  eexists. split; [reflexivity|]. rewrite zero_pad_value. apply hex_of_N_value.
Qed.

Lemma fmt_08x_injective (h1 h2 : Z) : fmt_08x h1 = fmt_08x h2 -> h1 = h2.
Proof.
  intros H.
  destruct (Z.ltb_spec h1 0) as [H1|H1]; destruct (Z.ltb_spec h2 0) as [H2|H2].
  - destruct (fmt_08x_negative_value h1 H1) as (s1 & E1 & V1).
    destruct (fmt_08x_negative_value h2 H2) as (s2 & E2 & V2).
    rewrite E1, E2 in H. inversion H; subst. rewrite V1 in V2. lia.
  - destruct (fmt_08x_negative_value h1 H1) as (s1 & E1 & V1).
    destruct (fmt_08x_nonneg_starts h2 H2) as (c & r & E2 & Hc).
    rewrite H, E2 in E1. inversion E1; subst. congruence.
  - destruct (fmt_08x_negative_value h2 H2) as (s2 & E2 & V2).
    destruct (fmt_08x_nonneg_starts h1 H1) as (c & r & E1 & Hc).
    rewrite H, E2 in E1. inversion E1; subst. congruence.
  - apply (f_equal hex_value) in H. rewrite !fmt_08x_value in H by assumption. lia.
Qed.

Lemma encode_key_inj (p1 p2 : prefix) (h1 h2 : Z) :
  encode_key p1 h1 = encode_key p2 h2 -> p1 = p2 /\ h1 = h2.
Proof.
  unfold encode_key. intros H. inversion H as [[Hp Hf]].
  split; [|apply fmt_08x_injective; exact Hf].
  destruct p1, p2; try reflexivity; discriminate.
Qed.

Lemma encode_key_length_ge (p : prefix) (h : Z) :
  (9 <= String.length (encode_key p h))%nat.
Proof.
  unfold encode_key, fmt_08x. cbn [String.length].
  destruct (h <? 0); cbn [String.length]; unfold zero_pad;
    rewrite string_length_app, zeros_length; lia.
Qed.

(** X18.  Two keys of the store are equal only for the same prefix and
    the same height, negative heights included: no record overwrites the
    record of another height or of another kind. *)
Theorem encode_key_no_collision (p1 p2 : prefix) (h1 h2 : Z) :
  encode_key p1 h1 = encode_key p2 h2 <-> p1 = p2 /\ h1 = h2.
Proof.
  split; [apply encode_key_inj|]. intros [-> ->]. reflexivity.
Qed.

(** ** The order of the keys *)

Lemma hex_digit_compare (d1 d2 : N) :
  (d1 < 16)%N -> (d2 < 16)%N ->
  Ascii.compare (hex_digit d1) (hex_digit d2) = (d1 ?= d2)%N.
Proof.
  intros H1 H2.
  destruct d1 as [|p]; [|do 4 (try destruct p as [p|p|])]; try lia;
    (destruct d2 as [|q]; [|do 4 (try destruct q as [q|q|])]; try lia; reflexivity).
Qed.

Lemma hex_value_from_shift (s : string) (acc : N) :
  hex_value_from acc s
  = (acc * 16 ^ N.of_nat (String.length s) + hex_value_from 0 s)%N.
Proof.
  revert acc. induction s as [|c s IH]; intros acc; cbn [hex_value_from String.length].
  - simpl. lia.
  - rewrite (IH (16 * acc + hex_digit_value c)%N), (IH (16 * 0 + hex_digit_value c)%N).
    rewrite Nat2N.inj_succ, N.pow_succ_r'. lia.
Qed.

(** Every character of the string is a hexadecimal digit. *)
Lemma hex_digits_bound (s : string) :
  (forall c, In c (list_ascii_of_string s) -> exists d, (d < 16)%N /\ c = hex_digit d) ->
  (hex_value_from 0 s < 16 ^ N.of_nat (String.length s))%N.
Proof.
  induction s as [|c s IH]; intros H; cbn [hex_value_from String.length].
  - simpl. lia.
  - destruct (H c (or_introl eq_refl)) as (d & Hd & ->).
    rewrite hex_digit_value_digit by exact Hd.
    rewrite hex_value_from_shift, Nat2N.inj_succ, N.pow_succ_r'.
    assert (hex_value_from 0 s < 16 ^ N.of_nat (String.length s))%N
      by (apply IH; intros c' Hc'; apply H; right; exact Hc').
    nia.
Qed.

Lemma hex_digits_compare (s1 s2 : string) :
  String.length s1 = String.length s2 ->
  (forall c, In c (list_ascii_of_string s1) -> exists d, (d < 16)%N /\ c = hex_digit d) ->
  (forall c, In c (list_ascii_of_string s2) -> exists d, (d < 16)%N /\ c = hex_digit d) ->
  String.compare s1 s2 = (hex_value s1 ?= hex_value s2)%N.
Proof.
  unfold hex_value. revert s2.
  induction s1 as [|c1 s1 IH]; intros [|c2 s2] Hl H1 H2; try discriminate.
  - reflexivity.
  - cbn [String.compare hex_value_from].
    destruct (H1 c1 (or_introl eq_refl)) as (d1 & Hd1 & ->).
    destruct (H2 c2 (or_introl eq_refl)) as (d2 & Hd2 & ->).
    rewrite hex_digit_compare by assumption.
    rewrite !hex_digit_value_digit by assumption.
    rewrite (hex_value_from_shift s1), (hex_value_from_shift s2).
    injection Hl as Hl.
    assert (B1 : (hex_value_from 0 s1 < 16 ^ N.of_nat (String.length s1))%N)
      by (apply hex_digits_bound; intros c Hc; apply H1; right; exact Hc).
    assert (B2 : (hex_value_from 0 s2 < 16 ^ N.of_nat (String.length s2))%N)
      by (apply hex_digits_bound; intros c Hc; apply H2; right; exact Hc).
    rewrite <- Hl in *.
    specialize (IH s2 Hl (fun c Hc => H1 c (or_intror Hc)) (fun c Hc => H2 c (or_intror Hc))).
    destruct (N.compare_spec d1 d2) as [E|E|E].
    + subst d2. rewrite IH.
      destruct (N.compare_spec (hex_value_from 0 s1) (hex_value_from 0 s2));
        symmetry; [apply N.compare_eq_iff|apply N.compare_lt_iff|apply N.compare_gt_iff];
        nia.
    + symmetry. apply N.compare_lt_iff. nia.
    + symmetry. apply N.compare_gt_iff. nia.
Qed.

Lemma list_ascii_of_string_app (s1 s2 : string) :
  list_ascii_of_string (s1 ++ s2)
  = (list_ascii_of_string s1 ++ list_ascii_of_string s2)%list.
Proof. induction s1 as [|c s1 IH]; simpl; [reflexivity|rewrite IH; reflexivity]. Qed.

Lemma hex_of_N_fuel_digits (fuel : nat) (n : N) (c : ascii) :
  In c (list_ascii_of_string (hex_of_N_fuel fuel n)) ->
  exists d, (d < 16)%N /\ c = hex_digit d.
Proof.
  revert n. induction fuel as [|f IH]; intros n; cbn [hex_of_N_fuel].
  - simpl. contradiction.
  - destruct (n <? 16)%N eqn:E.
    + apply N.ltb_lt in E. simpl. intros [<-|[]]. exists n. split; [exact E|reflexivity].
    + rewrite list_ascii_of_string_app. intros H. apply in_app_or in H.
      destruct H as [H|H]; [exact (IH _ H)|].
      simpl in H. destruct H as [<-|[]].
      exists (n mod 16)%N. split; [apply N.mod_lt; lia|reflexivity].
Qed.

Lemma zeros_digits (k : nat) (c : ascii) :
  In c (list_ascii_of_string (zeros k)) -> c = hex_digit 0.
Proof.
  induction k as [|k IH]; simpl; [contradiction|].
  intros [<-|H]; [reflexivity|exact (IH H)].
Qed.

Lemma fmt_08x_digits (h : Z) (c : ascii) :
  0 <= h -> In c (list_ascii_of_string (fmt_08x h)) ->
  exists d, (d < 16)%N /\ c = hex_digit d.
Proof.
  intros H. unfold fmt_08x. rewrite (proj2 (Z.ltb_ge _ _)) by lia.
  unfold zero_pad, hex_of_N. rewrite list_ascii_of_string_app.
  intros Hc. apply in_app_or in Hc. destruct Hc as [Hc|Hc].
  - apply zeros_digits in Hc. exists 0%N. split; [lia|exact Hc].
  - exact (hex_of_N_fuel_digits _ _ _ Hc).
Qed.

(** X19.  For heights in [0, 2^32) the keys of one prefix are ordered, byte
    by byte, as their heights are. *)
Theorem encode_key_order (p : prefix) (h1 h2 : Z) :
  0 <= h1 < 2 ^ 32 -> 0 <= h2 < 2 ^ 32 ->
  String.compare (encode_key p h1) (encode_key p h2) = (h1 ?= h2).
Proof.
  intros H1 H2. unfold encode_key. cbn [String.compare].
  unfold Ascii.compare. rewrite N.compare_refl.
  rewrite hex_digits_compare.
  - rewrite !fmt_08x_value by lia. rewrite Z2N.inj_compare by lia. reflexivity.
  - rewrite !fmt_08x_length by assumption. reflexivity.
  - intros c. apply fmt_08x_digits. lia.
  - intros c. apply fmt_08x_digits. lia.
Qed.

(** ** Saving and loading validator sets *)

Section StoreFacts.

Context `{VO : ValidatorOps} `{CD : !Codec}.


Lemma save_validators_info_refuses (h c : Z) (vs : validator_set) (b : batch) :
  h < c -> save_validators_info h c vs b = (false, b).
Proof.
  intros H. unfold save_validators_info.
  rewrite (proj2 (Z.ltb_lt _ _)) by lia. reflexivity.
Qed.




Lemma load_validators_info_reads (h : Z) (r : validators_info) (m : gmap bytes buffer) :
  m !! encode_key prefix_validators h = Some (encode r) ->
  load_validators_info h m = Some r.
Proof.
  intros H. unfold load_validators_info. rewrite H, encode_not_empty, decode_encode.
  reflexivity.
Qed.


End StoreFacts.

Section StoreMore.

Context `{VO : ValidatorOps} `{CD : !Codec}.

(** ** What [save_validator_sets] leaves alone *)

Lemma apply_batch_other (b : batch) (m : gmap bytes buffer) (key : bytes) :
  Forall (fun kv => fst kv <> key) b ->
  fold_left (fun m kv => <[fst kv := snd kv]> m) b m !! key = m !! key.
Proof.
  revert m. induction b as [|kv b IH]; intros m H; cbn [fold_left]; [reflexivity|].
  inversion H; subst. rewrite IH by assumption. apply lookup_insert_ne. assumption.
Qed.

Lemma save_validators_info_keys (h c : Z) (vs : validator_set) (b : batch) (key : bytes) :
  key <> encode_key prefix_validators h ->
  Forall (fun kv => fst kv <> key) b ->
  Forall (fun kv => fst kv <> key) (snd (save_validators_info h c vs b)).
Proof.
  intros Hk Hb. unfold save_validators_info, batch_set.
  destruct (h <? c); cbn [snd]; [exact Hb|].
  apply Forall_app. split; [exact Hb|]. constructor; [|constructor]. cbn. congruence.
Qed.

Lemma save_validator_sets_loop_keys (n : nat) (h c : Z) (vs : validator_set) (b : batch)
  (key : bytes) :
  (forall h', h <= h' < h + Z.of_nat n -> key <> encode_key prefix_validators h') ->
  Forall (fun kv => fst kv <> key) b ->
  Forall (fun kv => fst kv <> key) (snd (save_validator_sets_loop n h c vs b)).
Proof.
  revert h b. induction n as [|n IH]; intros h b Hk Hb; cbn [save_validator_sets_loop].
  - exact Hb.
  - assert (H1 : Forall (fun kv => fst kv <> key) (snd (save_validators_info h c vs b))).
    { apply save_validators_info_keys; [apply Hk; lia|exact Hb]. }
    destruct (fst (save_validators_info h c vs b)); cbn [snd]; [|exact H1].
    apply IH; [|exact H1]. intros h' Hh'. apply Hk. lia.
Qed.

(** X20.  [save_validator_sets(lower, upper, set)] changes nothing but the
    validator records of the heights [lower..upper]: every other key keeps
    its value, so the validator records of other heights and the records of
    the other prefixes read as before; with [upper < lower] it succeeds and
    writes nothing. *)
Theorem save_validator_sets_changes_only_its_range
  (lower_height upper_height : Z) (v_set_ : validator_set) (db_ : gmap bytes buffer) :
  let db' := snd (save_validator_sets lower_height upper_height v_set_ db_) in
  (forall key,
     (forall h, lower_height <= h <= upper_height ->
                key <> encode_key prefix_validators h) ->
     db' !! key = db_ !! key)
  /\ (forall h, h < lower_height \/ upper_height < h ->
                load_validators_info h db' = load_validators_info h db_)
  /\ (forall p h, p <> prefix_validators -> db' !! encode_key p h = db_ !! encode_key p h)
  /\ (upper_height < lower_height ->
      save_validator_sets lower_height upper_height v_set_ db_ = (true, db_)).
Proof.
  intros db'.
  assert (Hframe : forall key,
            (forall h, lower_height <= h <= upper_height ->
                       key <> encode_key prefix_validators h) ->
            db' !! key = db_ !! key).
  { intros key Hk. subst db'. unfold save_validator_sets.
    pose proof (save_validator_sets_loop_keys
                  (Z.to_nat (upper_height - lower_height + 1)) lower_height lower_height
                  v_set_ [] key) as Hl.
    destruct (fst (save_validator_sets_loop _ _ _ _ _)); [|reflexivity].
    unfold write_sync. cbn [snd]. apply apply_batch_other. apply Hl; [|constructor].
    intros h' Hh'. apply Hk. lia. }
  split; [exact Hframe|]. split; [|split].
  - intros h Hh. unfold load_validators_info. rewrite Hframe; [reflexivity|].
    intros h' Hh' E. apply encode_key_inj in E. lia.
  - intros p h Hp. apply Hframe. intros h' _ E. apply encode_key_inj in E.
    destruct E; congruence.
  - intros Hlt. unfold save_validator_sets.
    replace (Z.to_nat (upper_height - lower_height + 1)) with O by lia.
    reflexivity.
Qed.

(** ** What [load_validators] can return *)

(** X21.  [load_validators(height)] fails when there is no record at
    [height].  When it succeeds, the set it gives is the one stored in the
    record at [height], or, when that record holds none, the set stored at
    the height [last_stored_height_for] points to, with the proposer
    priority incremented by [height - last_height_changed] of that second
    record, cast to 32 bits. *)
Theorem load_validators_returns_a_stored_set
  (height : Z) (db_ : gmap bytes buffer) :
  (db_ !! encode_key prefix_validators height = None -> load_validators height db_ = None)
  /\ (forall vs,
        load_validators height db_ = Some vs ->
        exists v_info,
          load_validators_info height db_ = Some v_info
          /\ (v_set v_info = Some vs
              \/ (v_set v_info = None
                  /\ exists v_info2 vs0,
                       load_validators_info
                         (last_stored_height_for height (last_height_changed v_info)) db_
                       = Some v_info2
                       /\ v_set v_info2 = Some vs0
                       /\ vs = increment_proposer_priority
                                 (to_int32 (height - last_height_changed v_info2)) vs0))).
Proof.
  split.
  - intros H. unfold load_validators, load_validators_info. rewrite H. reflexivity.
  - intros vs. unfold load_validators.
    destruct (load_validators_info height db_) as [v_info|]; [|discriminate].
    destruct (v_set v_info) as [vs1|] eqn:E1.
    + intros H; inversion H; subst. exists v_info. split; [reflexivity|left; exact E1].
    + destruct (load_validators_info _ db_) as [v_info2|] eqn:E2; [|discriminate].
      destruct (v_set v_info2) as [vs0|] eqn:E3; [|discriminate].
      intros H; inversion H; subst. exists v_info. split; [reflexivity|].
      right. split; [exact E1|]. exists v_info2, vs0. repeat split; assumption.
Qed.

Section ChainFacts.

Context {consensus_params : Type} `{CO : !ChainOps (consensus_params := consensus_params)}.

Variable state_key_ : bytes.

Lemma load_consensus_params_info_reads (h : Z) (r : consensus_params_info)
  (m : gmap bytes buffer) :
  m !! encode_key prefix_consensus_params h = Some (encode_params r) ->
  load_consensus_params_info h m = Some r.
Proof.
  intros H. unfold load_consensus_params_info.
  rewrite H, encode_params_not_empty, decode_encode_params. reflexivity.
Qed.

(** X22.  After [save_consensus_params_info(next_height, change_height,
    params)] is written, [load_consensus_params(next_height)] gives [params]
    when [change_height == next_height], and otherwise what the record at
    [change_height] holds (it fails when there is none, or none with
    parameters); the records of the other heights read as before. *)
Theorem consensus_params_saved_then_loaded
  (next_height change_height : Z) (cs_params : consensus_params)
  (db_ : gmap bytes buffer) :
  let r := save_consensus_params_info next_height change_height cs_params [] in
  let db' := snd (write_sync (snd r) db_) in
  fst r = true
  /\ (change_height = next_height -> load_consensus_params next_height db' = Some cs_params)
  /\ (change_height <> next_height ->
      load_consensus_params next_height db'
      = match load_consensus_params_info change_height db_ with
        | Some cs_param_info => cs_param cs_param_info
        | None => None
        end)
  /\ (forall h, h <> next_height ->
                load_consensus_params_info h db' = load_consensus_params_info h db_).
Proof.
  intros r db'. subst r db'.
  unfold save_consensus_params_info, batch_set, write_sync.
  cbn [fst snd app fold_left].
  split; [reflexivity|].
  assert (Hother : forall h, h <> next_height ->
            load_consensus_params_info h
              (<[encode_key prefix_consensus_params next_height :=
                   encode_params
                     {| cp_last_height_changed := change_height;
                        cs_param := if change_height =? next_height
                                    then Some cs_params else None |}]> db_)
            = load_consensus_params_info h db_).
  { intros h Hh. unfold load_consensus_params_info.
    rewrite lookup_insert_ne; [reflexivity|].
    intros E. apply encode_key_inj in E. destruct E; congruence. }
  repeat split.
  - intros ->. unfold load_consensus_params.
    rewrite (load_consensus_params_info_reads next_height _ _ (lookup_insert_eq _ _ _)).
    cbn [cs_param]. rewrite Z.eqb_refl. reflexivity.
  - intros Hne. unfold load_consensus_params.
    rewrite (load_consensus_params_info_reads next_height _ _ (lookup_insert_eq _ _ _)).
    cbn [cs_param cp_last_height_changed].
    rewrite Hother by exact Hne.
    rewrite (proj2 (Z.eqb_neq _ _) Hne). reflexivity.
  - exact Hother.
Qed.

(** ** Saving and loading the state *)

Lemma load_validators_full_record (h c : Z) (vs : validator_set) (m : gmap bytes buffer) :
  m !! encode_key prefix_validators h
  = Some (encode {| last_height_changed := c; v_set := Some vs |}) ->
  load_validators h m = Some vs.
Proof.
  intros H. unfold load_validators.
  rewrite (load_validators_info_reads h _ m H). reflexivity.
Qed.

Ltac other_key :=
  let E := fresh "E" in
  intros E; first [ apply encode_key_inj in E; destruct E; first [congruence | lia]
                  | symmetry in E; apply encode_key_inj in E; destruct E;
                    first [congruence | lia]
                  | congruence ].

(** X23.  With a state key shorter than the keys of the heights (which
    have 9 bytes or more): [save(st)] refuses, leaving the store as it was,
    when [st.last_height_validators_changed] is after the height that
    follows the next one.  Otherwise it succeeds and [load] gives [st] back;
    at the start of the chain [load_validators] at the initial height gives
    [st.validators]; [load_validators] at the height after the next gives
    [st.next_validators] when the validators changed there; and
    [load_consensus_params] at the next height gives [st.consensus_params]
    when the parameters changed there. *)
Theorem save_then_load (st : stored_state) (db_ : gmap bytes buffer) :
  (String.length state_key_ < 9)%nat ->
  let next_height :=
    if st_last_block_height st + 1 =? 1 then st_initial_height st
    else st_last_block_height st + 1 in
  let db' := snd (save state_key_ st db_) in
  (next_height + 1 < st_last_height_validators_changed st ->
   save state_key_ st db_ = (false, db_))
  /\ (st_last_height_validators_changed st <= next_height + 1 ->
      fst (save state_key_ st db_) = true
      /\ load state_key_ db' = Some st
      /\ (st_last_block_height st = 0 ->
          load_validators next_height db' = Some (st_validators st))
      /\ (st_last_height_validators_changed st = next_height + 1 ->
          load_validators (next_height + 1) db' = Some (st_next_validators st))
      /\ (st_last_height_consensus_params_changed st = next_height ->
          load_consensus_params next_height db' = Some (st_consensus_params st))).
Proof.
  intros Hlen next_height db'. subst db'.
  assert (Hkey : forall p h, state_key_ <> encode_key p h).
  { intros p h E. pose proof (encode_key_length_ge p h) as Hl. rewrite <- E in Hl. lia. }
  unfold save, save_internal. fold next_height.
  assert (H1 : forall b,
            save_validators_info next_height next_height (st_validators st) b
            = (true, (b ++ [(encode_key prefix_validators next_height,
                             encode {| last_height_changed := next_height;
                                       v_set := Some (st_validators st) |})])%list)).
  { intros b. unfold save_validators_info, batch_set.
    rewrite Z.ltb_irrefl, Z.eqb_refl. reflexivity. }
  split.
  - intros Hlt.
    assert (H2 : forall b, save_validators_info (next_height + 1)
                             (st_last_height_validators_changed st)
                             (st_next_validators st) b = (false, b)).
    { intros b. apply save_validators_info_refuses. exact Hlt. }
    destruct (st_last_block_height st + 1 =? 1); rewrite ?H1, H2; reflexivity.
  - intros Hle.
    assert (H2 : forall b, exists r,
              save_validators_info (next_height + 1)
                (st_last_height_validators_changed st) (st_next_validators st) b
              = (true, (b ++ [(encode_key prefix_validators (next_height + 1), encode r)])%list)
              /\ last_height_changed r = st_last_height_validators_changed st
              /\ (st_last_height_validators_changed st = next_height + 1 ->
                  v_set r = Some (st_next_validators st))).
    { intros b. unfold save_validators_info, batch_set.
      rewrite (proj2 (Z.ltb_ge _ _)) by lia.
      eexists. split; [reflexivity|]. split; [reflexivity|].
      intros E. cbn [v_set]. rewrite E, Z.eqb_refl. reflexivity. }
    unfold save_consensus_params_info, batch_set, write_sync, load, load_internal.
    destruct (st_last_block_height st + 1 =? 1) eqn:Efirst.
    + rewrite H1. cbn [fst snd negb app].
      destruct (H2 [(encode_key prefix_validators next_height,
                     encode {| last_height_changed := next_height;
                               v_set := Some (st_validators st) |})])
        as (r & E2 & Hc & Hv).
      rewrite E2. cbn [fst snd negb app fold_left].
      split; [reflexivity|]. split; [|split; [|split]].
      * rewrite lookup_insert_eq, encode_state_not_empty, decode_encode_state. reflexivity.
      * intros _. apply (load_validators_full_record _ next_height).
        rewrite lookup_insert_ne by (apply Hkey).
        rewrite lookup_insert_ne by other_key.
        rewrite lookup_insert_ne by other_key.
        apply lookup_insert_eq.
      * intros E. destruct r as [c0 vs0]. cbn in Hc, Hv. specialize (Hv E). subst.
        apply (load_validators_full_record _ (st_last_height_validators_changed st)).
        rewrite lookup_insert_ne by (apply Hkey).
        rewrite lookup_insert_ne by other_key.
        apply lookup_insert_eq.
      * intros E. unfold load_consensus_params.
        rewrite (load_consensus_params_info_reads next_height
                   {| cp_last_height_changed := st_last_height_consensus_params_changed st;
                      cs_param := if st_last_height_consensus_params_changed st
                                     =? next_height
                                  then Some (st_consensus_params st) else None |}).
        -- cbn [cs_param]. rewrite E, Z.eqb_refl. reflexivity.
        -- rewrite lookup_insert_ne by (apply Hkey). apply lookup_insert_eq.
    + cbn [fst snd negb app].
      destruct (H2 []) as (r & E2 & Hc & Hv).
      rewrite E2. cbn [fst snd negb app fold_left].
      split; [reflexivity|]. split; [|split; [|split]].
      * rewrite lookup_insert_eq, encode_state_not_empty, decode_encode_state. reflexivity.
      * intros E. rewrite E in Efirst. discriminate.
      * intros E. destruct r as [c0 vs0]. cbn in Hc, Hv. specialize (Hv E). subst.
        apply (load_validators_full_record _ (st_last_height_validators_changed st)).
        rewrite lookup_insert_ne by (apply Hkey).
        rewrite lookup_insert_ne by other_key.
        apply lookup_insert_eq.
      * intros E. unfold load_consensus_params.
        rewrite (load_consensus_params_info_reads next_height
                   {| cp_last_height_changed := st_last_height_consensus_params_changed st;
                      cs_param := if st_last_height_consensus_params_changed st
                                     =? next_height
                                  then Some (st_consensus_params st) else None |}).
        -- cbn [cs_param]. rewrite E, Z.eqb_refl. reflexivity.
        -- rewrite lookup_insert_ne by (apply Hkey). apply lookup_insert_eq.
Qed.

(** X24.  With a state key shorter than the keys of the heights,
    [bootstrap(st)] always succeeds.  Afterwards [load] gives [st]
    back and [load_validators] at the height after the next one gives
    [st.validators]; the record of the next height itself is written, with
    [st.validators], only when the chain has blocks and
    [st.last_validators] is not empty, and is left as it was otherwise. *)
Theorem bootstrap_then_load (st : stored_state) (db_ : gmap bytes buffer) :
  (String.length state_key_ < 9)%nat ->
  let height :=
    if st_last_block_height st + 1 =? 1 then st_initial_height st
    else st_last_block_height st + 1 in
  let db' := snd (bootstrap state_key_ st db_) in
  fst (bootstrap state_key_ st db_) = true
  /\ load state_key_ db' = Some st
  /\ load_validators (height + 1) db' = Some (st_validators st)
  /\ (st_last_block_height st <> 0 ->
      validators_empty (st_last_validators st) = false ->
      load_validators height db' = Some (st_validators st))
  /\ (st_last_block_height st = 0 \/ validators_empty (st_last_validators st) = true ->
      db' !! encode_key prefix_validators height
      = db_ !! encode_key prefix_validators height).
Proof.
  intros Hlen height db'. subst db'.
  assert (Hkey : forall p h, state_key_ <> encode_key p h).
  { intros p h E. pose proof (encode_key_length_ge p h) as Hl. rewrite <- E in Hl. lia. }
  unfold bootstrap, bootstrap_internal. fold height.
  assert (H1 : forall h b,
            save_validators_info h h (st_validators st) b
            = (true, (b ++ [(encode_key prefix_validators h,
                             encode {| last_height_changed := h;
                                       v_set := Some (st_validators st) |})])%list)).
  { intros h b. unfold save_validators_info, batch_set.
    rewrite Z.ltb_irrefl, Z.eqb_refl. reflexivity. }
  unfold save_consensus_params_info, batch_set, write_sync, load, load_internal.
  destruct (st_last_block_height st + 1 =? 1) eqn:Efirst;
    [|destruct (validators_empty (st_last_validators st)) eqn:Eempty; cbn [negb]];
    rewrite ?H1; cbn [fst snd negb app fold_left];
    (split; [reflexivity|]);
    (split; [rewrite lookup_insert_eq, encode_state_not_empty, decode_encode_state;
             reflexivity|]);
    (split; [apply (load_validators_full_record _ (height + 1));
             rewrite lookup_insert_ne by (apply Hkey);
             rewrite lookup_insert_ne by other_key;
             apply lookup_insert_eq|]).
  - split.
    + intros Hne. apply Z.eqb_eq in Efirst. lia.
    + intros _.
      rewrite lookup_insert_ne by (apply Hkey).
      rewrite lookup_insert_ne by other_key.
      rewrite lookup_insert_ne by other_key. reflexivity.
  - split.
    + intros _ Hf. discriminate.
    + intros _.
      rewrite lookup_insert_ne by (apply Hkey).
      rewrite lookup_insert_ne by other_key.
      rewrite lookup_insert_ne by other_key. reflexivity.
  - split.
    + intros _ _. apply (load_validators_full_record _ height).
      rewrite lookup_insert_ne by (apply Hkey).
      rewrite lookup_insert_ne by other_key.
      rewrite lookup_insert_ne by other_key.
      apply lookup_insert_eq.
    + intros [E|E]; [|discriminate].
      rewrite E in Efirst. discriminate.
Qed.

End ChainFacts.

End StoreMore.

End StateStoreFacts.

Module BlockPoolFacts.
Import Consensus BlockPool.

Section PoolFacts.

Context {block : Type}.
Variable peer_timeout : Z.

(** X25.  [bp_requester::set_block(blk, peer)] returns true exactly when
    [blk] is null and [peer] is the peer of the requester; it never stores a
    block: afterwards [block_] is what it was or null, and a refused call
    changes nothing. *)
Theorem set_block_never_stores_a_block
  (blk_ : option block) (peer_id_ : string) (r : bp_requester (block := block)) :
  let res := set_block blk_ peer_id_ r in
  (fst res = true <-> blk_ = None /\ rq_peer_id r = peer_id_)
  /\ (fst res = false -> snd res = r)
  /\ (rq_block_ (snd res) = rq_block_ r \/ rq_block_ (snd res) = None)
  /\ rq_peer_id (snd res) = rq_peer_id r
  /\ rq_height (snd res) = rq_height r.
Proof.
  unfold set_block. destruct blk_ as [b|]; cbn [has_value orb].
  - cbn. repeat split; auto; try discriminate. intros [H _]; discriminate.
  - destruct (String.eqb (rq_peer_id r) peer_id_) eqn:E; cbn.
    + apply String.eqb_eq in E. repeat split; auto; discriminate.
    + apply String.eqb_neq in E. repeat split; auto; try discriminate.
      intros [_ H]; contradiction.
Qed.

Lemma int32_small (z : Z) : - 2 ^ 31 <= z < 2 ^ 31 -> int32 z = z.
Proof. intros H. unfold int32. rewrite Z.mod_small by lia. lia. Qed.

(** X26.  On a peer whose pool is set, [incr_pending()] followed by
    [decr_pending()] restores [num_pending]; the timer is re-armed with
    [peer_timeout], and when nothing was pending before, the timer is then
    cancelled and the peer is marked as timed out. *)
Theorem decr_pending_after_incr_pending (recv_size : Z) (p : bp_peer) :
  - 2 ^ 31 <= num_pending p < 2 ^ 31 - 1 ->
  has_pool p = true ->
  exists p',
    decr_pending peer_timeout recv_size (incr_pending peer_timeout p) = Some p'
    /\ num_pending p' = num_pending p
    /\ did_timeout p' = (did_timeout p || (num_pending p =? 0))
    /\ timeout p'
       = match timeout p with
         | Some ops =>
             Some (ops ++ [PeerTimerExpiresFromNow peer_timeout]
                       ++ (if num_pending p =? 0 then [PeerTimerCancel] else []))%list
         | None => None
         end
    /\ peer_id p' = peer_id p /\ peer_height p' = peer_height p
    /\ peer_base p' = peer_base p.
Proof.
  intros Hn Hp. unfold decr_pending, incr_pending, on_timeout, reset_timeout.
  destruct (num_pending p =? 0) eqn:E.
  - apply Z.eqb_eq in E. cbn. rewrite E. cbn. rewrite Hp.
    eexists. split; [reflexivity|]. cbn. rewrite orb_true_r.
    repeat split. destruct (timeout p); [|reflexivity].
    rewrite <- app_assoc. reflexivity.
  - apply Z.eqb_neq in E. cbn [num_pending with_num_pending with_timer_op].
    rewrite (int32_small (num_pending p + 1)) by lia.
    replace (num_pending p + 1 - 1) with (num_pending p) by lia.
    rewrite (int32_small (num_pending p)) by lia.
    rewrite (proj2 (Z.eqb_neq _ _) E).
    eexists. split; [reflexivity|]. cbn. rewrite orb_false_r.
    repeat split.
Qed.

End PoolFacts.

End BlockPoolFacts.

(** * Runs on concrete states *)

Module Examples.
Import Consensus StateStore Sim ConsensusFacts StateStoreFacts.

#[local] Existing Instances sim_blocks sim_validators sim_votes sim_states sim_codec.

Ltac run := vm_compute; reflexivity.

Lemma reaches_prevoting : reaches at_genesis prevoting.
Proof.
  apply (reaches_timeout _ proposing _ (ti_of 1 0 Propose)); [|run].
  apply (reaches_timeout _ at_genesis _ (ti_of 1 0 NewHeight)); [|run].
  apply reaches_start.
Qed.

Lemma reaches_two_prevotes : reaches at_genesis two_prevotes.
Proof.
  apply (reaches_vote _
           (after (try_add_vote (vote_of MsgPrevote 1 0 0 block_id_nil) EmptyString) prevoting)
           _ (vote_of MsgPrevote 1 0 1 block_id_nil) EmptyString true); [|run].
  apply (reaches_vote _ prevoting _ (vote_of MsgPrevote 1 0 0 block_id_nil) EmptyString true);
    [|run].
  exact reaches_prevoting.
Qed.

Lemma reaches_two_precommits : reaches at_genesis two_precommits.
Proof.
  apply (reaches_vote _
           (after (try_add_vote (vote_of MsgPrecommit 1 0 0 block_id_nil) EmptyString) prevoting)
           _ (vote_of MsgPrecommit 1 0 1 block_id_nil) EmptyString true); [|run].
  apply (reaches_vote _ prevoting _ (vote_of MsgPrecommit 1 0 0 block_id_nil) EmptyString true);
    [|run].
  exact reaches_prevoting.
Qed.

Lemma reaches_round_one : reaches at_genesis round_one.
Proof.
  apply (reaches_vote _
           (after (try_add_vote (vote_of MsgPrevote 1 1 1 id_B) EmptyString)
              (after (try_add_vote (vote_of MsgPrevote 1 1 0 id_B) EmptyString) at_genesis))
           _ (vote_of MsgPrevote 1 1 2 id_B) EmptyString true); [|run].
  apply (reaches_vote _
           (after (try_add_vote (vote_of MsgPrevote 1 1 0 id_B) EmptyString) at_genesis)
           _ (vote_of MsgPrevote 1 1 1 id_B) EmptyString true); [|run].
  apply (reaches_vote _ at_genesis _ (vote_of MsgPrevote 1 1 0 id_B) EmptyString true); [|run].
  apply reaches_start.
Qed.

Lemma reaches_round_one_precommits : reaches at_genesis round_one_precommits.
Proof.
  apply (reaches_vote _
           (after (try_add_vote (vote_of MsgPrecommit 1 1 0 id_B) EmptyString) round_one)
           _ (vote_of MsgPrecommit 1 1 1 id_B) EmptyString true); [|run].
  apply (reaches_vote _ round_one _ (vote_of MsgPrecommit 1 1 0 id_B) EmptyString true); [|run].
  exact reaches_round_one.
Qed.

Lemma reaches_round_zero_precommits : reaches at_genesis round_zero_precommits.
Proof.
  apply (reaches_vote _
           (after (try_add_vote (vote_of MsgPrecommit 1 0 0 id_B) EmptyString) at_genesis)
           _ (vote_of MsgPrecommit 1 0 1 id_B) EmptyString true); [|run].
  apply (reaches_vote _ at_genesis _ (vote_of MsgPrecommit 1 0 0 id_B) EmptyString true); [|run].
  apply reaches_start.
Qed.

(** C1.  At the start of height 1 there is no proposal; a proposal for
    the height and round of the engine, with POL round -1, is dropped, and
    the round state stays as it was.  Where a proposal is already held,
    the same message replaces it. *)
Theorem set_proposal_drops_first_proposal :
  update_to_state genesis constructed = Ok tt at_genesis
  /\ rs_proposal (rs at_genesis) = None
  /\ p_height first_proposal = rs_height (rs at_genesis)
  /\ p_round first_proposal = rs_round (rs at_genesis)
  /\ p_pol_round first_proposal = -1
  /\ set_proposal first_proposal at_genesis = Ok tt at_genesis
  /\ rs_proposal (rs with_other_proposal) = Some other_proposal
  /\ set_proposal first_proposal with_other_proposal
     = Ok tt (with_rs (set_proposal_block None
                         (Some (new_part_set_from_header (parts id_B)))
                         (set_proposal_field (Some first_proposal)
                            (rs with_other_proposal)))
                with_other_proposal).
Proof.
  split; [run|]. split; [run|]. split; [run|]. split; [run|].
  split; [run|]. split; [run|]. split; run.
Qed.

(** C2.  In step Prevote of round 0, with two prevotes for nil counted, a
    third prevote for another block gives the prevotes of the round
    two-thirds of any kind and no majority: [enter_prevote_wait(1, 0)]
    throws, and so does [add_vote] through it.  The same with precommits
    and [enter_precommit_wait(1, 0)]. *)
Theorem enter_wait_steps_throw_on_two_thirds_any :
  let third_prevote := vote_of MsgPrevote 1 0 2 id_B in
  let third_precommit := vote_of MsgPrecommit 1 0 2 id_B in
  reaches at_genesis two_prevotes
  /\ rs_step (rs two_prevotes) = Prevote
  /\ rs_votes (rs (with_vote third_prevote two_prevotes))
     = Some (votes_with 1 [vote_of MsgPrevote 1 0 0 block_id_nil;
                           vote_of MsgPrevote 1 0 1 block_id_nil; third_prevote])
  /\ has_two_thirds_any
       (prevotes (votes_with 1 [vote_of MsgPrevote 1 0 0 block_id_nil;
                                vote_of MsgPrevote 1 0 1 block_id_nil; third_prevote]) 0)
     = true
  /\ enter_prevote_wait 1 0 (with_vote third_prevote two_prevotes)
     = Throw "entering prevote_wait step, but prevotes does not have any 2/3+ votes"
         (with_vote third_prevote two_prevotes)
  /\ try_add_vote third_prevote EmptyString two_prevotes
     = Throw "entering prevote_wait step, but prevotes does not have any 2/3+ votes"
         (with_vote third_prevote two_prevotes)
  /\ reaches at_genesis two_precommits
  /\ rs_votes (rs (with_vote third_precommit two_precommits))
     = Some (votes_with 1 [vote_of MsgPrecommit 1 0 0 block_id_nil;
                           vote_of MsgPrecommit 1 0 1 block_id_nil; third_precommit])
  /\ has_two_thirds_any
       (precommits (votes_with 1 [vote_of MsgPrecommit 1 0 0 block_id_nil;
                                  vote_of MsgPrecommit 1 0 1 block_id_nil;
                                  third_precommit]) 0)
     = true
  /\ enter_precommit_wait 1 0 (with_vote third_precommit two_precommits)
     = Throw "entering precommit_wait step, but prevotes does not have any 2/3+ votes"
         (with_vote third_precommit two_precommits)
  /\ try_add_vote third_precommit EmptyString two_precommits
     = Throw "entering precommit_wait step, but prevotes does not have any 2/3+ votes"
         (with_vote third_precommit two_precommits).
Proof.
  cbv zeta.
  split; [exact reaches_two_prevotes|].
  split; [run|]. split; [run|]. split; [run|]. split; [run|]. split; [run|].
  split; [exact reaches_two_precommits|].
  split; [run|]. split; [run|]. split; run.
Qed.

(** C9.  The engine gets from the start of height 1 to round 1 with a
    two-thirds prevote majority for the block id B, no block locked and no
    proposal block: there [enter_precommit(1, 1)] reads through the empty
    [rs.locked_block], as does [add_vote] for the precommit that completes
    a majority.  It gets likewise to a state in which [add_vote] calls
    [enter_commit(1, 0)] with a two-thirds precommit majority for B and no
    block locked, and [enter_commit] reads through the empty
    [rs.locked_block]. *)
Theorem enter_precommit_and_enter_commit_read_empty_locked_block :
  reaches at_genesis round_one_precommits
  /\ rs_round (rs round_one_precommits) = 1
  /\ rs_step (rs round_one_precommits) = Propose
  /\ rs_votes (rs round_one_precommits)
     = Some (votes_with 2 (three MsgPrevote 1 id_B
                           ++ [vote_of MsgPrecommit 1 1 0 id_B;
                               vote_of MsgPrecommit 1 1 1 id_B]))
  /\ two_thirds_majority
       (prevotes (votes_with 2 (three MsgPrevote 1 id_B
                                ++ [vote_of MsgPrecommit 1 1 0 id_B;
                                    vote_of MsgPrecommit 1 1 1 id_B])) 1)
     = Some id_B
  /\ rs_locked_block (rs round_one_precommits) = None
  /\ rs_proposal_block (rs round_one_precommits) = None
  /\ enter_precommit 1 1 round_one_precommits = EmptyAccess
  /\ try_add_vote (vote_of MsgPrecommit 1 1 2 id_B) EmptyString round_one_precommits = EmptyAccess
  /\ reaches at_genesis round_zero_precommits
  /\ rs_votes (rs before_commit) = Some (votes_with 1 (three MsgPrecommit 0 id_B))
  /\ two_thirds_majority (precommits (votes_with 1 (three MsgPrecommit 0 id_B)) 0)
     = Some id_B
  /\ rs_locked_block (rs before_commit) = None
  /\ enter_commit 1 0 before_commit = EmptyAccess
  /\ try_add_vote (vote_of MsgPrecommit 1 0 2 id_B) EmptyString round_zero_precommits = EmptyAccess.
Proof.
  split; [exact reaches_round_one_precommits|].
  split; [run|]. split; [run|]. split; [run|]. split; [run|]. split; [run|].
  split; [run|]. split; [run|]. split; [run|].
  split; [exact reaches_round_zero_precommits|].
  split; [run|]. split; [run|]. split; [run|]. split; run.
Qed.


(** C3: a state locked on L, with the proposal block P and a part set of
    X that holds a part, and a two-thirds prevote majority for X.
    [enter_precommit] clears the lock and precommits nil, and
    [proposal_block_parts] keeps the part it holds: it is not reset to an
    empty part set for the header of X. *)
Lemma enter_precommit_keeps_matching_parts :
  rs_locked_block (rs polka_for_unknown) = Some block_L
  /\ rs_proposal_block (rs polka_for_unknown) = Some block_P
  /\ rs_proposal_block_parts (rs polka_for_unknown) = Some parts_X
  /\ two_thirds_majority (prevotes (votes_with 2 (three MsgPrevote 1 id_X)) 1) = Some id_X
  /\ hashes_to block_L (hash id_X) = false
  /\ hashes_to block_P (hash id_X) = false
  /\ rs_locked_block (rs (after (enter_precommit 1 1) polka_for_unknown)) = None
  /\ rs_proposal_block_parts (rs (after (enter_precommit 1 1) polka_for_unknown))
     = Some parts_X
  /\ ~ (exists s',
         enter_precommit 1 1 polka_for_unknown = Ok tt s'
         /\ rs_proposal_block_parts (rs s')
            = Some (new_part_set_from_header (parts id_X))).
Proof.
  split; [run|]. split; [run|]. split; [run|]. split; [run|]. split; [run|].
  split; [run|]. split; [run|]. split; [run|].
  intros (s' & H & Hp).
  assert (Hs : s' = after (enter_precommit 1 1) polka_for_unknown).
  { unfold after. rewrite H. reflexivity. }
  subst s'. vm_compute in Hp. discriminate Hp.
Qed.

Lemma enter_precommit_polka_cases_witness :
  enter_precommit 1 1 polka_for_proposal
  = Ok tt (stepped 1 Precommit
             (voted MsgPrecommit (hash id_P) (parts id_P)
                (with_rs (set_locked 1 (Some block_P) (Some parts_P)
                            (rs polka_for_proposal))
                   polka_for_proposal))).
Proof.
  refine (enter_precommit_polka_cases polka_for_proposal 1
            (votes_with 2 (three MsgPrevote 1 id_P)) four_validators
            _ _ _ _ block_L _ block_P _).
  - vm_compute. discriminate.
  - intros _. reflexivity.
  - reflexivity.
  - reflexivity.
  - reflexivity.
  - reflexivity.
Defined.

(** C4: a timeout for the next height with a step that has no case in the
    switch is not behind the engine, and is dropped: nothing is thrown. *)
Lemma handle_timeout_drops_later_height :
  ~ ti_behind (ti_of 2 0 Commit) (rs at_genesis)
  /\ handle_timeout (ti_of 2 0 Commit) at_genesis = Ok tt at_genesis
  /\ timeout_dispatch (ti_of 2 0 Commit) at_genesis
     = Throw "invalid timeout step" at_genesis.
Proof.
  split.
  - unfold ti_behind. vm_compute. intros [H|[H _]]; discriminate H.
  - split; run.
Qed.

Lemma handle_timeout_dispatch_witness :
  handle_timeout (ti_of 1 0 Propose) proposing = enter_prevote 1 0 proposing
  /\ handle_timeout (ti_of 1 0 NewHeight) proposing = Ok tt proposing.
Proof.
  destruct (handle_timeout_dispatch (ti_of 1 0 Propose) proposing) as (_ & Hd).
  destruct (handle_timeout_dispatch (ti_of 1 0 NewHeight) proposing) as (Hi & _).
  split.
  - refine (proj1 (proj2 (proj2 (proj2 (Hd _)))) eq_refl).
    unfold ti_behind. vm_compute.
    intros [[H|[_ [H|[_ H]]]]|H]; discriminate H.
  - refine (proj2 (Hi _)).
    left. right. split; [reflexivity|]. right. split; reflexivity.
Defined.

Lemma tick_older_after_newer_is_noop_witness :
  schedule_timeout 1000 1 0 Propose
    (after (schedule_timeout 3000 1 0 PrevoteWait) at_genesis)
  = Ok tt (after (schedule_timeout 3000 1 0 PrevoteWait) at_genesis)
  /\ old_ti (after (schedule_timeout 3000 1 0 PrevoteWait) at_genesis)
     = {| duration_ := 3000; ti_height := 1; ti_round := 0;
          ti_step := step_code PrevoteWait |}.
Proof.
  split; [|reflexivity].
  refine (proj1 (tick_older_after_newer_is_noop at_genesis
                   (after (schedule_timeout 3000 1 0 PrevoteWait) at_genesis)
                   3000 1 0 PrevoteWait 1000 1 0 Propose _ _)).
  - right. split; [reflexivity|]. right. split; [reflexivity|]. reflexivity.
  - reflexivity.
Defined.

(** C6: with three precommits for nil the two-thirds majority is the nil
    block id, not a block id with a non-nil hash, and [enter_commit]
    throws nothing: it returns in step Commit. *)
Lemma enter_commit_accepts_nil_majority :
  rs_height (rs nil_precommits) = 1
  /\ step_lt (rs_step (rs nil_precommits)) Commit = true
  /\ two_thirds_majority (precommits (votes_with 2 (three MsgPrecommit 1 block_id_nil)) 1)
     = Some block_id_nil
  /\ rs_votes (rs nil_precommits)
     = Some (votes_with 2 (three MsgPrecommit 1 block_id_nil))
  /\ enter_commit 1 1 nil_precommits
     = Ok tt (committed 1
                (with_rs (set_proposal_block None
                            (Some (new_part_set_from_header part_set_header_zero))
                            (rs nil_precommits))
                   nil_precommits))
  /\ (forall w s', enter_commit 1 1 nil_precommits <> Throw w s').
Proof.
  split; [run|]. split; [run|]. split; [run|]. split; [run|].
  assert (H : enter_commit 1 1 nil_precommits
     = Ok tt (committed 1
                (with_rs (set_proposal_block None
                            (Some (new_part_set_from_header part_set_header_zero))
                            (rs nil_precommits))
                   nil_precommits))) by run.
  split; [exact H|]. intros w s'. rewrite H. discriminate.
Qed.

Lemma enter_commit_cases_witness :
  enter_commit 1 1 nil_precommits
  = Ok tt (committed 1
             (with_rs (set_proposal_block None
                         (Some (new_part_set_from_header part_set_header_zero))
                         (rs nil_precommits))
                nil_precommits)).
Proof.
  refine (enter_commit_cases nil_precommits 1
            (votes_with 2 (three MsgPrecommit 1 block_id_nil))
            _ _ block_L _ block_P _ parts_P _ _).
  - reflexivity.
  - reflexivity.
  - reflexivity.
  - reflexivity.
  - reflexivity.
  - reflexivity.
Defined.

Lemma update_to_state_resets_round_state_witness :
  last_block_height (local_state committing) < last_block_height state_1
  /\ update_to_state state_1 committing = Ok tt at_height_2
  /\ rs_height (rs at_height_2) = 2
  /\ rs_step (rs at_height_2) = NewHeight
  /\ rs_commit_round (rs at_height_2) = -1
  /\ rs_locked_block (rs at_height_2) = None.
Proof.
  assert (Hout : last_block_height (local_state committing) < last_block_height state_1)
    by reflexivity.
  assert (Hrun : update_to_state state_1 committing = Ok tt at_height_2) by run.
  destruct (update_to_state_resets_round_state state_1 committing Hout) as [Hr _].
  destruct (Hr at_height_2 Hrun)
    as (Hh & _ & Hs & _ & _ & Hcr & _ & _ & _ & _ & Hlb & _).
  split; [exact Hout|]. split; [exact Hrun|].
  split; [exact Hh|]. split; [exact Hs|]. split; [exact Hcr|exact Hlb].
Defined.

(** C10.  At the first height no last commit is held: [new_state] for a
    chain without blocks leaves the engine at height 1, step NewHeight, with
    [rs.last_commit] empty.  A precommit for height 0 that a peer sends then
    is a precommit for the previous height in step NewHeight, and [add_vote]
    takes it to [rs.last_commit->add_vote], which reads through the empty
    optional: the call does not return false.  At height 2, where the last
    commit is present, a precommit for height 1 is added and the call
    returns false. *)
Theorem add_vote_previous_height_reads_empty_last_commit :
  new_state config0 genesis constructed = Ok tt at_genesis
  /\ rs_height (rs at_genesis) = 1
  /\ rs_step (rs at_genesis) = NewHeight
  /\ rs_last_commit (rs at_genesis) = None
  /\ v_height (vote_of MsgPrecommit 0 0 0 id_B) + 1 = rs_height (rs at_genesis)
  /\ v_type (vote_of MsgPrecommit 0 0 0 id_B) = MsgPrecommit
  /\ add_vote (vote_of MsgPrecommit 0 0 0 id_B) EmptyString at_genesis = EmptyAccess
  /\ try_add_vote (vote_of MsgPrecommit 0 0 0 id_B) EmptyString at_genesis = EmptyAccess
  /\ receive_routine (PO := sim_parts) (PA := sim_params)
       (VoteMessage (vote_of MsgPrecommit 0 0 0 id_B)) at_genesis = EmptyAccess
  /\ rs_last_commit (rs at_height_2) <> None
  /\ fst (vs_add_vote (vote_of MsgPrecommit 1 1 3 id_P)
            (precommits (votes_with 2 (three MsgPrecommit 1 id_P)) 1)) = true
  /\ exists s',
       add_vote (vote_of MsgPrecommit 1 1 3 id_P) EmptyString at_height_2 = Ok false s'.
Proof.
  split; [run|]. split; [run|]. split; [run|]. split; [run|].
  split; [run|]. split; [run|]. split; [run|]. split; [run|]. split; [run|].
  split; [vm_compute; discriminate|]. split; [run|].
  eexists. run.
Qed.

Lemma add_vote_previous_height_returns_false_witness :
  v_height (vote_of MsgPrecommit 1 1 3 id_P) + 1 = rs_height (rs at_height_2)
  /\ rs_step (rs at_height_2) = NewHeight
  /\ exists s', add_vote (vote_of MsgPrecommit 1 1 3 id_P) EmptyString at_height_2 = Ok false s'.
Proof.
  assert (H1 : v_height (vote_of MsgPrecommit 1 1 3 id_P) + 1 = rs_height (rs at_height_2))
    by reflexivity.
  assert (H3 : rs_step (rs at_height_2) = NewHeight) by reflexivity.
  split; [exact H1|]. split; [exact H3|].
  apply (proj2 (proj2 (add_vote_previous_height_returns_false
                         (vote_of MsgPrecommit 1 1 3 id_P) EmptyString at_height_2
                         H1 eq_refl H3))).
  unfold pointers_set. vm_compute.
  repeat split; intros; first [discriminate | contradiction | tauto].
Defined.



(** ** Runs of the further properties *)

Import BlockPool BlockPoolFacts.

Lemma sign_add_vote_publishes_witness :
  exists s',
    sign_add_vote MsgPrevote "B" (parts id_B) prevoting = Ok tt s'
    /\ internal_mq s'
       = (internal_mq prevoting
          ++ [PublishedVote
                {| v_type := MsgPrevote; v_height := 1; v_round := 0; v_block_id := id_B;
                   v_timestamp := 1000; v_validator_address := "A";
                   v_validator_index := 0 |}])%list.
Proof.
  destruct (sign_add_vote_publishes MsgPrevote "B" (parts id_B) prevoting four_validators
              eq_refl) as (s' & Hs & _ & Hv).
  exists s'. split; [exact Hs|].
  destruct (Hv eq_refl) as (ts & Ht & ->).
  vm_compute in Ht. inversion Ht; subst. reflexivity.
Defined.

Lemma enter_prevote_cases_witness :
  enter_prevote 1 0 proposing
  = Ok tt (stepped 0 Prevote (voted MsgPrevote EmptyString part_set_header_zero proposing)).
Proof.
  refine (proj1 (proj2 (enter_prevote_cases proposing 0 four_validators _ _ eq_refl))
            eq_refl eq_refl).
  - vm_compute. discriminate.
  - intros _. reflexivity.
Defined.

Lemma handle_timeout_moves_forward_witness :
  rs_le (rs at_genesis) (rs proposing).
Proof.
  apply (handle_timeout_moves_forward (ti_of 1 0 NewHeight) at_genesis proposing).
  run.
Defined.

Lemma enter_new_round_skips_to_later_round_witness :
  exists s',
    enter_new_round 2 1 at_height_2 = Ok tt s'
    /\ rs_round (rs s') = 1 /\ rs_step (rs s') = Propose /\ rs_proposal (rs s') = None.
Proof.
  destruct (enter_new_round_skips_to_later_round at_height_2 1
              (sim_new_height_vote_set "noir" 2 four_validators) four_validators)
    as (s' & H & _ & Hr & Hs & _ & Hp & _).
  - vm_compute. split; [discriminate|reflexivity].
  - vm_compute. repeat split; first [discriminate | contradiction | tauto].
  - reflexivity.
  - reflexivity.
  - exists s'. repeat split; assumption.
Defined.

Lemma update_to_state_ignores_stale_state_witness :
  update_to_state genesis at_genesis = Ok tt (with_n_steps (S (n_steps at_genesis)) at_genesis).
Proof.
  refine (proj2 (update_to_state_ignores_stale_state genesis at_genesis eq_refl _) _ _).
  - vm_compute. discriminate.
  - vm_compute. discriminate.
  - vm_compute. discriminate.
Defined.

Lemma new_state_at_genesis_witness :
  exists s',
    new_state config0 genesis constructed = Ok tt s'
    /\ rs_height (rs s') = 1 /\ rs_round (rs s') = 0 /\ rs_step (rs s') = NewHeight
    /\ local_state s' = genesis.
Proof.
  destruct (new_state_at_genesis config0 genesis constructed)
    as (s' & H & _ & Hl & Hh & Hr & Hs & _).
  - reflexivity.
  - left. vm_compute. discriminate.
  - reflexivity.
  - exists s'. repeat split; assumption.
Defined.

Lemma new_state_after_genesis_throws_witness :
  new_state config0 state_1 constructed
  = Throw "update_to_state() unexpected state height" (with_config config0 constructed)
  \/ new_state config0 state_1 constructed
     = Throw "last commit cannot be empty after initial block"
         (with_rs (set_validators (Some (validators state_1)) (rs constructed))
            (with_config config0 constructed)).
Proof.
  apply (new_state_after_genesis_throws config0 state_1 constructed);
    [reflexivity|reflexivity|reflexivity|vm_compute; discriminate].
Defined.

Lemma finalize_commit_throws_witness :
  exists what, finalize_commit 1 committing = Throw what committing.
Proof.
  apply (finalize_commit_throws committing
           (votes_with 2 (three MsgPrecommit 1 id_P)) id_P block_P parts_P);
    first [reflexivity | vm_compute; reflexivity].
Defined.

Lemma try_finalize_commit_never_advances_witness :
  try_finalize_commit 1 nil_commit_round = Ok tt nil_commit_round
  /\ nil_commit_round = nil_commit_round.
Proof.
  assert (H : try_finalize_commit 1 nil_commit_round = Ok tt nil_commit_round) by run.
  split; [exact H|].
  apply (try_finalize_commit_never_advances 1 nil_commit_round nil_commit_round);
    [vm_compute; reflexivity|vm_compute; reflexivity|reflexivity|left; exact H].
Defined.

Lemma add_vote_true_only_if_recorded_witness :
  v_height (vote_of MsgPrevote 1 0 0 block_id_nil) = rs_height (rs prevoting)
  /\ (v_type (vote_of MsgPrevote 1 0 0 block_id_nil) = MsgPrevote
      \/ v_type (vote_of MsgPrevote 1 0 0 block_id_nil) = MsgPrecommit)
  /\ exists votes,
       rs_votes (rs prevoting) = Some votes
       /\ fst (hvs_add_vote (vote_of MsgPrevote 1 0 0 block_id_nil) EmptyString votes) = true.
Proof.
  apply (add_vote_true_only_if_recorded (vote_of MsgPrevote 1 0 0 block_id_nil) EmptyString
           prevoting
           (after (try_add_vote (vote_of MsgPrevote 1 0 0 block_id_nil) EmptyString)
              prevoting)).
  run.
Defined.

Lemma encode_key_order_witness :
  String.compare (encode_key prefix_validators 9) (encode_key prefix_validators 10) = Lt.
Proof.
  apply (encode_key_order prefix_validators 9 10); lia.
Defined.

(** The store with its three kinds of record. *)
#[local] Existing Instances sim_store_codec sim_chain.

Lemma save_then_load_witness :
  fst (save sim_state_key stored_genesis ∅) = true
  /\ load sim_state_key (snd (save sim_state_key stored_genesis ∅)) = Some stored_genesis
  /\ load_validators 1 (snd (save sim_state_key stored_genesis ∅)) = Some four_validators.
Proof.
  destruct (save_then_load (CD := sim_store_codec) (CO := sim_chain)
              sim_state_key stored_genesis ∅) as (_ & H).
  - simpl. lia.
  - destruct H as (H1 & H2 & H3 & _).
    + simpl. lia.
    + split; [exact H1|]. split; [exact H2|]. apply H3. reflexivity.
Defined.

Lemma bootstrap_then_load_witness :
  fst (bootstrap sim_state_key stored_state_1 ∅) = true
  /\ load sim_state_key (snd (bootstrap sim_state_key stored_state_1 ∅))
     = Some stored_state_1
  /\ load_validators 3 (snd (bootstrap sim_state_key stored_state_1 ∅))
     = Some four_validators
  /\ load_validators 2 (snd (bootstrap sim_state_key stored_state_1 ∅))
     = Some four_validators.
Proof.
  destruct (bootstrap_then_load (CD := sim_store_codec) (CO := sim_chain)
              sim_state_key stored_state_1 ∅) as (H1 & H2 & H3 & H4 & _).
  - simpl. lia.
  - split; [exact H1|]. split; [exact H2|]. split; [exact H3|].
    apply H4; [discriminate|reflexivity].
Defined.

Lemma decr_pending_after_incr_pending_witness :
  exists p',
    decr_pending 15 512 (incr_pending 15 idle_peer) = Some p'
    /\ num_pending p' = 0 /\ did_timeout p' = true
    /\ timeout p' = Some [PeerTimerExpiresFromNow 15; PeerTimerCancel].
Proof.
  destruct (decr_pending_after_incr_pending 15 512 idle_peer) as (p' & H & Hn & Hd & Ht & _).
  - simpl. lia.
  - reflexivity.
  - exists p'. repeat split; assumption.
Defined.

Lemma engine_never_leaves_its_height_witness :
  rs_height (rs round_one_precommits) = rs_height (rs at_genesis)
  /\ local_state round_one_precommits = local_state at_genesis.
Proof.
  apply (engine_never_leaves_its_height at_genesis round_one_precommits);
    [reflexivity|apply reaches_round_one_precommits].
Defined.

Lemma handle_timeout_returns_before_prevote_witness :
  exists s', handle_timeout (ti_of 2 0 NewHeight) at_height_2 = Ok tt s'
             /\ pointers_set (rs s').
Proof.
  apply (handle_timeout_returns_before_prevote (ti_of 2 0 NewHeight) at_height_2).
  - vm_compute. repeat split; first [discriminate | contradiction | tauto].
  - left. reflexivity.
Defined.

Lemma wait_steps_enter_without_two_thirds_any_witness :
  exists s1,
    schedule_timeout (cfg_prevote (cs_config prevoting) 0) 1 0 PrevoteWait prevoting
    = Ok tt s1
    /\ enter_prevote_wait 1 0 prevoting = Ok tt (stepped 0 PrevoteWait s1).
Proof.
  refine (proj2 (proj1 (wait_steps_enter_without_two_thirds_any prevoting 0
                          (votes_with 1 []) _ eq_refl) _) eq_refl).
  - vm_compute. discriminate.
  - intros _. reflexivity.
Defined.

Lemma new_height_timeout_starts_round_0_witness :
  exists s',
    handle_timeout (ti_of 2 0 NewHeight) at_height_2 = Ok tt s'
    /\ rs_round (rs s') = 0 /\ rs_step (rs s') = Propose.
Proof.
  destruct (new_height_timeout_starts_round_0 0 at_height_2
              (sim_new_height_vote_set "noir" 2 four_validators))
    as (s' & H & _ & Hr & Hs & _).
  - reflexivity.
  - reflexivity.
  - vm_compute. repeat split; first [discriminate | contradiction | tauto].
  - reflexivity.
  - left. reflexivity.
  - exists s'. repeat split; assumption.
Defined.

End Examples.
